(** * bluesky plans: the plan mutation engine and its combinators

    A shallow embedding of [bluesky/plans.py]: Python generators ("plans")
    that yield [Msg] values and are resumed with responses, the stack-based
    interpreter [plan_mutator], the combinators [single_gen], [bschain] and
    [finalize], and the preprocessors built on them. *)

From stdpp Require Import base gmap strings list.

Set Warnings "-register-all".

Open Scope string_scope.
Open Scope list_scope.
Open Scope nat_scope.

(** ** Values, exceptions and messages *)

(** Response values sent into a plan and completion values of plans. *)
Inductive value : Type :=
| VNone
| VInt (z : Z)
| VStr (s : string)
| VTuple (vs : list value).

(** Exception instances.  [StopIteration] is not a constructor: it is the
    completion signal of a generator and appears as the outcome
    [Returned] below.  [GeneratorExit] and [KeyboardInterrupt] derive from
    [BaseException] only, so a clause [except Exception] does not catch
    them; everything else here derives from [Exception]. *)
Inductive exn : Type :=
| RuntimeError (s : string)
| TypeError (s : string)
| IndexError (s : string)
| ValueError (s : string)
| AttributeError (s : string)
| UserError (tag : nat)
| GeneratorExit
| KeyboardInterrupt.

Definition is_Exception (e : exn) : bool :=
  match e with
  | GeneratorExit | KeyboardInterrupt => false
  | _ => true
  end.

Definition is_GeneratorExit (e : exn) : bool :=
  match e with GeneratorExit => true | _ => false end.

(** [Msg] is imported from [run_engine]; the fields are the ones plans.py
    reads and writes ([command], [obj], [args], [kwargs]; a group token is
    the keyword argument [block_group]).  [mid] is [id(msg)], the number
    the engine keeps of a message: two messages that are alive at the same
    time have different [mid] even when all other fields agree; a message
    built after another one has died may be given the [mid] of the dead
    one.  Devices are named by a number. *)
Record Msg : Type := mkMsg {
  mid : nat;
  command : string;
  obj : option nat;
  args : list value;
  kwargs : list (string * value) }.

(** ** The generator protocol *)

(** How a suspended generator is resumed: [gen.send(v)] or [gen.throw(e)]. *)
Inductive resume : Type :=
| Send (v : value)
| Throw (e : exn).

(** What a resumption produces: the next message, [StopIteration(v)], or an
    exception. *)
Inductive outcome : Type :=
| Yielded (m : Msg)
| Returned (v : value)
| Raised (e : exn).

(** A generator object of type [G] living in a world [W] (the closure
    variables and devices its body reads and writes).  The first argument
    bounds the number of loop iterations the resumption may take; [None]
    means the bound was too small. *)
Class Generator (W G : Type) :=
  resume_gen : nat → G → resume → W → option (outcome * G * W).

(** A [StopIteration] that escapes from the body of a generator ends the
    generator like a [return] before PEP 479 and is turned into a
    [RuntimeError] since; [pep479] tells which interpreter runs the code. *)
Class Interpreter := pep479 : bool.

Section Protocol.
Context {W G : Type} `{!Generator W G}.

(** [gen.close()]: throw [GeneratorExit] in; the result is [None] when the
    generator finishes or lets the exception through, a [RuntimeError]
    when it yields instead, and any other exception propagates.  The
    result is [inl tt] for a normal return of [close]. *)
Definition close (fuel : nat) (g : G) (w : W) : option ((unit + exn) * G * W) :=
  match resume_gen fuel g (Throw GeneratorExit) w with
  | None => None
  | Some (Yielded _, g', w') =>
      Some (inr (RuntimeError "generator ignored GeneratorExit"), g', w')
  | Some (Returned _, g', w') => Some (inl tt, g', w')
  | Some (Raised e, g', w') =>
      if is_GeneratorExit e then Some (inl tt, g', w') else Some (inr e, g', w')
  end.

(** One resumption of the sub-generator inside [yield from g] (PEP 380):
    a value is sent on, [GeneratorExit] closes the sub-generator and is
    re-raised, any other exception is thrown into the sub-generator. *)
Definition yield_from (fuel : nat) (g : G) (r : resume) (w : W)
  : option (outcome * G * W) :=
  match r with
  | Throw GeneratorExit =>
      match close fuel g w with
      | None => None
      | Some (inl _, g', w') => Some (Raised GeneratorExit, g', w')
      | Some (inr e, g', w') => Some (Raised e, g', w')
      end
  | _ => resume_gen fuel g r w
  end.

(** Driving a generator with a script of resumptions; the trace stops at
    the first outcome that is not a message. *)
Fixpoint run (fuel : nat) (g : G) (script : list resume) (w : W)
  : option (list outcome * G * W) :=
  match script with
  | [] => Some ([], g, w)
  | r :: script' =>
      match resume_gen fuel g r w with
      | None => None
      | Some (Yielded m, g', w') =>
          match run fuel g' script' w' with
          | None => None
          | Some (tr, g'', w'') => Some (Yielded m :: tr, g'', w'')
          end
      | Some (o, g', w') => Some ([o], g', w')
      end
  end.
End Protocol.

(** ** Plans written as generator functions *)

(** The body of a generator function from its current point on: it returns,
    raises, yields a message and waits to be resumed, or reads or writes
    the world. *)
Inductive plan (W : Type) : Type :=
| Return (v : value)
| Raise (e : exn)
| Yield (m : Msg) (k : resume → plan W)
| Get (k : W → plan W)
| Put (w : W) (k : plan W).
Arguments Return {W} v.
Arguments Raise {W} e.
Arguments Yield {W} m k.
Arguments Get {W} k.
Arguments Put {W} w k.

(** A generator object made from such a body: not yet started, suspended at
    a [yield], or finished. *)
Inductive gen (W : Type) : Type :=
| Fresh (body : plan W)
| Suspended (k : resume → plan W)
| Finished.
Arguments Fresh {W} body.
Arguments Suspended {W} k.
Arguments Finished {W}.

Section Plans.
Context {W : Type}.

Fixpoint run_body (p : plan W) (w : W) : outcome * gen W * W :=
  match p with
  | Return v => (Returned v, Finished, w)
  | Raise e => (Raised e, Finished, w)
  | Yield m k => (Yielded m, Suspended k, w)
  | Get k => run_body (k w) w
  | Put w' k => run_body k w'
  end.

Definition gen_resume (g : gen W) (r : resume) (w : W) : outcome * gen W * W :=
  match g, r with
  | Fresh body, Send VNone => run_body body w
  | Fresh body, Send _ =>
      (Raised (TypeError "can't send non-None value to a just-started generator"),
       Fresh body, w)
  | Fresh _, Throw e => (Raised e, Finished, w)
  | Suspended k, _ => run_body (k r) w
  | Finished, Send _ => (Returned VNone, Finished, w)
  | Finished, Throw e => (Raised e, Finished, w)
  end.

#[export] Instance gen_Generator : Generator W (gen W) :=
  fun _ g r w => Some (gen_resume g r w).

(** [v = yield m] in a body with no [try] around it: a thrown exception
    propagates. *)
Definition yield_ (m : Msg) (k : value → plan W) : plan W :=
  Yield m (fun r => match r with Send v => k v | Throw e => Raise e end).

(** [single_gen(msg)]. *)
Definition single_gen (msg : Msg) : gen W :=
  Fresh (yield_ msg (fun _ => Return VNone)).
End Plans.

(** ** The mutator engine: [plan_mutator] *)

(** What a rewrite function [msg_proc] hands back: a 2-tuple
    [(new_gen, tail_gen)] whose components may be [None], the bare value
    [None] (the function fell off its end), or an exception. *)
Inductive proc_result (F : Type) : Type :=
| ProcPair (new_gen tail_gen : option F)
| ProcNone
| ProcRaise (ex : exn).
Arguments ProcPair {F} new_gen tail_gen.
Arguments ProcNone {F}.
Arguments ProcRaise {F} ex.

(** The local variables of a running [plan_mutator].  Generator objects are
    kept in [gens] under their identity; [plan_stack], [tail_cache] and
    [tail_result_cache] hold identities, as the code holds references and
    [id(...)] keys.  The head of a list is the right end of the deque. *)
Record locals (F : Type) : Type := mkLocals {
  gens : gmap nat F;
  next_id : nat;
  msgs_seen : gset nat;
  plan_stack : list nat;
  result_stack : list value;
  tail_cache : gmap nat (option nat);
  tail_result_cache : gmap nat value }.
Arguments mkLocals {F}.
Arguments gens {F}.
Arguments next_id {F}.
Arguments msgs_seen {F}.
Arguments plan_stack {F}.
Arguments result_stack {F}.
Arguments tail_cache {F}.
Arguments tail_result_cache {F}.

Section Locals.
Context {F : Type}.
Implicit Type l : locals F.

Definition set_gens (x : gmap nat F) l : locals F :=
  mkLocals x (next_id l) (msgs_seen l) (plan_stack l) (result_stack l)
           (tail_cache l) (tail_result_cache l).
Definition set_msgs_seen (x : gset nat) l : locals F :=
  mkLocals (gens l) (next_id l) x (plan_stack l) (result_stack l)
           (tail_cache l) (tail_result_cache l).
Definition set_plan_stack (x : list nat) l : locals F :=
  mkLocals (gens l) (next_id l) (msgs_seen l) x (result_stack l)
           (tail_cache l) (tail_result_cache l).
Definition set_result_stack (x : list value) l : locals F :=
  mkLocals (gens l) (next_id l) (msgs_seen l) (plan_stack l) x
           (tail_cache l) (tail_result_cache l).
Definition set_tail_cache (x : gmap nat (option nat)) l : locals F :=
  mkLocals (gens l) (next_id l) (msgs_seen l) (plan_stack l) (result_stack l)
           x (tail_result_cache l).
Definition set_tail_result_cache (x : gmap nat value) l : locals F :=
  mkLocals (gens l) (next_id l) (msgs_seen l) (plan_stack l) (result_stack l)
           (tail_cache l) x.

(** A generator object handed over by [msg_proc] is a new object: it gets
    an identity no other object has. *)
Definition alloc (g : F) l : locals F * nat :=
  (mkLocals (<[next_id l := g]> (gens l)) (S (next_id l)) (msgs_seen l)
            (plan_stack l) (result_stack l) (tail_cache l)
            (tail_result_cache l),
   next_id l).

Definition alloc_opt (g : option F) l : locals F * option nat :=
  match g with
  | None => (l, None)
  | Some g => let '(l, i) := alloc g l in (l, Some i)
  end.
End Locals.

(** The identity of the root generator, the argument [plan]. *)
Definition plan_id : nat := 0.

(** What one pass through the body of the [while True] loop ends in:
    [continue] (or the end of an [except] clause), the [yield] of line 104,
    a [return], or an exception that leaves the generator. *)
Inductive step (W F : Type) : Type :=
| Continue (l : locals F) (w : W)
| Suspend (msg : Msg) (l : locals F) (w : W)
| Return_ (v : value) (l : locals F) (w : W)
| Raise_ (e : exn) (l : locals F) (w : W).
Arguments Continue {W F} l w.
Arguments Suspend {W F} msg l w.
Arguments Return_ {W F} v l w.
Arguments Raise_ {W F} e l w.

Section PlanMutator.
Context {W F : Type} `{!Generator W F} `{!Interpreter}.

(** The rewrite function: it may read and write the world (its closure
    variables) and hands back freshly created generator objects. *)
Variable msg_proc : Msg → W → proc_result F * W.

(** Lines 65-73: the state before the first iteration. *)
Definition seed (p : F) : locals F :=
  mkLocals {[plan_id := p]} 1 ∅ [plan_id] [VNone] ∅ ∅.

(** Lines 132-133, [except Exception as ex: plan.throw(ex)].  When the
    root answers the exception with a message, [throw] returns it, the
    statement drops it and the loop goes on.  When the root returns, the
    [StopIteration] of [throw] escapes from the clause. *)
Definition except_Exception (fuel : nat) (l : locals F) (ex : exn) (w : W)
  : option (step W F) :=
  match gens l !! plan_id with
  | None => None
  | Some p =>
      match resume_gen fuel p (Throw ex) w with
      | None => None
      | Some (o, p', w) =>
          let l := set_gens (<[plan_id := p']> (gens l)) l in
          match o with
          | Yielded _ => Some (Continue l w)
          | Returned v =>
              if pep479
              then Some (Raise_ (RuntimeError "generator raised StopIteration") l w)
              else Some (Return_ v l w)
          | Raised e => Some (Raise_ e l w)
          end
      end
  end.

(** An exception raised inside the [try] block: [except Exception]
    takes it when its class derives from [Exception]; otherwise it leaves
    the generator. *)
Definition on_exception (fuel : nat) (l : locals F) (ex : exn) (w : W)
  : option (step W F) :=
  if is_Exception ex then except_Exception fuel l ex w
  else Some (Raise_ ex l w).

(** Lines 107-131, [except StopIteration].  [ret] is the value that was
    last sent to the exhausted generator. *)
Definition except_StopIteration (fuel : nat) (l : locals F) (ret : value) (w : W)
  : option (step W F) :=
  match plan_stack l with
  | [] => Some (Raise_ (IndexError "pop from an empty deque") l w)
  | exhausted_gen :: frames =>
      let l := set_plan_stack frames l in
      let ret := default ret (tail_result_cache l !! exhausted_gen) in
      let l := set_tail_result_cache
                 (delete exhausted_gen (tail_result_cache l)) l in
      let l := set_result_stack (ret :: result_stack l) l in
      let l :=
        match tail_cache l !! exhausted_gen with
        | None => l
        | Some gen =>
            let l := set_tail_cache (delete exhausted_gen (tail_cache l)) l in
            match gen, result_stack l with
            | Some gen, saved_result :: results =>
                let l := set_plan_stack (gen :: plan_stack l) l in
                let l := set_result_stack results l in
                let l := set_tail_result_cache
                           (<[gen := saved_result]> (tail_result_cache l)) l in
                set_result_stack (VNone :: result_stack l) l
            | _, _ => l
            end
        end in
      match plan_stack l with
      | _ :: _ => Some (Continue l w)
      | [] =>
          match gens l !! plan_id with
          | None => None
          | Some p =>
              match close fuel p w with
              | None => None
              | Some (r, p', w) =>
                  let l := set_gens (<[plan_id := p']> (gens l)) l in
                  match r with
                  | inl _ => Some (Return_ VNone l w)
                  | inr e => Some (Raise_ e l w)
                  end
              end
          end
      end
  end.

(** Lines 89-105: what the loop does with the answer of [msg_proc] to a
    message it had not seen. *)
Definition dispatch (fuel : nat) (l : locals F) (msg : Msg)
    (answer : proc_result F * W) : option (step W F) :=
  match answer with
  | (ProcRaise ex, w) => on_exception fuel l ex w
  | (ProcNone, w) =>
      on_exception fuel l (TypeError "'NoneType' object is not iterable") w
  | (ProcPair None (Some _), w) =>
      on_exception fuel l (RuntimeError "This makes no sense") w
  | (ProcPair None None, w) => Some (Suspend msg l w)
  | (ProcPair (Some new_gen) tail_gen, w) =>
      let '(l, new_id) := alloc new_gen l in
      let '(l, tail_id) := alloc_opt tail_gen l in
      let l := set_plan_stack (new_id :: plan_stack l) l in
      let l := set_result_stack (VNone :: result_stack l) l in
      let l := set_tail_cache (<[new_id := tail_id]> (tail_cache l)) l in
      Some (Continue l w)
  end.

(** Lines 76-105: one pass through the [try] block from the top of the
    loop.  [fuel] bounds the resumptions of the frames. *)
Definition iteration (fuel : nat) (l : locals F) (w : W) : option (step W F) :=
  match result_stack l with
  | [] => on_exception fuel l (IndexError "pop from an empty deque") w
  | ret :: results =>
      let l := set_result_stack results l in
      match plan_stack l with
      | [] => on_exception fuel l (IndexError "deque index out of range") w
      | top :: _ =>
          match gens l !! top with
          | None => None
          | Some g =>
              match resume_gen fuel g (Send ret) w with
              | None => None
              | Some (o, g', w) =>
                  let l := set_gens (<[top := g']> (gens l)) l in
                  match o with
                  | Returned _ => except_StopIteration fuel l ret w
                  | Raised ex => on_exception fuel l ex w
                  | Yielded msg =>
                      if bool_decide (mid msg ∈ msgs_seen l)
                      then Some (Suspend msg l w)
                      else
                        let l := set_msgs_seen ({[mid msg]} ∪ msgs_seen l) l in
                        dispatch fuel l msg (msg_proc msg w)
                  end
              end
          end
      end
  end.

(** The [while True] loop from its top until the generator yields,
    returns or raises.  Each iteration uses one unit of fuel. *)
Fixpoint loop (fuel : nat) (l : locals F) (w : W)
  : option (outcome * locals F * W) :=
  match fuel with
  | 0 => None
  | S n =>
      match iteration n l w with
      | None => None
      | Some (Continue l w) => loop n l w
      | Some (Suspend msg l w) => Some (Yielded msg, l, w)
      | Some (Return_ v l w) => Some (Returned v, l, w)
      | Some (Raise_ e l w) => Some (Raised e, l, w)
      end
  end.

(** The loop entered through an [except] clause. *)
Definition resume_loop (fuel : nat) (s : option (step W F))
  : option (outcome * locals F * W) :=
  match s with
  | None => None
  | Some (Continue l w) => loop fuel l w
  | Some (Suspend msg l w) => Some (Yielded msg, l, w)
  | Some (Return_ v l w) => Some (Returned v, l, w)
  | Some (Raise_ e l w) => Some (Raised e, l, w)
  end.
End PlanMutator.

(** The generator object [plan_mutator(plan, msg_proc)]: created, paused at
    [inner_ret = yield msg] (line 104), or finished.  It holds its two
    arguments. *)
Inductive mutator (W F : Type) : Type :=
| MFresh (p : F) (msg_proc : Msg → W → proc_result F * W)
| MSuspended (l : locals F) (msg_proc : Msg → W → proc_result F * W)
| MFinished.
Arguments MFresh {W F} p msg_proc.
Arguments MSuspended {W F} l msg_proc.
Arguments MFinished {W F}.

Section MutatorObject.
Context {W F : Type} `{!Generator W F} `{!Interpreter}.

Definition settle (msg_proc : Msg → W → proc_result F * W)
    (r : option (outcome * locals F * W)) : option (outcome * mutator W F * W) :=
  match r with
  | None => None
  | Some (Yielded m, l, w) => Some (Yielded m, MSuspended l msg_proc, w)
  | Some (o, _, w) => Some (o, MFinished, w)
  end.

Definition mutator_resume (fuel : nat) (g : mutator W F) (r : resume) (w : W)
  : option (outcome * mutator W F * W) :=
  match g, r with
  | MFresh p msg_proc, Send VNone =>
      settle msg_proc (loop msg_proc fuel (seed p) w)
  | MFresh p msg_proc, Send _ =>
      Some (Raised (TypeError "can't send non-None value to a just-started generator"),
            MFresh p msg_proc, w)
  | MFresh _ _, Throw e => Some (Raised e, MFinished, w)
  | MSuspended l msg_proc, Send inner_ret =>
      settle msg_proc
        (loop msg_proc fuel (set_result_stack (inner_ret :: result_stack l) l) w)
  | MSuspended l msg_proc, Throw ex =>
      settle msg_proc (resume_loop msg_proc fuel (on_exception fuel l ex w))
  | MFinished, Send _ => Some (Returned VNone, MFinished, w)
  | MFinished, Throw e => Some (Raised e, MFinished, w)
  end.

#[export] Instance mutator_Generator : Generator W (mutator W F) := mutator_resume.

Definition plan_mutator (p : F) (msg_proc : Msg → W → proc_result F * W)
  : mutator W F := MFresh p msg_proc.
End MutatorObject.

(** ** Combinators *)

Section TreeCombinators.
Context {W : Type}.

(** [_i.close()] on a sub-generator whose body continues as [p], inside
    [yield from]: [after] receives the exception that leaves the
    [yield from] expression. *)
Fixpoint close_body (p : plan W) (after : exn → plan W) : plan W :=
  match p with
  | Return _ => after GeneratorExit
  | Raise e => after e
  | Yield _ _ => after (RuntimeError "generator ignored GeneratorExit")
  | Get k => Get (fun w => close_body (k w) after)
  | Put w k => Put w (close_body k after)
  end.

(** [v = yield from sub] inside a generator body, [sub] being the rest of
    the body of the sub-generator; [k v] is the code after the
    expression and [h e] what the body does with an exception that comes
    out of it. *)
Fixpoint yield_from_body (sub : plan W) (k : value → plan W) (h : exn → plan W)
  : plan W :=
  match sub with
  | Return v => k v
  | Raise e => h e
  | Yield m c =>
      Yield m (fun r =>
        match r with
        | Throw GeneratorExit => close_body (c (Throw GeneratorExit)) h
        | _ => yield_from_body (c r) k h
        end)
  | Get c => Get (fun w => yield_from_body (c w) k h)
  | Put w c => Put w (yield_from_body c k h)
  end.

(** What [next(g)] runs. *)
Definition body_of (g : gen W) : plan W :=
  match g with
  | Fresh body => body
  | Suspended c => c (Send VNone)
  | Finished => Return VNone
  end.

Definition yield_from_gen (g : gen W) (k : value → plan W) (h : exn → plan W)
  : plan W :=
  yield_from_body (body_of g) k h.

(** [yield from msgs] for a list [msgs]: a list iterator has [__next__]
    only, so a response other than [None] cannot be sent on. *)
Fixpoint yield_from_list (msgs : list Msg) (k : plan W) : plan W :=
  match msgs with
  | [] => k
  | m :: rest =>
      Yield m (fun r =>
        match r with
        | Send VNone => yield_from_list rest k
        | Send _ =>
            Raise (AttributeError "'list_iterator' object has no attribute 'send'")
        | Throw e => Raise e
        end)
  end.

(** [bschain]: the plans in [args] in turn; [rets] collects the completion
    values. *)
Fixpoint bschain_body (args : list (gen W)) (rets : list value) : plan W :=
  match args with
  | [] => Return (VTuple rets)
  | p :: rest =>
      yield_from_gen p (fun v => bschain_body rest (rets ++ [v])) Raise
  end.

Definition bschain (args : list (gen W)) : gen W := Fresh (bschain_body args []).
End TreeCombinators.

(** [finalize(plan, final_plan)] as a generator object: created, paused in
    [ret = yield from plan] inside the [try], paused in
    [yield from final_plan] inside the [finally] with what is pending (the
    value to return or the exception to re-raise), or finished. *)
Inductive finalize_gen (A B : Type) : Type :=
| FinFresh (plan : A) (final_plan : B)
| FinTry (plan : A) (final_plan : B)
| FinFinally (final_plan : B) (pending : value + exn)
| FinDone.
Arguments FinFresh {A B} plan final_plan.
Arguments FinTry {A B} plan final_plan.
Arguments FinFinally {A B} final_plan pending.
Arguments FinDone {A B}.

Section Finalize.
Context {W A B : Type} `{!Generator W A} `{!Generator W B}.

Definition finalize_finally (fuel : nat) (final_plan : B) (pending : value + exn)
    (r : resume) (w : W) : option (outcome * finalize_gen A B * W) :=
  match yield_from fuel final_plan r w with
  | None => None
  | Some (Yielded m, final_plan, w) =>
      Some (Yielded m, FinFinally final_plan pending, w)
  | Some (Returned _, _, w) =>
      match pending with
      | inl ret => Some (Returned ret, FinDone, w)
      | inr e => Some (Raised e, FinDone, w)
      end
  | Some (Raised e, _, w) => Some (Raised e, FinDone, w)
  end.

Definition finalize_try (fuel : nat) (plan : A) (final_plan : B)
    (r : resume) (w : W) : option (outcome * finalize_gen A B * W) :=
  match yield_from fuel plan r w with
  | None => None
  | Some (Yielded m, plan, w) => Some (Yielded m, FinTry plan final_plan, w)
  | Some (Returned ret, _, w) =>
      finalize_finally fuel final_plan (inl ret) (Send VNone) w
  | Some (Raised e, _, w) =>
      finalize_finally fuel final_plan (inr e) (Send VNone) w
  end.

Definition finalize_resume (fuel : nat) (g : finalize_gen A B) (r : resume) (w : W)
  : option (outcome * finalize_gen A B * W) :=
  match g, r with
  | FinFresh plan final_plan, Send VNone =>
      finalize_try fuel plan final_plan (Send VNone) w
  | FinFresh _ _, Send _ =>
      Some (Raised (TypeError "can't send non-None value to a just-started generator"),
            g, w)
  | FinFresh _ _, Throw e => Some (Raised e, FinDone, w)
  | FinTry plan final_plan, _ => finalize_try fuel plan final_plan r w
  | FinFinally final_plan pending, _ => finalize_finally fuel final_plan pending r w
  | FinDone, Send _ => Some (Returned VNone, FinDone, w)
  | FinDone, Throw e => Some (Raised e, FinDone, w)
  end.

#[export] Instance finalize_Generator : Generator W (finalize_gen A B) :=
  finalize_resume.

Definition finalize (plan : A) (final_plan : B) : finalize_gen A B :=
  FinFresh plan final_plan.
End Finalize.

(** A generator function of the shape
    [<statements>; return (yield from <expression>)]: [setup] runs the
    statements and builds the sub-generator when the body is entered. *)
Inductive delegating (W G : Type) : Type :=
| DFresh (setup : W → G * W)
| DRunning (g : G)
| DDone.
Arguments DFresh {W G} setup.
Arguments DRunning {W G} g.
Arguments DDone {W G}.

Section Delegating.
Context {W G : Type} `{!Generator W G}.

Definition delegating_step (fuel : nat) (g : G) (r : resume) (w : W)
  : option (outcome * delegating W G * W) :=
  match yield_from fuel g r w with
  | None => None
  | Some (Yielded m, g, w) => Some (Yielded m, DRunning g, w)
  | Some (o, _, w) => Some (o, DDone, w)
  end.

Definition delegating_resume (fuel : nat) (d : delegating W G) (r : resume) (w : W)
  : option (outcome * delegating W G * W) :=
  match d, r with
  | DFresh setup, Send VNone =>
      let '(g, w) := setup w in delegating_step fuel g (Send VNone) w
  | DFresh _, Send _ =>
      Some (Raised (TypeError "can't send non-None value to a just-started generator"),
            d, w)
  | DFresh _, Throw e => Some (Raised e, DDone, w)
  | DRunning g, _ => delegating_step fuel g r w
  | DDone, Send _ => Some (Returned VNone, DDone, w)
  | DDone, Throw e => Some (Raised e, DDone, w)
  end.

#[export] Instance delegating_Generator : Generator W (delegating W G) :=
  delegating_resume.
End Delegating.

(** A deque that holds generator objects of two kinds. *)
#[export] Instance sum_Generator {W A B : Type} `{!Generator W A} `{!Generator W B}
  : Generator W (A + B) :=
  fun fuel g r w =>
    match g with
    | inl a =>
        match resume_gen fuel a r w with
        | None => None
        | Some (o, a, w) => Some (o, inl a, w)
        end
    | inr b =>
        match resume_gen fuel b r w with
        | None => None
        | Some (o, b, w) => Some (o, inr b, w)
        end
    end.

(** ** Preprocessors *)

(** What the preprocessors read and write outside their generator frames:
    the identity the next [Msg] object will get, the closure variables
    [seen_objs] (of [stage_wrapper]) and [initial_positions] (of
    [relative_set]), and the devices' [position] attribute together with a
    log of the reads made of it. *)
Record world : Type := mkWorld {
  fresh_msg : nat;
  seen_objs : gset nat;
  initial_positions : gmap nat Z;
  position : nat → Z;
  position_reads : list nat }.

Definition set_fresh_msg (x : nat) (w : world) : world :=
  mkWorld x (seen_objs w) (initial_positions w) (position w) (position_reads w).
Definition set_seen_objs (x : gset nat) (w : world) : world :=
  mkWorld (fresh_msg w) x (initial_positions w) (position w) (position_reads w).
Definition set_initial_positions (x : gmap nat Z) (w : world) : world :=
  mkWorld (fresh_msg w) (seen_objs w) x (position w) (position_reads w).
Definition set_position (x : nat → Z) (w : world) : world :=
  mkWorld (fresh_msg w) (seen_objs w) (initial_positions w) x (position_reads w).
Definition set_position_reads (x : list nat) (w : world) : world :=
  mkWorld (fresh_msg w) (seen_objs w) (initial_positions w) (position w) x.

(** [Msg(command, obj, *args, **kwargs)]: a new object. *)
Definition new_Msg (command : string) (obj : option nat) (args : list value)
    (kwargs : list (string * value)) (w : world) : Msg * world :=
  (mkMsg (fresh_msg w) command obj args kwargs, set_fresh_msg (S (fresh_msg w)) w).

(** [[Msg(command, o, *args, **kwargs) for o in objs]]. *)
Fixpoint new_Msgs (command : string) (objs : list nat) (args : list value)
    (kwargs : list (string * value)) (w : world) : list Msg * world :=
  match objs with
  | [] => ([], w)
  | o :: rest =>
      let '(m, w) := new_Msg command (Some o) args kwargs w in
      let '(ms, w) := new_Msgs command rest args kwargs w in
      (m :: ms, w)
  end.

Section StageWrapper.
(** The [root] attribute of a device. *)
Variable root_of : nat → nat.
Context `{!Interpreter}.

(** [inner], lines 448-457.  The [else] belongs to the outer [if]: for a
    message whose root is already in [seen_objs] the function reaches its
    end and returns [None]. *)
Definition inner (msg : Msg) (w : world) : proc_result (gen world) * world :=
  match obj msg with
  | Some o =>
      let obj := root_of o in
      if bool_decide (obj ∉ seen_objs w) then
        let w := set_seen_objs ({[obj]} ∪ seen_objs w) w in
        let '(stage, w) := new_Msg "stage" (Some obj) [] [] w in
        (ProcPair (Some (bschain [single_gen stage; single_gen msg])) None, w)
      else (ProcNone, w)
  | None => (ProcPair None None, w)
  end.

Fixpoint unstage_body (objs : list nat) : plan world :=
  match objs with
  | [] => Return VNone
  | obj :: rest =>
      Get (fun w =>
        let '(m, w) := new_Msg "unstage" (Some obj) [] [] w in
        Put w (yield_ m (fun _ => unstage_body rest)))
  end.

(** [unstage()], lines 459-461: the set is read when the body starts. *)
Definition unstage : gen world :=
  Fresh (Get (fun w => unstage_body (elements (seen_objs w)))).

Definition stage_wrapper (plan : gen world)
  : delegating world
      (finalize_gen (mutator world (gen world)) (gen world)) :=
  DFresh (fun w =>
    let w := set_seen_objs ∅ w in
    (finalize (plan_mutator plan inner) unstage, w)).
End StageWrapper.

Section FlyDuring.
Context `{!Interpreter}.

Definition insert_after_open (kickoff_msgs : list Msg) (msg : Msg) (w : world)
  : proc_result (gen world) * world :=
  if String.eqb (command msg) "open_run" then
    let new_gen := Fresh (yield_from_list kickoff_msgs (Return VNone)) in
    (ProcPair (Some (single_gen msg)) (Some new_gen), w)
  else (ProcPair None None, w).

Definition insert_before_close (collect_msgs : list Msg) (msg : Msg) (w : world)
  : proc_result (mutator world (gen world) + gen world) * world :=
  if String.eqb (command msg) "close_run" then
    let new_gen :=
      Fresh (yield_from_list collect_msgs (yield_ msg (fun _ => Return VNone))) in
    (ProcPair (Some (inr new_gen)) None, w)
  else (ProcPair None None, w).

(** [fly_during(plan, flyers)]; [grp] is the token [_short_uid('flyers')]
    draws. *)
Definition fly_during (plan : gen world) (flyers : list nat) (grp : string)
  : delegating world
      (mutator world (mutator world (gen world) + gen world)) :=
  DFresh (fun w =>
    let '(kickoff_msgs, w) :=
      new_Msgs "kickoff" flyers [] [("block_group", VStr grp)] w in
    let '(collect_msgs, w) := new_Msgs "collect" flyers [] [] w in
    let '(collect_msgs, w) :=
      match flyers with
      | [] => (collect_msgs, w)
      | _ :: _ =>
          let '(m, w) := new_Msg "wait" None [VStr grp] [] w in
          (m :: collect_msgs, w)
      end in
    let plan1 := plan_mutator plan (insert_after_open kickoff_msgs) in
    let plan2 := plan_mutator (inl plan1) (insert_before_close collect_msgs) in
    (plan2, w)).
End FlyDuring.

Section RelativeSet.
(** [devices]: [None], or the devices the rewrite applies to. *)
Variable devices : option (list nat).

Definition selected (o : option nat) : bool :=
  match devices, o with
  | None, _ => true
  | Some ds, Some o => bool_decide (o ∈ ds)
  | Some _, None => false
  end.

(** [f], lines 478-488.  It returns the triple
    [(messages before, message, messages after)]. *)
Definition f (msg : Msg) (w : world)
  : (exn + (list Msg * Msg * list Msg)) * world :=
  if String.eqb (command msg) "set" && selected (obj msg) then
    match obj msg with
    | None =>
        (inl (AttributeError "'NoneType' object has no attribute 'position'"), w)
    | Some o =>
        let '(initial, w) :=
          match initial_positions w !! o with
          | Some initial => (initial, w)
          | None =>
              let pos := position w o in
              let w := set_position_reads (position_reads w ++ [o]) w in
              (pos, set_initial_positions (<[o := pos]> (initial_positions w)) w)
          end in
        match args msg with
        | [VInt rel_pos] =>
            let abs_pos := (initial + rel_pos)%Z in
            let '(new_msg, w) :=
              new_Msg (command msg) (obj msg) [VInt abs_pos] (kwargs msg) w in
            (inr ([], new_msg, []), w)
        | [_] => (inl (TypeError "unsupported operand type(s) for +"), w)
        | _ => (inl (ValueError "wrong number of values to unpack"), w)
        end
    end
  else (inr ([], msg, []), w).

(** Modelled from the spec: [simple_preprocessor], which [relative_set]
    calls and which is neither defined in plans.py nor imported by it.
    The spec describes the relative-coordinate rewrite as an in-place
    rewrite that inserts nothing: each message of the plan is handed to
    the function, the message it returns is yielded in its place
    (between the messages of the two lists it returns), and the response
    goes back to the plan. *)
Fixpoint simple_preprocessor
    (func : Msg → world → (exn + (list Msg * Msg * list Msg)) * world)
    (p : plan world) : plan world :=
  match p with
  | Return v => Return v
  | Raise e => Raise e
  | Yield msg k =>
      Get (fun w =>
        match func msg w with
        | (inl ex, w) => Put w (Raise ex)
        | (inr (before, new_msg, after), w) =>
            Put w
              (yield_from_list before
                 (Yield new_msg (fun r =>
                    match r with
                    | Send _ => yield_from_list after (simple_preprocessor func (k r))
                    | Throw e => Raise e
                    end)))
        end)
  | Get k => Get (fun w => simple_preprocessor func (k w))
  | Put w k => Put w (simple_preprocessor func k)
  end.

(** [relative_set(plan, devices)], lines 466-492. *)
Definition relative_set (plan : gen world) : delegating world (gen world) :=
  DFresh (fun w =>
    let w := set_initial_positions ∅ w in
    (Fresh (simple_preprocessor f (body_of plan)), w)).
End RelativeSet.

(** * Notions used in the statements *)

(** ** Runs of the engine *)

(** The state of the loop once the top frame has been resumed: the pending
    result is popped and the new state of the frame stored. *)
Definition resumed {F : Type} (top : nat) (g' : F) (l : locals F) : locals F :=
  set_gens (<[top := g']> (gens l)) (set_result_stack (tail (result_stack l)) l).

(** Identities are handed out in increasing order: everything the deque and
    the two caches mention is older than [next_id]. *)
Definition wf {F : Type} (l : locals F) : Prop :=
  (∀ i : nat, i ∈ plan_stack l → i < next_id l) ∧
  (∀ i : nat, next_id l ≤ i →
     tail_cache l !! i = None ∧ tail_result_cache l !! i = None) ∧
  (∀ i t : nat, tail_cache l !! i = Some (Some t) → t < next_id l).

Definition locals_of {W F : Type} (s : step W F) : locals F :=
  match s with
  | Continue l _ | Suspend _ l _ | Return_ _ l _ | Raise_ _ l _ => l
  end.

Definition is_Send (r : resume) : Prop := ∃ v, r = Send v.
Definition is_Yielded (o : outcome) : Prop := ∃ m, o = Yielded m.
Definition not_GeneratorExit (r : resume) : Prop := r ≠ Throw GeneratorExit.

(** What is pending in the [finally] clause of [finalize] once the main
    plan has ended with [o]. *)
Definition pending_of (o : outcome) : value + exn :=
  match o with
  | Returned v => inl v
  | Raised e => inr e
  | Yielded _ => inl VNone
  end.

(** What an engine makes of the outcome of its root: the completion value
    is replaced by [None]. *)
Definition star (o : outcome) : outcome :=
  match o with Returned _ => Returned VNone | _ => o end.

Section Runs.
Context {W F : Type} `{!Generator W F} `{!Interpreter}.
Variable msg_proc : Msg → W → proc_result F * W.




(** [reaches l w tr l' w']: from the top of the loop in state [l], the
    engine yields the messages of [tr] in this order, is answered with the
    values paired with them, and arrives at the top of the loop in state
    [l']. *)
Inductive reaches : locals F → W → list (Msg * value) → locals F → W → Prop :=
| reaches_here l w : reaches l w [] l w
| reaches_continue n l w l1 w1 tr l2 w2 :
    iteration msg_proc n l w = Some (Continue l1 w1) →
    reaches l1 w1 tr l2 w2 →
    reaches l w tr l2 w2
| reaches_respond n l w msg l1 w1 v tr l2 w2 :
    iteration msg_proc n l w = Some (Suspend msg l1 w1) →
    reaches (set_result_stack (v :: result_stack l1) l1) w1 tr l2 w2 →
    reaches l w ((msg, v) :: tr) l2 w2.
End Runs.

(** ** Rewrites that show every message through *)

(** A generator that has returned or raised is finished: an exception thrown
    into it comes straight back. *)
Class Lawful (W G : Type) `{!Generator W G} : Prop :=
  finished_throw :
    ∀ n (g : G) r (w : W) o g' w',
      resume_gen n g r w = Some (o, g', w') →
      (∀ m, o ≠ Yielded m) →
      ∀ n' e w'', ∃ g'', resume_gen n' g' (Throw e) w'' = Some (Raised e, g'', w'').

Section Transparency.
Context {W F A : Type} `{!Generator W F}.
Variable msg_proc : Msg → W → proc_result F * W.

Definition ends_on_send (p : F) : Prop :=
  ∀ n v (w : W), ∃ r p', resume_gen n p (Send v) w = Some (Returned r, p', w).

Definition ends_at_once (p : F) : Prop :=
  ∀ n (w : W), ∃ r p', resume_gen n p (Send VNone) w = Some (Returned r, p', w).

(** [p] yields [msg] itself and ends with the response. *)
Definition reyields (msg : Msg) (p : F) : Prop :=
  ∀ n (w : W), ∃ p1, resume_gen n p (Send VNone) w = Some (Yielded msg, p1, w)
                     ∧ ends_on_send p1.

(** The rewrite declines, or replaces a message by a plan that yields the
    message itself, with a tail that yields nothing. *)
Definition transparent : Prop :=
  ∀ msg w,
    msg_proc msg w = (ProcPair None None, w) ∨
    ∃ p t, msg_proc msg w = (ProcPair (Some p) t, w) ∧ reyields msg p ∧
           match t with None => True | Some t => ends_at_once t end.

(** The plan underneath, [a], resumed with a value ([spec]), and the
    generator object [g] that stands for it in the deque ([rep a g]). *)
Variable spec : A → value → W → outcome * A * W.
Variable rep : A → F → Prop.
Variable N : nat.

Definition simulates : Prop :=
  ∀ a g v w k, rep a g → N ≤ k →
    ∃ o_r g', resume_gen k g (Send v) w = Some (o_r, g', (spec a v w).2)
              ∧ star o_r = star (spec a v w).1.1
              ∧ (∀ m, o_r = Yielded m → rep (spec a v w).1.2 g').

(** The engine is paused with the root alone in the deque. *)
Inductive at_rest (a : A) : locals F → Prop :=
| at_rest_intro gs nx seen g :
    rep a g → gs !! plan_id = Some g → 0 < nx →
    at_rest a (mkLocals gs nx seen [plan_id] [] ∅ ∅).

(** The engine is paused inside the replacement of a message. *)
Inductive in_splice (a : A) : locals F → Prop :=
| in_splice_intro gs nx seen g nid p1 t :
    rep a g → gs !! plan_id = Some g →
    gs !! nid = Some p1 → ends_on_send p1 →
    0 < nid < nx →
    match t with
    | None => True
    | Some tid => nid < tid < nx ∧ ∃ tg, gs !! tid = Some tg ∧ ends_at_once tg
    end →
    in_splice a (mkLocals gs nx seen [nid; plan_id] [] {[nid := t]} ∅).

Definition follows (a : A) (l : locals F) : Prop := at_rest a l ∨ in_splice a l.

(** The generator object of the engine that stands for [a]. *)
Definition tracks (a : A) (E : mutator W F) : Prop :=
  ∃ l, E = MSuspended l msg_proc ∧ follows a l.
End Transparency.

(** ** [fly_during] without flyers *)

Definition spec_gen {W : Type} (a : gen W) (v : value) (w : W) : outcome * gen W * W :=
  gen_resume a (Send v) w.

(** The root of an engine. *)
Definition underlying_mutator {W F : Type} (E : mutator W F) : option F :=
  match E with
  | MFresh p _ => Some p
  | MSuspended l _ => gens l !! plan_id
  | MFinished => None
  end.

(** The plan that [fly_during] wraps, inside its two engines. *)
Definition underlying
    (D : delegating world (mutator world (mutator world (gen world) + gen world)))
  : option (gen world) :=
  match D with
  | DRunning E2 =>
      match underlying_mutator E2 with
      | Some (inl E1) => underlying_mutator E1
      | _ => None
      end
  | _ => None
  end.

Section FlyDuringTracks.
Context `{!Interpreter}.

(** What stands for the plan in the deque of the outer engine, [plan2]:
    the inner engine [plan1], not yet started or paused at its [yield]. *)
Definition rep1 (a : gen world) (g : mutator world (gen world) + gen world) : Prop :=
  (∃ body, a = Fresh body ∧ g = inl (plan_mutator a (insert_after_open []))) ∨
  (∃ E1, g = inl E1 ∧ tracks (insert_after_open []) (λ a g, g = a) a E1).

Inductive fly_tracks (grp : string)
  : gen world →
    delegating world (mutator world (mutator world (gen world) + gen world)) → Prop :=
| fly_fresh body : fly_tracks grp (Fresh body) (fly_during (Fresh body) [] grp)
| fly_running a E2 :
    tracks (insert_before_close []) rep1 a E2 → fly_tracks grp a (DRunning E2).
End FlyDuringTracks.

(** ** [relative_set]: the calls of [f] *)

Section RelativeSetCalls.
Variable devices : option (list nat).

(** [msg] is a ['set'] message on device [o] that the rewrite applies to. *)
Definition is_set_on (o : nat) (msg : Msg) : bool :=
  String.eqb (command msg) "set" && selected devices (obj msg)
  && bool_decide (obj msg = Some o).

(** [f] called on a sequence of messages; with each message come the
    positions the devices have when it arrives. *)
Fixpoint feed (steps : list ((nat → Z) * Msg)) (w : world)
  : list (exn + (list Msg * Msg * list Msg)) * world :=
  match steps with
  | [] => ([], w)
  | (pos, msg) :: rest =>
      let '(r, w) := f devices msg (set_position pos w) in
      let '(rs, w) := feed rest w in
      (r :: rs, w)
  end.

(** The position device [o] has when the first ['set'] message on it
    arrives. *)
Fixpoint first_position (o : nat) (steps : list ((nat → Z) * Msg)) : option Z :=
  match steps with
  | [] => None
  | (pos, msg) :: rest =>
      if is_set_on o msg then Some (pos o) else first_position o rest
  end.

(** The position held for [o] once [steps] are processed, given the cache
    [ip] before. *)
Definition cached (ip : gmap nat Z) (o : nat) (steps : list ((nat → Z) * Msg))
  : option Z :=
  match ip !! o with
  | Some p => Some p
  | None => first_position o steps
  end.

(** How often the position of [o] was read. *)
Definition reads_of (o : nat) (w : world) : nat :=
  length (filter (λ x, x = o) (position_reads w)).
End RelativeSetCalls.

(** ** Inputs of the examples *)

(** An interpreter without PEP 479. *)
Definition legacy : Interpreter := false.

(** A rewrite that declines every message. *)
Definition decline {W F : Type} (msg : Msg) (w : W) : proc_result F * W :=
  (ProcPair None None, w).


Definition w0 : world := mkWorld 100 ∅ ∅ (fun _ => 10%Z) [].

Definition checkpoint : Msg := mkMsg 1 "checkpoint" None [] [].
Definition open_run : Msg := mkMsg 2 "open_run" None [] [].
Definition close_run : Msg := mkMsg 3 "close_run" None [] [].
Definition collect1 : Msg := mkMsg 13 "collect" (Some 8) [] [].

(** A motor [M] (device 7, its own root) and the messages of the scenarios. *)
Definition M : nat := 7.
Definition read_M : Msg := mkMsg 4 "read" (Some M) [] [].
Definition set_M_5 : Msg := mkMsg 5 "set" (Some M) [VInt 5] [("block_group", VStr "g")].
Definition wait_g : Msg := mkMsg 6 "wait" None [VStr "g"] [].

(** [yield checkpoint; return 42], and the same plan paused at its
    [yield]. *)
Definition answer_plan : gen unit :=
  Fresh (yield_ checkpoint (fun _ => Return (VInt 42))).
Definition answer_plan_paused : gen unit :=
  Suspended (fun r => match r with Send _ => Return (VInt 42) | Throw e => Raise e end).

(** [yield Msg('read', M)]. *)
Definition one_read : gen world := single_gen read_M.

(** [yield set(M, 5, group=g); yield wait(g); yield read(M)]. *)
Definition relative_move : gen world :=
  Fresh (yield_ set_M_5 (fun _ => yield_ wait_g (fun _ =>
         yield_ read_M (fun _ => Return VNone)))).

(** [v = yield open_run; w = yield close_run; return (v, w)], and the same
    plan paused at its first [yield]. *)
Definition one_run : gen unit :=
  Fresh (yield_ open_run (fun v => yield_ close_run (fun v' =>
         Return (VTuple [v; v'])))).

(** The same plan for [fly_during]. *)
Definition one_run_body : plan world :=
  yield_ open_run (fun v => yield_ close_run (fun v' => Return (VTuple [v; v']))).

(** A root that records in the world every exception thrown into it and
    lets it through, before its first resumption and paused at its
    [yield]. *)
Definition watch (r : resume) : plan (list exn) :=
  match r with
  | Send v => Return v
  | Throw e => Get (fun log => Put (log ++ [e]) (Raise e))
  end.
Definition watched_root : gen (list exn) := Fresh (Yield checkpoint watch).
Definition watched_paused : gen (list exn) := Suspended watch.

(** An engine paused at the [yield] of the message of [watched_root], and
    one at the top of its loop with a replacement, about to raise, on top of
    the deque. *)
Definition paused_on_watched : locals (gen (list exn)) :=
  mkLocals {[plan_id := watched_paused]} 1 {[mid checkpoint]} [plan_id] [] ∅ ∅.
Definition about_to_raise : locals (gen (list exn)) :=
  mkLocals (<[1 := Fresh (Raise (UserError 0))]> {[plan_id := watched_paused]})
           2 {[mid checkpoint]} [1; plan_id] [VNone] {[1 := None]} ∅.

(** [try: yield checkpoint; except RuntimeError: raise ValueError]. *)
Definition converting_root : gen unit :=
  Fresh (Yield checkpoint (fun r =>
    match r with
    | Send v => Return v
    | Throw (RuntimeError _) => Raise (ValueError "converted")
    | Throw e => Raise e
    end)).

(** A rewrite that hands back a tail without a replacement. *)
Definition tail_only (msg : Msg) (w : unit) : proc_result (gen unit) * unit :=
  (ProcPair None (Some (single_gen collect1)), w).


(** [yield checkpoint; yield open_run; raise UserError]. *)
Definition failing_plan : gen unit :=
  Fresh (yield_ checkpoint (fun _ => yield_ open_run (fun _ => Raise (UserError 0)))).

(** [yield close_run]. *)
Definition cleanup_plan : gen unit := single_gen close_run.

(** Four messages, the motor at 10 when the first arrives and at 15 later. *)
Definition two_moves : list ((nat → Z) * Msg) :=
  [(fun _ => 10%Z, set_M_5); (fun _ => 15%Z, wait_g); (fun _ => 15%Z, read_M);
   (fun _ => 15%Z, mkMsg 7 "set" (Some M) [VInt 3] [])].

(** The plan [yield Msg('checkpoint')] three times over.  Every [yield]
    builds a new message; [id_of n] is the [id()] of the [n]-th of them.
    The first message is dead when the third is built, the variable [msg]
    of the engine and the caller holding the second by then, so that the
    third may be put at the address of the first. *)
Definition nth_checkpoint (id_of : nat → nat) (n : nat) : Msg :=
  mkMsg (id_of n) "checkpoint" None [] [].
Definition three_checkpoints (id_of : nat → nat) : gen (list Msg) :=
  Fresh (yield_ (nth_checkpoint id_of 0) (fun _ =>
         yield_ (nth_checkpoint id_of 1) (fun _ =>
         yield_ (nth_checkpoint id_of 2) (fun _ => Return VNone)))).

(** The third message at the address of the first, and every message at
    an address of its own. *)
Definition first_address_again (n : nat) : nat := match n with 1 => 21 | _ => 20 end.
Definition addresses_apart (n : nat) : nat := 20 + n.

(** A rewrite that declines every message and appends it to the world, the
    list of the messages the rewrite has been applied to. *)
Definition recording (msg : Msg) (log : list Msg)
  : proc_result (gen (list Msg)) * list Msg :=
  (ProcPair None None, log ++ [msg]).

(** * Further code: [msg_mutator], plan builders, global-state helpers *)

(** ** [msg_mutator] *)

(** What a call may end in instead of handing back a result:
    [StopIteration], or another exception. *)
Inductive raised : Type :=
| StopIteration
| Other (e : exn).

(** The generator object [msg_mutator(plan, msg_proc)]: created, paused at
    [ret = yield msg] (line 148), or finished.  [msg_proc] hands back a
    message or [None]. *)
Inductive msg_mutator_gen (W G : Type) : Type :=
| MsgFresh (plan : G) (msg_proc : Msg → W → (raised + option Msg) * W)
| MsgSuspended (plan : G) (msg_proc : Msg → W → (raised + option Msg) * W)
| MsgDone.
Arguments MsgFresh {W G} plan msg_proc.
Arguments MsgSuspended {W G} plan msg_proc.
Arguments MsgDone {W G}.

Section MsgMutator.
Context {W G : Type} `{!Generator W G}.
Variable msg_proc : Msg → W → (raised + option Msg) * W.

(** Line 151, [return plan.close()], reached by [break]. *)
Definition msg_mutator_return (fuel : nat) (plan : G) (w : W)
  : option (outcome * msg_mutator_gen W G * W) :=
  match close fuel plan w with
  | None => None
  | Some (inl _, _, w) => Some (Returned VNone, MsgDone, w)
  | Some (inr e, _, w) => Some (Raised e, MsgDone, w)
  end.

(** Lines 138-150: the [while True] loop from its top, [ret] being what is
    sent to the plan next.  Each iteration uses one unit of fuel. *)
Fixpoint msg_mutator_loop (fuel : nat) (plan : G) (ret : value) (w : W)
  : option (outcome * msg_mutator_gen W G * W) :=
  match fuel with
  | 0 => None
  | S n =>
      match resume_gen n plan (Send ret) w with
      | None => None
      | Some (Returned _, plan, w) => msg_mutator_return n plan w
      | Some (Raised e, _, w) => Some (Raised e, MsgDone, w)
      | Some (Yielded msg, plan, w) =>
          match msg_proc msg w with
          | (inl StopIteration, w) => msg_mutator_return n plan w
          | (inl (Other e), w) => Some (Raised e, MsgDone, w)
          | (inr None, w) => msg_mutator_loop n plan VNone w
          | (inr (Some msg), w) => Some (Yielded msg, MsgSuspended plan msg_proc, w)
          end
      end
  end.
End MsgMutator.

Section MsgMutatorObject.
Context {W G : Type} `{!Generator W G}.

(** An exception thrown in at the [yield] is not a [StopIteration]: it
    leaves the generator, and [plan] is not told. *)
Definition msg_mutator_resume (fuel : nat) (g : msg_mutator_gen W G) (r : resume) (w : W)
  : option (outcome * msg_mutator_gen W G * W) :=
  match g, r with
  | MsgFresh plan msg_proc, Send VNone => msg_mutator_loop msg_proc fuel plan VNone w
  | MsgFresh _ _, Send _ =>
      Some (Raised (TypeError "can't send non-None value to a just-started generator"),
            g, w)
  | MsgFresh _ _, Throw e => Some (Raised e, MsgDone, w)
  | MsgSuspended plan msg_proc, Send ret => msg_mutator_loop msg_proc fuel plan ret w
  | MsgSuspended _ _, Throw e => Some (Raised e, MsgDone, w)
  | MsgDone, Send _ => Some (Returned VNone, MsgDone, w)
  | MsgDone, Throw e => Some (Raised e, MsgDone, w)
  end.

#[export] Instance msg_mutator_Generator : Generator W (msg_mutator_gen W G) :=
  msg_mutator_resume.

Definition msg_mutator (plan : G) (msg_proc : Msg → W → (raised + option Msg) * W)
  : msg_mutator_gen W G := MsgFresh plan msg_proc.
End MsgMutatorObject.


(** ** Notions for the statements about [msg_mutator] *)

(** More fuel does not change what a resumption gives. *)
Class Monotone (W G : Type) `{!Generator W G} : Prop :=
  more_fuel :
    ∀ n k (g : G) r (w : W) x,
      resume_gen n g r w = Some x → n ≤ k → resume_gen k g r w = Some x.

(** A rewrite function without effects: [keep msg] is the message handed
    back, or [None]. *)
Definition pure_proc {W : Type} (keep : Msg → option Msg) (msg : Msg) (w : W)
  : (raised + option Msg) * W := (inr (keep msg), w).

(** What the caller of [msg_mutator] sees of the outcomes [tr] of the
    plan: the messages that are kept, rewritten, and the end of the plan
    with its completion value replaced by [None]. *)
Fixpoint kept_trace (keep : Msg → option Msg) (tr : list outcome) : list outcome :=
  match tr with
  | [] => []
  | Yielded m :: tr =>
      match keep m with
      | Some m' => Yielded m' :: kept_trace keep tr
      | None => kept_trace keep tr
      end
  | Returned _ :: tr => Returned VNone :: kept_trace keep tr
  | Raised e :: tr => Raised e :: kept_trace keep tr
  end.

(** The responses [rs] to the messages of [tr], without those to messages
    that are dropped. *)
Fixpoint kept_responses (keep : Msg → option Msg) (tr : list outcome) (rs : list value)
  : list value :=
  match tr, rs with
  | Yielded m :: tr, r :: rs =>
      match keep m with
      | Some _ => r :: kept_responses keep tr rs
      | None => kept_responses keep tr rs
      end
  | _, _ => []
  end.

(** In [rs] every message that is dropped is answered with [None]. *)
Fixpoint dropped_get_None (keep : Msg → option Msg) (tr : list outcome) (rs : list value)
  : Prop :=
  match tr, rs with
  | Yielded m :: tr, r :: rs =>
      (keep m = None → r = VNone) ∧ dropped_get_None keep tr rs
  | _, _ => True
  end.

(** ** Helpers of simple_scans.py *)

(** [_update_lists(out, inp)], simple_scans.py lines 148-157; the result
    is [out] after the call. *)
Definition _update_lists {A : Type} (out inp : gmap string (list A))
  : gmap string (list A) :=
  map_fold (λ k v out,
              match out !! k with
              | Some l => <[k := l ++ v]> out
              | None => <[k := v]> out
              end) out inp.

(** The part of the global state [gs] that [_set_acquire_time] reads. *)
Record global_state (T : Type) : Type := mkGs {
  COUNT_TIME : T;
  DETS : list nat }.
Arguments mkGs {T}.
Arguments COUNT_TIME {T}.
Arguments DETS {T}.

Section AcquireTime.
Context {T : Type}.
Variable gs : global_state T.

(** [_set_acquire_time(time)], lines 436-445.  [count_time] maps a
    detector to its attribute [count_time]; a detector without the
    attribute has no entry.  [stash] is the body of the loop; the result
    is [original_times] and the attributes after the call. *)
Definition stash (time : T) (acc : gmap nat T * gmap nat T) (det : nat)
  : gmap nat T * gmap nat T :=
  let '(original_times, count_time) := acc in
  match count_time !! det with
  | Some t => (<[det := t]> original_times, <[det := time]> count_time)
  | None => (original_times, count_time)
  end.

Definition _set_acquire_time (time : option T) (count_time : gmap nat T)
  : gmap nat T * gmap nat T :=
  let time := default (COUNT_TIME gs) time in
  foldl (stash time) (∅, count_time) (DETS gs).

(** [_unset_acquire_time(original_times)], lines 448-450. *)
Definition _unset_acquire_time (original_times count_time : gmap nat T)
  : gmap nat T :=
  map_fold (λ det time count_time, <[det := time]> count_time)
           count_time original_times.
End AcquireTime.

(** ** Plans that build their messages *)

(** What the plan builders of plans.py read and write outside their
    frames: the identity the next [Msg] object gets, the number of UUIDs
    drawn so far, the closure variable [devices_staged] of
    [lazily_stage], and the dict [last_pos] of [_nd_step_scan_core], which
    the steps of a scan share as [pos_cache]. *)
Record session : Type := mkSession {
  next_msg : nat;
  uuids_drawn : nat;
  devices_staged : list nat;
  pos_cache : gmap nat Z }.

Definition set_next_msg (x : nat) (s : session) : session :=
  mkSession x (uuids_drawn s) (devices_staged s) (pos_cache s).
Definition set_uuids_drawn (x : nat) (s : session) : session :=
  mkSession (next_msg s) x (devices_staged s) (pos_cache s).
Definition set_devices_staged (x : list nat) (s : session) : session :=
  mkSession (next_msg s) (uuids_drawn s) x (pos_cache s).
Definition set_pos_cache (x : gmap nat Z) (s : session) : session :=
  mkSession (next_msg s) (uuids_drawn s) (devices_staged s) x.

(** [Msg(command, obj, *args, **kwargs)]: a new object. *)
Definition session_Msg (command : string) (obj : option nat) (args : list value)
    (kwargs : list (string * value)) (s : session) : Msg * session :=
  (mkMsg (next_msg s) command obj args kwargs, set_next_msg (S (next_msg s)) s).

(** [ret = yield Msg(command, obj, *args, **kwargs)] with no [try] around
    it. *)
Definition yield_new (command : string) (obj : option nat) (args : list value)
    (kwargs : list (string * value)) (k : value → plan session) : plan session :=
  Get (fun s =>
    let '(m, s) := session_Msg command obj args kwargs s in
    Put s (yield_ m k)).

(** An exception class that has no constructor of its own in [exn] is one
    of the classes [UserError] numbers; [UnboundLocalError] derives from
    [Exception]. *)
Definition UnboundLocalError : exn := UserError 1.

Section Builders.
(** [str(uuid.uuid4())] for the UUIDs in the order they are drawn;
    [separate_devices] of [utils], which plans.py imports; whether a device
    has an attribute [trigger]. *)
Variable uuid4 : nat → string.
Variable separate_devices : list nat → list nat.
Variable has_trigger : nat → bool.

(** [_short_uid(label, truncate=6)], lines 20-22. *)
Definition _short_uid (label : string) (truncate : nat) (s : session)
  : string * session :=
  (label +:+ "-" +:+ String.substring 0 truncate (uuid4 (uuids_drawn s)),
   set_uuids_drawn (S (uuids_drawn s)) s).

(** [broadcast_msg(command, objs, *args, **kwargs)], lines 548-566.  The
    list [return_vals] is handed back as the sequence [VTuple]. *)
Fixpoint broadcast_body (command : string) (objs : list nat) (args : list value)
    (kwargs : list (string * value)) (return_vals : list value) : plan session :=
  match objs with
  | [] => Return (VTuple return_vals)
  | o :: rest =>
      yield_new command (Some o) args kwargs (fun ret =>
        broadcast_body command rest args kwargs (return_vals ++ [ret]))
  end.

Definition broadcast_msg (command : string) (objs : list nat) (args : list value)
    (kwargs : list (string * value)) : gen session :=
  Fresh (broadcast_body command objs args kwargs []).

(** [run_wrapper(plan, md)], lines 308-313: both messages are built when
    the body is entered. *)
Definition run_wrapper (plan : gen session) (md : option (list (string * value)))
  : gen session :=
  Fresh (
    let md := default [] md in
    Get (fun s =>
      let '(open, s) := session_Msg "open_run" None [] md s in
      let '(close, s) := session_Msg "close_run" None [] [] s in
      Put s (yield_from_gen (bschain [single_gen open; plan; single_gen close])
                            Return Raise))).

(** [trigger_and_read(devices)], lines 529-545. *)
Fixpoint trigger_loop (grp : string) (objs : list nat) (k : plan session)
  : plan session :=
  match objs with
  | [] => k
  | obj :: rest =>
      if has_trigger obj then
        yield_new "trigger" (Some obj) [] [("block_group", VStr grp)] (fun _ =>
          trigger_loop grp rest k)
      else trigger_loop grp rest k
  end.

Fixpoint read_loop (objs : list nat) (k : plan session) : plan session :=
  match objs with
  | [] => k
  | obj :: rest => yield_new "read" (Some obj) [] [] (fun _ => read_loop rest k)
  end.

Definition trigger_and_read (devices : list nat) : gen session :=
  Fresh (
    let devices := separate_devices devices in
    Get (fun s =>
      let '(grp, s) := _short_uid "trigger" 6 s in
      Put s (
        trigger_loop grp (separate_devices devices) (
          yield_new "wait" None [VStr grp] [] (fun _ =>
            read_loop devices (Return VNone)))))).

(** [_one_step(detectors, motor, step)], lines 661-672. *)
Definition _one_step (detectors : list nat) (motor : nat) (step : value)
  : gen session :=
  Fresh (
    Get (fun s =>
      let '(grp, s) := _short_uid "set" 6 s in
      Put s (
        yield_new "checkpoint" None [] [] (fun _ =>
        yield_new "set" (Some motor) [step] [("block_group", VStr grp)] (fun _ =>
        yield_new "wait" None [VStr grp] [] (fun _ =>
        yield_from_gen (trigger_and_read (detectors ++ [motor]))
                       (fun ret => Return ret) Raise)))))).

(** [_step_scan_core(detectors, motor, steps, per_step=per_step)], lines
    675-681.  The local [ret] is unbound until the first step is done. *)
Fixpoint step_scan_loop (per_step : list nat → nat → value → gen session)
    (detectors : list nat) (motor : nat) (steps : list value) (ret : option value)
  : plan session :=
  match steps with
  | [] =>
      match ret with
      | Some ret => Return ret
      | None => Raise UnboundLocalError
      end
  | step :: rest =>
      yield_from_gen (per_step detectors motor step)
        (fun ret => step_scan_loop per_step detectors motor rest (Some ret)) Raise
  end.

Definition _step_scan_core (detectors : list nat) (motor : nat) (steps : list value)
    (per_step : option (list nat → nat → value → gen session)) : gen session :=
  Fresh (
    let per_step := default _one_step per_step in
    step_scan_loop per_step detectors motor steps None).
(** [_one_nd_step(detectors, step, pos_cache)], lines 998-1024.  [step] is
    a dict from motors to positions, kept as the list of its items;
    positions are numbers.  [pos_cache] is a [defaultdict] whose default
    is [None]: a motor without an entry compares unequal to every
    position. *)
Fixpoint nd_move_loop (step : list (nat * Z)) (k : plan session) : plan session :=
  match step with
  | [] => k
  | (motor, pos) :: rest =>
      Get (fun s =>
        let '(grp, s) := _short_uid "set" 6 s in
        Put s (
          if bool_decide (pos_cache s !! motor = Some pos) then nd_move_loop rest k
          else
            yield_new "set" (Some motor) [VInt pos] [("block_group", VStr grp)] (fun _ =>
              Get (fun s =>
                Put (set_pos_cache (<[motor := pos]> (pos_cache s)) s)
                    (yield_new "wait" None [VStr grp] [] (fun _ =>
                       nd_move_loop rest k))))))
  end.

Definition _one_nd_step (detectors : list nat) (step : list (nat * Z)) : gen session :=
  Fresh (
    yield_new "checkpoint" None [] [] (fun _ =>
      nd_move_loop step (
        yield_from_gen (trigger_and_read (detectors ++ (fst <$> step)))
                       (fun ret => Return ret) Raise))).
End Builders.

(** ** Notions for the statements about plan builders *)

(** [n] more [Msg] objects have been built. *)
Definition built (n : nat) (s : session) : session :=
  set_next_msg (n + next_msg s) s.

(** The messages [ms] as objects built one after the other, the first with
    identity [n]. *)
Fixpoint stamped (n : nat) (ms : list Msg) : list Msg :=
  match ms with
  | [] => []
  | m :: ms => mkMsg n (command m) (obj m) (args m) (kwargs m) :: stamped (S n) ms
  end.

(** A message before it is built. *)
Definition draft (command : string) (obj : option nat) (args : list value)
    (kwargs : list (string * value)) : Msg := mkMsg 0 command obj args kwargs.

(** What the caller and the world see of a run: the outcomes and the world
    after it. *)
Definition observed {G W : Type} (r : option (list outcome * G * W))
  : option (list outcome * W) := (λ x, (x.1.1, x.2)) <$> r.

(** The outcomes [tr], and then what [r] goes on with. *)
Definition prepend {W : Type} (tr : list outcome) (r : option (list outcome * W))
  : option (list outcome * W) := (λ x, (tr ++ x.1, x.2)) <$> r.

(** The generators of [gs] run in turn, each started with [next] and
    driven until it returns: the responses, the outcomes and the completion
    values, one after the other. *)
Inductive in_turn {W : Type} (k : nat)
  : list (gen W) → W → list resume → list outcome → list value → W → Prop :=
| in_turn_nil w : in_turn k [] w [] [] [] w
| in_turn_cons g gs w script tr v w1 script' tr' vs w2 :
    observed (run k g (Send VNone :: script) w) = Some (tr ++ [Returned v], w1) →
    length tr = length script →
    Forall not_GeneratorExit script →
    in_turn k gs w1 script' tr' vs w2 →
    in_turn k (g :: gs) w (script ++ script') (tr ++ tr') (v :: vs) w2.

Section BuilderMessages.
Variable uuid4 : nat → string.
Variable separate_devices : list nat → list nat.
Variable has_trigger : nat → bool.

(** The messages of [trigger_and_read(devices)] when [u] UUIDs have been
    drawn before. *)
Definition trigger_and_read_msgs (devices : list nat) (u : nat) : list Msg :=
  let grp := "trigger" +:+ "-" +:+ String.substring 0 6 (uuid4 u) in
  let devices := separate_devices devices in
  ((λ o, draft "trigger" (Some o) [] [("block_group", VStr grp)])
     <$> List.filter has_trigger (separate_devices devices))
  ++ [draft "wait" None [VStr grp] []]
  ++ ((λ o, draft "read" (Some o) [] []) <$> devices).

(** The messages of [_one_step(detectors, motor, step)]. *)
Definition one_step_msgs (detectors : list nat) (motor : nat) (step : value) (u : nat)
  : list Msg :=
  let grp := "set" +:+ "-" +:+ String.substring 0 6 (uuid4 u) in
  [draft "checkpoint" None [] [];
   draft "set" (Some motor) [step] [("block_group", VStr grp)];
   draft "wait" None [VStr grp] []]
  ++ trigger_and_read_msgs (detectors ++ [motor]) (S u).

(** The messages of a scan over [steps] with the default [per_step]. *)
Fixpoint step_scan_msgs (detectors : list nat) (motor : nat) (steps : list value) (u : nat)
  : list Msg :=
  match steps with
  | [] => []
  | step :: rest =>
      one_step_msgs detectors motor step u
      ++ step_scan_msgs detectors motor rest (S (S u))
  end.
(** The ['set'] and ['wait'] messages of [_one_nd_step] for the motors of
    [step], [cache] being [pos_cache], and [pos_cache] after the step. *)
Fixpoint nd_moves (step : list (nat * Z)) (cache : gmap nat Z) (u : nat) : list Msg :=
  match step with
  | [] => []
  | (motor, pos) :: rest =>
      let grp := "set" +:+ "-" +:+ String.substring 0 6 (uuid4 u) in
      (if bool_decide (cache !! motor = Some pos) then []
       else [draft "set" (Some motor) [VInt pos] [("block_group", VStr grp)];
             draft "wait" None [VStr grp] []])
      ++ nd_moves rest (<[motor := pos]> cache) (S u)
  end.

Definition cache_after (step : list (nat * Z)) (cache : gmap nat Z) : gmap nat Z :=
  foldl (λ c mp, <[mp.1 := mp.2]> c) cache step.

(** The messages of [_one_nd_step(detectors, step, pos_cache)]. *)
Definition one_nd_step_msgs (detectors : list nat) (step : list (nat * Z))
    (cache : gmap nat Z) (u : nat) : list Msg :=
  [draft "checkpoint" None [] []]
  ++ nd_moves step cache u
  ++ trigger_and_read_msgs (detectors ++ (fst <$> step)) (length step + u).
End BuilderMessages.

(** [n] more UUIDs have been drawn. *)
Definition drawn (n : nat) (s : session) : session :=
  set_uuids_drawn (n + uuids_drawn s) s.

(** ** [lazily_stage] *)

Section LazilyStage.
(** The [root] attribute of a device, and the devices that the response
    to a ['stage'] message lists ([None] when the response cannot be
    iterated over). *)
Variable root_of : nat → nat.
Variable listed : value → option (list nat).
Context `{!Interpreter}.

Definition COMMANDS : list string := ["read"; "set"; "trigger"; "kickoff"].

(** [new_gen()] inside [inner], lines 398-408. *)
Definition stage_then (root : nat) (msg : Msg) : gen session :=
  Fresh (
    yield_new "stage" (Some root) [] [] (fun ret =>
      match (match ret with VNone => Some [root] | _ => listed ret end) with
      | None => Raise (TypeError "object is not iterable")
      | Some ret =>
          Get (fun s =>
            Put (set_devices_staged (devices_staged s ++ ret) s)
                (yield_ msg (fun _ => Return VNone)))
      end)).

(** [msg.obj not in devices_staged]; [None] is no device. *)
Definition not_staged (o : option nat) (s : session) : bool :=
  match o with
  | Some o => bool_decide (o ∉ devices_staged s)
  | None => true
  end.

(** [inner], lines 394-411. *)
Definition lazily_inner (msg : Msg) (s : session) : proc_result (gen session) * session :=
  if bool_decide (command msg ∈ COMMANDS) && not_staged (obj msg) s then
    match obj msg with
    | None =>
        (ProcRaise (AttributeError "'NoneType' object has no attribute 'root'"), s)
    | Some o => (ProcPair (Some (stage_then (root_of o) msg)) None, s)
    end
  else (ProcPair None None, s).

(** [lazily_stage(plan)], lines 377-413. *)
Definition lazily_stage (plan : gen session)
  : delegating session (mutator session (gen session)) :=
  DFresh (fun s =>
    (plan_mutator plan lazily_inner, set_devices_staged [] s)).
End LazilyStage.

(** ** [planify] and [count] *)

(** The generator object that a call of [planify(func)] makes ([wrapped],
    lines 36-39): not yet started, with the call of [func] still to
    be made, or inside the loop over [gen_stack].  [func] may raise, and
    may take more steps than its first argument allows. *)
Inductive wrapped_gen (W : Type) : Type :=
| WrFresh (func : nat → W → option ((raised + list (gen W)) * W))
| WrRunning (rest : gen W).
Arguments WrFresh {W} func.
Arguments WrRunning {W} rest.

Section Planify.
Context {W : Type} `{!Interpreter}.

(** [for g in gen_stack: yield from g]. *)
Fixpoint planify_loop (gen_stack : list (gen W)) : plan W :=
  match gen_stack with
  | [] => Return VNone
  | g :: rest => yield_from_gen g (fun _ => planify_loop rest) Raise
  end.

Definition wrapped_resume (fuel : nat) (g : wrapped_gen W) (r : resume) (w : W)
  : option (outcome * wrapped_gen W * W) :=
  match g, r with
  | WrFresh func, Send VNone =>
      match func fuel w with
      | None => None
      | Some (inl StopIteration, w) =>
          if pep479
          then Some (Raised (RuntimeError "generator raised StopIteration"),
                     WrRunning Finished, w)
          else Some (Returned VNone, WrRunning Finished, w)
      | Some (inl (Other e), w) => Some (Raised e, WrRunning Finished, w)
      | Some (inr gen_stack, w) =>
          let '(o, g, w) := gen_resume (Fresh (planify_loop gen_stack)) (Send VNone) w in
          Some (o, WrRunning g, w)
      end
  | WrFresh _, Send _ =>
      Some (Raised (TypeError "can't send non-None value to a just-started generator"),
            g, w)
  | WrFresh _, Throw e => Some (Raised e, WrRunning Finished, w)
  | WrRunning g, _ =>
      let '(o, g, w) := gen_resume g r w in Some (o, WrRunning g, w)
  end.

#[export] Instance wrapped_Generator : Generator W (wrapped_gen W) := wrapped_resume.

Definition planify (func : nat → W → option ((raised + list (gen W)) * W))
  : wrapped_gen W := WrFresh func.
End Planify.

(** A dict with string keys as the list of its items; [d[k] = v]. *)
Fixpoint dict_set (k : string) (v : value) (d : list (string * value))
  : list (string * value) :=
  match d with
  | [] => [(k, v)]
  | (k', v') :: d =>
      if String.eqb k' k then (k, v) :: d else (k', v') :: dict_set k v d
  end.

(** A dict as a value: the sequence of its items. *)
Definition VDict (d : list (string * value)) : value :=
  VTuple ((λ kv, VTuple [VStr kv.1; kv.2]) <$> d).

(** What the body of a [with] statement or of a loop that appends to
    [plan_stack] ends in: it raises or completes, having changed
    [plan_stack] and the session; [None] when it takes more steps than
    allowed. *)
Definition building : Type :=
  list (gen session) → session →
  option ((raised + unit) * list (gen session) * session).

Section Count.
Variable uuid4 : nat → string.
Variable separate_devices : list nat → list nat.
Variable has_trigger : nat → bool.
(** The attributes [root] and [name] of a device, and its [repr]. *)
Variable root_of : nat → nat.
Variable name_of : nat → string.
Variable repr_of : nat → string.
Context `{!Interpreter}.

(** [with stage_context(plan_stack, devices): body], lines 417-441.  The
    context manager has no [try]: when the body raises, the code after
    its [yield] does not run. *)
Definition stage_context (devices : list nat) (body : building) : building :=
  fun plan_stack s =>
    let devices := root_of <$> devices in
    let stage :=
      Fresh (yield_from_gen (broadcast_msg "stage" devices [] [])
                            (fun _ => Return VNone) Raise) in
    let unstage :=
      Fresh (yield_from_gen (broadcast_msg "unstage" (reverse devices) [] [])
                            (fun _ => Return VNone) Raise) in
    match body (plan_stack ++ [stage]) s with
    | Some (inr _, plan_stack, s) => Some (inr tt, plan_stack ++ [unstage], s)
    | r => r
    end.

(** [with run_context(plan_stack, md): body], lines 286-305. *)
Definition run_context (md : option (list (string * value))) (body : building)
  : building :=
  fun plan_stack s =>
    let md := default [] md in
    let '(m, s) := session_Msg "open_run" None [] md s in
    match body (plan_stack ++ [single_gen m]) s with
    | Some (inr _, plan_stack, s) =>
        let '(m, s) := session_Msg "close_run" None [] [] s in
        Some (inr tt, plan_stack ++ [single_gen m], s)
    | r => r
    end.

(** [with event_context(plan_stack, name): body], lines 317-331. *)
Definition event_context (name : string) (body : building) : building :=
  fun plan_stack s =>
    let '(m, s) := session_Msg "create" None [] [("name", VStr name)] s in
    match body (plan_stack ++ [single_gen m]) s with
    | Some (inr _, plan_stack, s) =>
        let '(m, s) := session_Msg "save" None [] [] s in
        Some (inr tt, plan_stack ++ [single_gen m], s)
    | r => r
    end.

(** [next(delay)]: [delay] is [itertools.repeat] of a scalar, or the
    iterator of what is left of an iterable. *)
Definition next_delay (delay : value + list value)
  : option (value * (value + list value)) :=
  match delay with
  | inl d => Some (d, delay)
  | inr [] => None
  | inr (d :: rest) => Some (d, inr rest)
  end.

(** The loop [for _ in counter] of [count], lines 651-657; [counter] is
    what is left of [range(num)], or [None] for [itertools.count()].
    Each iteration uses one unit of fuel. *)
Fixpoint count_loop (fuel : nat) (detectors : list nat) (counter : option nat)
    (delay : value + list value) : building :=
  fun plan_stack s =>
    match fuel with
    | 0 => None
    | S fuel =>
        match counter with
        | Some 0 => Some (inr tt, plan_stack, s)
        | _ =>
            let '(m, s) := session_Msg "checkpoint" None [] [] s in
            let plan_stack := plan_stack ++ [single_gen m] in
            match event_context "primary"
                    (fun plan_stack s =>
                       Some (inr tt,
                             plan_stack ++ [trigger_and_read uuid4 separate_devices
                                              has_trigger detectors], s))
                    plan_stack s with
            | Some (inr _, plan_stack, s) =>
                match next_delay delay with
                | None => Some (inl StopIteration, plan_stack, s)
                | Some (d, delay) =>
                    let '(plan_stack, s) :=
                      match d with
                      | VNone => (plan_stack, s)
                      | _ =>
                          let '(m, s) := session_Msg "sleep" None [d] [] s in
                          (plan_stack ++ [single_gen m], s)
                      end in
                    count_loop fuel detectors (pred <$> counter) delay plan_stack s
                end
            | r => r
            end
        end
    end.

(** Lines 632-635 of [count]: the metadata of the run. *)
Definition count_md (detectors : list nat) (num : option nat)
    (md : option (list (string * value))) : list (string * value) :=
  let md := default [] md in
  let md := dict_set "detectors" (VTuple (VStr ∘ name_of <$> detectors)) md in
  dict_set "plan_args"
    (VDict [("detectors", VTuple (VStr ∘ repr_of <$> detectors));
            ("num", match num with
                    | Some n => VInt (Z.of_nat n)
                    | None => VNone
                    end)])
    md.

(** [count(detectors, num, delay, md=md)], lines 611-658.  [delay] is a
    scalar ([inl]) or an iterable ([inr]). *)
Definition count (detectors : list nat) (num : option nat)
    (delay : value + list value) (md : option (list (string * value)))
  : wrapped_gen session :=
  planify (fun fuel s =>
    let md := count_md detectors num md in
    match stage_context detectors
            (run_context (Some md) (count_loop fuel detectors num delay)) [] s with
    | None => None
    | Some (inl e, _, s) => Some (inl e, s)
    | Some (inr _, plan_stack, s) => Some (inr plan_stack, s)
    end).

(** *** Notions for the statements about [count] *)

(** The messages of one pass through the loop of [count], of [n] passes,
    and of the whole plan, when [u] UUIDs have been drawn before. *)
Definition count_pass (detectors : list nat) (d : value) (u : nat) : list Msg :=
  [draft "checkpoint" None [] []; draft "create" None [] [("name", VStr "primary")]]
  ++ trigger_and_read_msgs uuid4 separate_devices has_trigger detectors u
  ++ [draft "save" None [] []]
  ++ match d with VNone => [] | _ => [draft "sleep" None [d] []] end.

Fixpoint count_passes (detectors : list nat) (d : value) (n u : nat) : list Msg :=
  match n with
  | 0 => []
  | S n => count_pass detectors d u ++ count_passes detectors d n (S u)
  end.

Definition count_msgs (detectors : list nat) (n : nat) (d : value)
    (md : option (list (string * value))) (u : nat) : list Msg :=
  ((λ o, draft "stage" (Some o) [] []) <$> (root_of <$> detectors))
  ++ [draft "open_run" None [] (count_md detectors (Some n) md)]
  ++ count_passes detectors d n u
  ++ [draft "close_run" None [] []]
  ++ ((λ o, draft "unstage" (Some o) [] []) <$> reverse (root_of <$> detectors)).

(** The generators that [n] passes through the loop append, [i] being the
    identity of the next [Msg]. *)
Fixpoint pass_gens (detectors : list nat) (d : value) (n i : nat)
  : list (gen session) :=
  match n with
  | 0 => []
  | S n =>
      [single_gen (mkMsg i "checkpoint" None [] []);
       single_gen (mkMsg (S i) "create" None [] [("name", VStr "primary")]);
       trigger_and_read uuid4 separate_devices has_trigger detectors;
       single_gen (mkMsg (S (S i)) "save" None [] [])]
      ++ match d with
         | VNone => pass_gens detectors d n (3 + i)
         | _ => single_gen (mkMsg (3 + i) "sleep" None [d] [])
                :: pass_gens detectors d n (4 + i)
         end
  end.
End Count.

(** A message without its identity. *)
Definition anonymous (o : outcome) : outcome :=
  match o with
  | Yielded m => Yielded (draft (command m) (obj m) (args m) (kwargs m))
  | _ => o
  end.

(** How many [Msg] objects one pass through the loop of [count] builds
    while the deque is made. *)
Definition built_per_pass (d : value) : nat :=
  match d with VNone => 3 | _ => 4 end.

(** The generator [g], started when [u] UUIDs have been drawn, yields the
    messages [msgs] whatever the responses are, returns, and has drawn
    [du] more UUIDs. *)
Definition emits (k : nat) (g : gen session) (u : nat) (msgs : list Msg) (du : nat)
  : Prop :=
  ∀ s vs, uuids_drawn s = u → length vs = length msgs →
    ∃ tr v s', observed (run k g (Send VNone :: (Send <$> vs)) s)
                 = Some (tr ++ [Returned v], s')
               ∧ anonymous <$> tr = Yielded <$> msgs
               ∧ uuids_drawn s' = du + u.

Inductive emit_in_turn (k : nat)
  : list (gen session) → nat → list Msg → nat → Prop :=
| emit_nil u : emit_in_turn k [] u [] u
| emit_cons g gs u msgs du msgs' u' :
    emits k g u msgs du →
    emit_in_turn k gs (du + u) msgs' u' →
    emit_in_turn k (g :: gs) u (msgs ++ msgs') u'.

(** ** [caching_repeater] *)

(** The generator object [caching_repeater(n, plan)], lines 593-608: not
    yet started, or inside [yield from (m for m in lst_plan)] with what is
    left of the current copy and the number of copies still to come. *)
Inductive caching_repeater_gen (G : Type) : Type :=
| CrFresh (n : nat) (plan : G)
| CrRunning (current lst_plan : list Msg) (copies : nat)
| CrDone.
Arguments CrFresh {G} n plan.
Arguments CrRunning {G} current lst_plan copies.
Arguments CrDone {G}.

Section CachingRepeater.
Context {W G : Type} `{!Generator W G}.

(** [list(plan)]: [next(plan)] until [StopIteration]; [acc] is the list
    so far.  Each message uses one unit of fuel. *)
Fixpoint list_plan (fuel : nat) (plan : G) (acc : list Msg) (w : W)
  : option ((exn + list Msg) * W) :=
  match fuel with
  | 0 => None
  | S n =>
      match resume_gen n plan (Send VNone) w with
      | None => None
      | Some (Yielded m, plan, w) => list_plan n plan (acc ++ [m]) w
      | Some (Returned _, _, w) => Some (inr acc, w)
      | Some (Raised e, _, w) => Some (inl e, w)
      end
  end.

(** The loop [for j in range(n)] from the point where the generator
    expression of the current copy is resumed. *)
Fixpoint next_cached (current lst_plan : list Msg) (copies : nat) (w : W) {struct copies}
  : outcome * caching_repeater_gen G * W :=
  match current with
  | m :: rest => (Yielded m, CrRunning rest lst_plan copies, w)
  | [] =>
      match copies with
      | 0 => (Returned VNone, CrDone, w)
      | S copies =>
          match lst_plan with
          | m :: rest => (Yielded m, CrRunning rest lst_plan copies, w)
          | [] => next_cached [] lst_plan copies w
          end
      end
  end.

(** A value sent in is dropped by the generator expression; an exception
    thrown in comes back out of it. *)
Definition caching_repeater_resume (fuel : nat) (g : caching_repeater_gen G)
    (r : resume) (w : W) : option (outcome * caching_repeater_gen G * W) :=
  match g, r with
  | CrFresh n plan, Send VNone =>
      match list_plan fuel plan [] w with
      | None => None
      | Some (inl e, w) => Some (Raised e, CrDone, w)
      | Some (inr lst_plan, w) => Some (next_cached [] lst_plan n w)
      end
  | CrFresh _ _, Send _ =>
      Some (Raised (TypeError "can't send non-None value to a just-started generator"),
            g, w)
  | CrFresh _ _, Throw e => Some (Raised e, CrDone, w)
  | CrRunning current lst_plan copies, Send _ =>
      Some (next_cached current lst_plan copies w)
  | CrRunning _ _ _, Throw e => Some (Raised e, CrDone, w)
  | CrDone, Send _ => Some (Returned VNone, CrDone, w)
  | CrDone, Throw e => Some (Raised e, CrDone, w)
  end.

#[export] Instance caching_repeater_Generator : Generator W (caching_repeater_gen G) :=
  caching_repeater_resume.

Definition caching_repeater (n : nat) (plan : G) : caching_repeater_gen G :=
  CrFresh n plan.
End CachingRepeater.

(** ** [configure_count_time] of spec_api.py *)

(** How the [try] block of [configure_count_time] was left: by the
    [StopIteration] of [plan.send], carrying the completion value of the
    plan, or by another exception. *)
Inductive leaving : Type :=
| ByStopIteration (v : value)
| ByException (e : exn).

(** The generator object [configure_count_time(plan, time)], lines
    348-374: not yet started; paused at the [yield] of the ['set'] message
    (line 364) with [msg] still to be yielded; paused at [ret = yield msg]
    (line 365); paused at the [yield] of the [finally] clause with the
    entries of [original_times] still to be restored; finished.
    [original_times] is a dict, kept as the list of its items in the
    order of insertion. *)
Inductive count_time_gen (G : Type) : Type :=
| CtFresh (plan : G) (time : value)
| CtAtSet (plan : G) (time : value) (msg : Msg) (devices_seen : gset nat)
          (original_times : list (nat * value))
| CtAtMsg (plan : G) (time : value) (devices_seen : gset nat)
          (original_times : list (nat * value))
| CtFinally (remaining : list (nat * value)) (pending : leaving)
| CtDone.
Arguments CtFresh {G} plan time.
Arguments CtAtSet {G} plan time msg devices_seen original_times.
Arguments CtAtMsg {G} plan time devices_seen original_times.
Arguments CtFinally {G} remaining pending.
Arguments CtDone {G}.

(** [d[k] = v] for a dict kept as the list of its items. *)
Fixpoint items_set (k : nat) (v : value) (d : list (nat * value)) : list (nat * value) :=
  match d with
  | [] => [(k, v)]
  | (k', v') :: d =>
      if bool_decide (k' = k) then (k, v) :: d else (k', v') :: items_set k v d
  end.

(** The attribute [count_time] of a device, if it has one, and what
    [get()] of such an attribute returns. *)
Class CountTimes : Type := {
  count_time_of : nat → option nat;
  get : nat → session → value }.

Section ConfigureCountTime.
Context {G : Type} `{!Generator session G} `{!Interpreter} `{!CountTimes}.

(** Lines 370-372, the [finally] clause from the top of its loop. *)
Definition restore (remaining : list (nat * value)) (pending : leaving) (s : session)
  : outcome * count_time_gen G * session :=
  match remaining with
  | (obj, time) :: rest =>
      match count_time_of obj with
      | Some signal =>
          let '(m, s) := session_Msg "set" (Some signal) [time] [] s in
          (Yielded m, CtFinally rest pending, s)
      | None =>
          (Raised (AttributeError "object has no attribute 'count_time'"), CtDone, s)
      end
  | [] =>
      match pending with
      | ByStopIteration v =>
          if pep479
          then (Raised (RuntimeError "generator raised StopIteration"), CtDone, s)
          else (Returned v, CtDone, s)
      | ByException e => (Raised e, CtDone, s)
      end
  end.

(** Lines 358-365, the body of the [while True] loop up to its first
    [yield]. *)
Definition forward (fuel : nat) (plan : G) (time ret : value) (devices_seen : gset nat)
    (original_times : list (nat * value)) (s : session)
  : option (outcome * count_time_gen G * session) :=
  match resume_gen fuel plan (Send ret) s with
  | None => None
  | Some (Returned v, _, s) => Some (restore original_times (ByStopIteration v) s)
  | Some (Raised e, _, s) => Some (restore original_times (ByException e) s)
  | Some (Yielded msg, plan, s) =>
      match obj msg with
      | Some obj =>
          if bool_decide (obj ∉ devices_seen) then
            let devices_seen := {[obj]} ∪ devices_seen in
            match count_time_of obj with
            | Some signal =>
                let original_times := items_set obj (get signal s) original_times in
                let '(m, s) := session_Msg "set" (Some signal) [time] [] s in
                Some (Yielded m, CtAtSet plan time msg devices_seen original_times, s)
            | None => Some (Yielded msg, CtAtMsg plan time devices_seen original_times, s)
            end
          else Some (Yielded msg, CtAtMsg plan time devices_seen original_times, s)
      | None => Some (Yielded msg, CtAtMsg plan time devices_seen original_times, s)
      end
  end.

Definition count_time_resume (fuel : nat) (g : count_time_gen G) (r : resume)
    (s : session) : option (outcome * count_time_gen G * session) :=
  match g, r with
  | CtFresh plan time, Send VNone => forward fuel plan time VNone ∅ [] s
  | CtFresh _ _, Send _ =>
      Some (Raised (TypeError "can't send non-None value to a just-started generator"),
            g, s)
  | CtFresh _ _, Throw e => Some (Raised e, CtDone, s)
  | CtAtSet plan time msg devices_seen original_times, Send _ =>
      Some (Yielded msg, CtAtMsg plan time devices_seen original_times, s)
  | CtAtSet _ _ _ _ original_times, Throw e =>
      Some (restore original_times (ByException e) s)
  | CtAtMsg plan time devices_seen original_times, Send ret =>
      forward fuel plan time ret devices_seen original_times s
  | CtAtMsg _ _ _ original_times, Throw e =>
      Some (restore original_times (ByException e) s)
  | CtFinally remaining pending, Send _ => Some (restore remaining pending s)
  | CtFinally _ _, Throw e => Some (Raised e, CtDone, s)
  | CtDone, Send _ => Some (Returned VNone, CtDone, s)
  | CtDone, Throw e => Some (Raised e, CtDone, s)
  end.

#[export] Instance count_time_Generator : Generator session (count_time_gen G) :=
  count_time_resume.

Definition configure_count_time (plan : G) (time : value) : count_time_gen G :=
  CtFresh plan time.
End ConfigureCountTime.

(** *** Notions for the statements about [configure_count_time] *)

(** The messages of the [finally] clause for the entries [remaining]. *)
Definition restore_msgs `{!CountTimes} (remaining : list (nat * value)) : list Msg :=
  (λ ot, draft "set" (count_time_of ot.1) [ot.2] []) <$> remaining.

(** How the generator ends once the [finally] clause is done. *)
Definition ending `{!Interpreter} (pending : leaving) : outcome :=
  match pending with
  | ByStopIteration v =>
      if pep479
      then Raised (RuntimeError "generator raised StopIteration")
      else Returned v
  | ByException e => Raised e
  end.

(** ** Inputs of the further examples *)

(** A session in which 100 messages have been built and no UUID drawn. *)
Definition s0 : session := mkSession 100 0 [] ∅.

(** UUIDs, devices without redundant entries, and devices 8 and 9 with a
    [trigger]. *)
Definition uuid4_0 (n : nat) : string :=
  match n with
  | 0 => "1b9d6bcd-bbfd-4b2d-9b5d-ab8dfbbd4bed"
  | 1 => "9c5b94b1-35ad-49bb-b118-8e8fc24abf80"
  | _ => "6ec0bd7f-11c0-43da-975e-2a8ad9ebae0b"
  end.
Definition has_trigger_0 (o : nat) : bool := bool_decide (8 ≤ o).
Definition name_0 (o : nat) : string := if bool_decide (o = 7) then "motor" else "det".

(** A rewrite that drops ['open_run'] and keeps everything else. *)
Definition keep_0 (msg : Msg) : option Msg :=
  if String.eqb (command msg) "open_run" then None else Some msg.

(** Detectors 1, 2 and 3, detector 2 without [count_time]; and a list that
    names detector 2 twice. *)
Definition gs_0 : global_state Z := mkGs 1%Z [1; 2; 3].
Definition gs_1 : global_state Z := mkGs 1%Z ([1] ++ 2 :: [3] ++ 2 :: []).
Definition count_time_0 : gmap nat Z := {[1 := 5%Z; 3 := 7%Z]}.
Definition count_time_1 : gmap nat Z := {[2 := 5%Z]}.

(** Plans over a session: [yield read_M], and
    [yield checkpoint; raise UserError]. *)
Definition read_plan : gen session := single_gen read_M.
Definition broken_plan : gen session :=
  Fresh (yield_ checkpoint (fun _ => Raise (UserError 0))).

(** [per_step] for a scan: [v = yield checkpoint; return v]. *)
Definition echo_step (detectors : list nat) (motor : nat) (step : value) : gen session :=
  Fresh (yield_ checkpoint (fun v => Return v)).

(** A root plan paused at a [yield] that answers [UserError] with a
    further message, and an engine paused on it. *)
Definition recovering (r : resume) : plan unit :=
  match r with
  | Send v => Return v
  | Throw (UserError _) => yield_ close_run (fun _ => Return VNone)
  | Throw e => Raise e
  end.
Definition paused_on_recovering : locals (gen unit) :=
  mkLocals {[plan_id := Suspended recovering]} 1 {[mid checkpoint]} [plan_id] [] ∅ ∅.

(** A function for [planify] that returns two plans. *)
Definition two_plans (fuel : nat) (w : unit)
  : option ((raised + list (gen unit)) * unit) :=
  Some (inr [cleanup_plan; answer_plan], w).

(** Device 7 has the attribute [count_time], device 70, which reads 1. *)
Definition count_times_0 : CountTimes :=
  {| count_time_of := fun o => if bool_decide (o = 7) then Some 70 else None;
     get := fun _ _ => VInt 1 |}.
(** A plan over a session paused at its last [yield], and a session whose
    [pos_cache] has the motor at 3. *)
Definition paused_plan : gen session :=
  Suspended (fun r => match r with Send v => Return v | Throw e => Raise e end).
Definition s_cached : session := set_pos_cache {[7 := 3%Z]} s0.

(** * Facts *)

Ltac simpl_caches :=
  rewrite ?lookup_empty, ?lookup_insert_eq, ?lookup_singleton_eq,
    ?delete_insert_eq, ?delete_singleton_eq, ?delete_empty.

Ltac lookup_gens :=
  unfold plan_id in *; simpl;
  rewrite ?lookup_insert_ne by lia; first [apply lookup_insert_eq | done].

Ltac simpl_locals :=
  cbv beta iota delta
    [set_gens set_msgs_seen set_plan_stack set_result_stack set_tail_cache
     set_tail_result_cache resumed alloc alloc_opt gens next_id msgs_seen
     plan_stack result_stack tail_cache tail_result_cache tail].

(** ** Identities stay fresh *)


Section WF.
Context {W F : Type} `{!Generator W F} `{!Interpreter}.
Variable msg_proc : Msg → W → proc_result F * W.

Lemma wf_gens (l : locals F) gs : wf l → wf (set_gens gs l).
Proof. by destruct l. Qed.
Lemma wf_seen (l : locals F) x : wf l → wf (set_msgs_seen x l).
Proof. by destruct l. Qed.
Lemma wf_results (l : locals F) x : wf l → wf (set_result_stack x l).
Proof. by destruct l. Qed.
Lemma wf_resumed (l : locals F) top g : wf l → wf (resumed top g l).
Proof. by destruct l. Qed.

Lemma wf_except_Exception n l ex w s :
  wf l → except_Exception n l ex w = Some s → wf (locals_of s).
Proof.
  intros Hwf. unfold except_Exception.
  repeat case_match; intros; simplify_eq; simpl; by apply wf_gens.
Qed.

Lemma wf_on_exception n l ex w s :
  wf l → on_exception n l ex w = Some s → wf (locals_of s).
Proof.
  intros Hwf. unfold on_exception. case_match; [by apply wf_except_Exception|].
  by intros [= <-].
Qed.

Lemma wf_dispatch n l msg answer s :
  wf l → dispatch n l msg answer = Some s → wf (locals_of s).
Proof.
  intros Hwf. unfold dispatch.
  destruct answer as [[[new_gen|] [tail_gen|]| |ex] w];
    try (by apply wf_on_exception); try (by intros [= <-]).
  - intros [= <-]. destruct l as [gs nx seen ps rs tc trc].
    destruct Hwf as (H1 & H2 & H3). simpl in *. split_and!; simpl.
    + intros i [-> | Hi]%elem_of_cons; [lia|]. specialize (H1 i Hi). lia.
    + intros i Hi. rewrite lookup_insert_ne by lia. apply H2. lia.
    + intros i t [[<- [= <-]] | [_ Hi]]%lookup_insert_Some; [lia|].
      specialize (H3 i t Hi). lia.
  - intros [= <-]. destruct l as [gs nx seen ps rs tc trc].
    destruct Hwf as (H1 & H2 & H3). simpl in *. split_and!; simpl.
    + intros i [-> | Hi]%elem_of_cons; [lia|]. specialize (H1 i Hi). lia.
    + intros i Hi. rewrite lookup_insert_ne by lia. apply H2. lia.
    + intros i t [[<- [=]] | [_ Hi]]%lookup_insert_Some.
      specialize (H3 i t Hi). lia.
Qed.

Lemma wf_except_StopIteration n l ret w s :
  wf l → except_StopIteration n l ret w = Some s → wf (locals_of s).
Proof.
  intros Hwf. unfold except_StopIteration.
  destruct l as [gs nx seen ps rs tc trc]. destruct Hwf as (H1 & H2 & H3). simpl in *.
  destruct ps as [|fr frames]; [by intros [= <-]|]. simpl_locals.
  assert (Hfr : ∀ i, i ∈ frames → i < nx).
  { intros i Hi. apply H1. by right. }
  assert (Hd : ∀ i, nx ≤ i → delete fr tc !! i = None ∧ delete fr trc !! i = None).
  { intros i Hi. destruct (H2 i Hi) as [Ha Hb].
    split; apply lookup_delete_None; by right. }
  assert (Hd3 : ∀ i t, delete fr tc !! i = Some (Some t) → t < nx).
  { intros i t [_ Hi]%lookup_delete_Some. by eapply H3. }
  destruct (tc !! fr) as [[t|]|] eqn:Htc; simpl_locals.
  - assert (Ht : t < nx) by (by eapply H3).
    intros [= <-]. split_and!; simpl.
    + intros i [-> | Hi]%elem_of_cons; [done|by apply Hfr].
    + intros i Hi. destruct (Hd i Hi) as [Ha Hb]. split; [done|].
      rewrite lookup_insert_ne by lia. done.
    + done.
  - destruct frames as [|below frames];
      repeat case_match; intros; simplify_eq; simpl; split_and!; simpl; try done;
      try (intros i Hi; first [by apply elem_of_nil in Hi
                              | destruct (Hd i Hi); destruct (H2 i Hi); done]).
  - destruct frames as [|below frames];
      repeat case_match; intros; simplify_eq; simpl; split_and!; simpl; try done;
      try (intros i Hi; first [by apply elem_of_nil in Hi
                              | destruct (Hd i Hi); destruct (H2 i Hi); done]).
Qed.

(** Every iteration keeps the state well formed. *)
Lemma wf_iteration n l w s :
  wf l → iteration msg_proc n l w = Some s → wf (locals_of s).
Proof.
  intros Hwf. unfold iteration.
  destruct (result_stack l) as [|ret rs] eqn:Hrs; [by apply wf_on_exception|].
  destruct (plan_stack (set_result_stack rs l)) as [|top frames] eqn:Hps.
  { apply wf_on_exception. by apply wf_results. }
  destruct (gens (set_result_stack rs l) !! top) as [g|]; [|done].
  destruct (resume_gen n g (Send ret) w) as [[[o g'] w']|]; [|done].
  assert (Hwf' : wf (set_gens (<[top := g']> (gens (set_result_stack rs l)))
                               (set_result_stack rs l))).
  { by apply wf_gens, wf_results. }
  destruct o as [msg|v|ex].
  - case_match; [by intros [= <-]|].
    apply wf_dispatch. by apply wf_seen.
  - by apply wf_except_StopIteration.
  - by apply wf_on_exception.
Qed.
End WF.

Lemma wf_reaches {W F : Type} `{!Generator W F} `{!Interpreter}
    (msg_proc : Msg → W → proc_result F * W) l w tr l' w' :
  reaches msg_proc l w tr l' w' → wf l → wf l'.
Proof.
  induction 1 as [|n l w l1 w1 tr l2 w2 Hit _ IH|n l w msg l1 w1 v tr l2 w2 Hit _ IH];
    intros Hwf; [done| |].
  - apply IH. by apply (wf_iteration msg_proc n l w _ Hwf Hit).
  - apply IH, wf_results. by apply (wf_iteration msg_proc n l w _ Hwf Hit).
Qed.

(** ** One iteration of the engine *)

Section EngineFacts.
Context {W F : Type} `{!Generator W F} `{!Interpreter}.
Variable msg_proc : Msg → W → proc_result F * W.

(** An iteration resumes the top frame with the pending result and goes on
    according to what comes back. *)
Lemma iteration_resume n l w top frames ret rs g o g' w' :
  plan_stack l = top :: frames →
  result_stack l = ret :: rs →
  gens l !! top = Some g →
  resume_gen n g (Send ret) w = Some (o, g', w') →
  iteration msg_proc n l w =
    match o with
    | Returned _ => except_StopIteration n (resumed top g' l) ret w'
    | Raised ex => on_exception n (resumed top g' l) ex w'
    | Yielded msg =>
        if bool_decide (mid msg ∈ msgs_seen l)
        then Some (Suspend msg (resumed top g' l) w')
        else dispatch n (set_msgs_seen ({[mid msg]} ∪ msgs_seen l) (resumed top g' l))
               msg (msg_proc msg w')
    end.
Proof.
  intros Hs Hr Hg Hres. unfold iteration, resumed.
  rewrite Hr. simpl. rewrite Hs, Hg, Hres. reflexivity.
Qed.







End EngineFacts.

(** ** Splices *)




(** ** Messages seen before *)

(** A message that re-surfaces from a splice.  The frame on top yields
    [m], which the engine has not seen; the rewrite function replaces it by
    [new_gen], with or without a tail, and [new_gen], resumed for the first
    time, yields [m] itself.  The first iteration puts [new_gen] on the
    deque and goes to the top of the loop; the next one yields [m] to the
    caller whatever the rewrite function is: it is not applied to [m]
    again. *)
Lemma resurfacing_is_not_rewritten
    {W F : Type} `{!Generator W F} {I : Interpreter}
    (msg_proc : Msg → W → proc_result F * W)
    n (l : locals F) (w : W) owner frames ret rs g m g' w1 new_gen tail_gen w2
    new_gen' w3 :
  plan_stack l = owner :: frames →
  result_stack l = ret :: rs →
  gens l !! owner = Some g →
  resume_gen n g (Send ret) w = Some (Yielded m, g', w1) →
  mid m ∉ msgs_seen l →
  msg_proc m w1 = (ProcPair (Some new_gen) tail_gen, w2) →
  resume_gen n new_gen (Send VNone) w2 = Some (Yielded m, new_gen', w3) →
  ∃ l1 l2,
    iteration msg_proc n l w = Some (Continue l1 w2) ∧
    (∀ msg_proc', iteration msg_proc' n l1 w2 = Some (Suspend m l2 w3)) ∧
    msgs_seen l2 = {[mid m]} ∪ msgs_seen l ∧
    plan_stack l2 = next_id l :: owner :: frames.
Proof.
  intros Hps Hrs Hg Hres Hunseen Hproc Hnew.
  destruct l as [gs nx seen ps rs0 tc trc]. simpl in *. subst ps rs0.
  destruct tail_gen as [t|]; (eexists _, _; split_and!).
  - erewrite iteration_resume; [|done..]. simpl.
    rewrite bool_decide_eq_false_2 by done. rewrite Hproc. reflexivity.
  - intros msg_proc'.
    erewrite iteration_resume; [|reflexivity|reflexivity| |exact Hnew].
    + simpl. rewrite bool_decide_eq_true_2 by set_solver. reflexivity.
    + simpl. rewrite lookup_insert_ne by lia. apply lookup_insert_eq.
  - reflexivity.
  - reflexivity.
  - erewrite iteration_resume; [|done..]. simpl.
    rewrite bool_decide_eq_false_2 by done. rewrite Hproc. reflexivity.
  - intros msg_proc'.
    erewrite iteration_resume; [|reflexivity|reflexivity| |exact Hnew].
    + simpl. rewrite bool_decide_eq_true_2 by set_solver. reflexivity.
    + simpl. apply lookup_insert_eq.
  - reflexivity.
  - reflexivity.
Qed.

(** ** Faults *)

(** C8, amended.  When the rewrite function answers an unseen message with a
    tail and no replacement, the iteration that obtained the message raises
    [RuntimeError] at once: it ends as the clause [except Exception] ends
    for this error, which throws it into the root plan, and it yields
    neither the message nor a replacement.  When the root plan lets the
    error through, the resumption of the engine ends with it. *)
Theorem tail_without_replacement
    {W F : Type} `{!Generator W F} {I : Interpreter}
    (msg_proc : Msg → W → proc_result F * W)
    n (l : locals F) (w : W) top frames ret rs g m g' w1 t w2 :
  plan_stack l = top :: frames →
  result_stack l = ret :: rs →
  gens l !! top = Some g →
  resume_gen n g (Send ret) w = Some (Yielded m, g', w1) →
  mid m ∉ msgs_seen l →
  msg_proc m w1 = (ProcPair None (Some t), w2) →
  iteration msg_proc n l w =
    except_Exception n
      (set_msgs_seen ({[mid m]} ∪ msgs_seen l) (resumed top g' l))
      (RuntimeError "This makes no sense") w2 ∧
  ∀ p p' w3,
    gens (resumed top g' l) !! plan_id = Some p →
    resume_gen n p (Throw (RuntimeError "This makes no sense")) w2
      = Some (Raised (RuntimeError "This makes no sense"), p', w3) →
    loop msg_proc (S n) l w =
      Some (Raised (RuntimeError "This makes no sense"),
            set_gens (<[plan_id := p']> (gens (resumed top g' l)))
              (set_msgs_seen ({[mid m]} ∪ msgs_seen l) (resumed top g' l)),
            w3).
Proof.
  intros Hps Hrs Hg Hres Hunseen Hproc.
  assert (Hit : iteration msg_proc n l w =
    except_Exception n
      (set_msgs_seen ({[mid m]} ∪ msgs_seen l) (resumed top g' l))
      (RuntimeError "This makes no sense") w2).
  { erewrite iteration_resume; [|done..]. simpl.
    rewrite bool_decide_eq_false_2 by done. by rewrite Hproc. }
  split; [done|].
  intros p p' w3 Hp Hthrow. simpl. rewrite Hit.
  unfold except_Exception. simpl in *. by rewrite Hp, Hthrow.
Qed.

(** C4, amended.  A fault whose class derives from [Exception] is thrown
    into the root plan, and into no other frame: when the caller throws it
    at the [yield], and when the frame on top raises it on being resumed.
    What the root raises in answer (the fault itself, when the root has no
    handler for it) is what the engine raises to its caller; the state of
    the loop differs from the one before at the root (and at the frame that
    was resumed) only. *)
Theorem fault_goes_to_root
    {W F : Type} `{!Generator W F} {I : Interpreter}
    (msg_proc : Msg → W → proc_result F * W)
    n (l : locals F) (w : W) ex e' :
  is_Exception ex = true →
  (∀ p p' w',
     gens l !! plan_id = Some p →
     resume_gen n p (Throw ex) w = Some (Raised e', p', w') →
     on_exception n l ex w
       = Some (Raise_ e' (set_gens (<[plan_id := p']> (gens l)) l) w') ∧
     resume_gen n (MSuspended l msg_proc) (Throw ex) w
       = Some (Raised e', MFinished, w')) ∧
  (∀ top frames ret rs g g1 w1 p p' w',
     plan_stack l = top :: frames →
     result_stack l = ret :: rs →
     gens l !! top = Some g →
     resume_gen n g (Send ret) w = Some (Raised ex, g1, w1) →
     gens (resumed top g1 l) !! plan_id = Some p →
     resume_gen n p (Throw ex) w1 = Some (Raised e', p', w') →
     iteration msg_proc n l w
       = Some (Raise_ e'
                 (set_gens (<[plan_id := p']> (gens (resumed top g1 l)))
                           (resumed top g1 l)) w')).
Proof.
  intros Hex. split.
  - intros p p' w' Hp Hthrow.
    assert (Hon : on_exception n l ex w
                  = Some (Raise_ e' (set_gens (<[plan_id := p']> (gens l)) l) w')).
    { unfold on_exception, except_Exception. by rewrite Hex, Hp, Hthrow. }
    split; [done|].
    unfold resume_gen, mutator_Generator, mutator_resume. by rewrite Hon.
  - intros top frames ret rs g g1 w1 p p' w' Hps Hrs Hg Hres Hp Hthrow.
    erewrite iteration_resume; [|done..]. simpl.
    unfold on_exception, except_Exception. by rewrite Hex, Hp, Hthrow.
Qed.

(** ** Engines whose rewrite shows every message through *)

Lemma run_body_finished {W : Type} (p : plan W) w o g' w' :
  run_body p w = (o, g', w') → (∀ m, o ≠ Yielded m) → g' = Finished.
Proof.
  revert w. induction p as [v|e|m k IH|k IH|w0 k IH]; simpl; intros w Hrun Hny.
  - by inversion Hrun.
  - by inversion Hrun.
  - inversion Hrun; subst. by destruct (Hny m).
  - by eapply IH.
  - by eapply IH.
Qed.

Lemma gen_Lawful {W : Type} : Lawful W (gen W).
Proof.
  intros n g r w o g' w' Hres Hny n' e w''.
  unfold resume_gen, gen_Generator in *. injection Hres as Hres.
  exists Finished.
  assert (Hg : g' = Finished ∨ ∃ body, g' = Fresh body).
  { destruct g as [body|k|]; simpl in Hres.
    - destruct r as [[| | |]|]; try (inversion Hres; subst; eauto; fail).
      left. by eapply run_body_finished.
    - left. by eapply run_body_finished.
    - destruct r; inversion Hres; eauto. }
  by destruct Hg as [-> | (body & ->)].
Qed.

Lemma mutator_Lawful {W F : Type} `{!Generator W F} `{!Interpreter}
  : Lawful W (mutator W F).
Proof.
  intros n g r w o g' w' Hres Hny n' e w''.
  exists MFinished.
  assert (Hg : g' = MFinished ∨ ∃ p proc, g' = MFresh p proc).
  { unfold resume_gen, mutator_Generator, mutator_resume, settle in Hres.
    repeat case_match; simplify_eq; eauto; by destruct (Hny m). }
  by destruct Hg as [-> | (p & proc & ->)].
Qed.

Lemma sum_Lawful {W A B : Type} `{!Generator W A} `{!Generator W B}
  `{!Lawful W A} `{!Lawful W B} : Lawful W (A + B).
Proof.
  intros n g r w o g' w' Hres Hny n' e w''.
  unfold resume_gen, sum_Generator in Hres.
  destruct g as [a|b].
  - destruct (resume_gen n a r w) as [[[o1 a1] w1]|] eqn:Ha; [|done].
    inversion Hres; subst.
    destruct (finished_throw _ _ _ _ _ _ _ Ha Hny n' e w'') as (a2 & Ha2).
    exists (inl a2). unfold resume_gen at 1, sum_Generator. by rewrite Ha2.
  - destruct (resume_gen n b r w) as [[[o1 b1] w1]|] eqn:Hb; [|done].
    inversion Hres; subst.
    destruct (finished_throw _ _ _ _ _ _ _ Hb Hny n' e w'') as (b2 & Hb2).
    exists (inr b2). unfold resume_gen at 1, sum_Generator. by rewrite Hb2.
Qed.

#[export] Existing Instance gen_Lawful.
#[export] Existing Instance mutator_Lawful.
#[export] Existing Instance sum_Lawful.

Section Transparent.
Context {W F A : Type} `{!Generator W F} `{!Interpreter} `{!Lawful W F}.
Variable msg_proc : Msg → W → proc_result F * W.
Variable spec : A → value → W → outcome * A * W.
Variable rep : A → F → Prop.
Variable N : nat.
Hypothesis Htransparent : transparent msg_proc.
Hypothesis Hroot : simulates spec rep N.

(** With the root alone in the deque and [v] pending, the loop ends as the
    root does when resumed with [v], its completion value apart. *)
Lemma rest_loop a l v w k :
  at_rest rep a l → N + 2 ≤ k →
  ∃ l', loop msg_proc k (set_result_stack [v] l) w
          = Some (star (spec a v w).1.1, l', (spec a v w).2) ∧
        (∀ m, (spec a v w).1.1 = Yielded m → follows rep (spec a v w).1.2 l').
Proof.
  intros [gs nx seen g Hrep Hg Hnx] Hk.
  destruct k as [|[|k]]; [lia..|].
  destruct (Hroot a g v w (S k) Hrep ltac:(lia)) as (o_r & g' & Hres & Hstar & Hnext).
  destruct (spec a v w) as [[o a'] w']. simpl in *.
  simpl loop at 1.
  erewrite iteration_resume; [|done|done|done|exact Hres].
  rewrite <- Hstar.
  assert (Hy : ∀ m l', o_r = Yielded m → follows rep a' l' →
                       ∀ m0, o = Yielded m0 → follows rep a' l') by auto.
  destruct o_r as [m|r|e]; simpl_locals.
  - (* the root yields *)
    specialize (Hnext m eq_refl). specialize (Hy m).
    destruct (bool_decide (mid m ∈ seen)) eqn:Hseen.
    { eexists. split; [done|]. apply Hy; [done|]. left.
      econstructor; [done|lookup_gens|done]. }
    destruct (Htransparent m w') as [Hdecl | (p & t & Hspl & Hre & Ht)].
    { rewrite Hdecl. simpl. eexists. split; [done|]. apply Hy; [done|]. left.
      econstructor; [done|lookup_gens|done]. }
    rewrite Hspl. simpl. unfold plan_id in *.
    destruct (Hre k w') as (p1 & Hp & Hp1).
    destruct t as [t|]; simpl_locals.
    + erewrite iteration_resume; [|done|done| |exact Hp].
      2:{ simpl. rewrite lookup_insert_ne by lia. apply lookup_insert_eq. }
      simpl_locals. rewrite bool_decide_eq_true_2 by set_solver.
      eexists. split; [done|]. apply Hy; [done|]. right.
      apply (in_splice_intro rep _ _ (S (S nx)) _ g' nx p1 (Some (S nx))).
      * done.
      * lookup_gens.
      * lookup_gens.
      * done.
      * lia.
      * split; [lia|]. exists t. split; [|done]. lookup_gens.
    + erewrite iteration_resume; [|done|done| |exact Hp].
      2:{ simpl. apply lookup_insert_eq. }
      simpl_locals. rewrite bool_decide_eq_true_2 by set_solver.
      eexists. split; [done|]. apply Hy; [done|]. right.
      apply (in_splice_intro rep _ _ (S nx) _ g' nx p1 None).
      * done.
      * lookup_gens.
      * lookup_gens.
      * done.
      * lia.
      * done.
  - (* the root returns *)
    unfold except_StopIteration. simpl_locals. rewrite !lookup_empty. simpl.
    unfold close. rewrite lookup_insert_eq.
    destruct (finished_throw _ _ _ _ _ _ _ Hres ltac:(done)
                (S k) GeneratorExit w') as (g'' & ->).
    simpl. eexists. split; [done|]. intros m ->. by destruct r.
  - (* the root raises *)
    unfold on_exception, except_Exception. simpl_locals. rewrite lookup_insert_eq.
    destruct (finished_throw _ _ _ _ _ _ _ Hres ltac:(done)
                (S k) e w') as (g'' & Hthrow).
    destruct (is_Exception e); [rewrite Hthrow|]; eexists;
      (split; [done|intros m ->; done]).
Qed.

(** Paused inside a replacement, the loop first finds the replacement and
    its tail exhausted and hands [v] on to the root. *)
Lemma splice_loop a l v w k :
  in_splice rep a l → N + 4 ≤ k →
  ∃ l', loop msg_proc k (set_result_stack [v] l) w
          = Some (star (spec a v w).1.1, l', (spec a v w).2) ∧
        (∀ m, (spec a v w).1.1 = Yielded m → follows rep (spec a v w).1.2 l').
Proof.
  intros [gs nx seen g nid p1 t Hrep Hg Hp1 Hends Hnid Ht] Hk.
  destruct k as [|k]; [lia|].
  simpl loop at 1.
  destruct (Hends k v w) as (r & p2 & Hres).
  erewrite iteration_resume; [|done|done|done|exact Hres].
  unfold except_StopIteration. simpl_locals. simpl_caches. simpl.
  destruct t as [tid|]; simpl_locals.
  - destruct Ht as (Htid & tg & Htg & Htends).
    destruct k as [|k]; [lia|].
    simpl loop at 1.
    destruct (Htends k w) as (rt & tg' & Hrest).
    erewrite iteration_resume; [|done|done| |exact Hrest].
    2:{ simpl. rewrite lookup_insert_ne by lia. done. }
    unfold except_StopIteration. simpl_locals. simpl_caches. simpl.
    assert (Hr : at_rest rep a
              (mkLocals (<[tid := tg']> (<[nid := p2]> gs)) nx seen [plan_id] [] ∅ ∅)).
    { econstructor; [done| |lia]. unfold plan_id in *. by rewrite !lookup_insert_ne by lia. }
    exact (rest_loop _ _ v w k Hr ltac:(lia)).
  - assert (Hr : at_rest rep a (mkLocals (<[nid := p2]> gs) nx seen [plan_id] [] ∅ ∅)).
    { econstructor; [done| |lia]. unfold plan_id in *. by rewrite !lookup_insert_ne by lia. }
    exact (rest_loop _ _ v w k Hr ltac:(lia)).
Qed.

Lemma follows_loop a l v w k :
  follows rep a l → N + 4 ≤ k →
  ∃ l', loop msg_proc k (set_result_stack [v] l) w
          = Some (star (spec a v w).1.1, l', (spec a v w).2) ∧
        (∀ m, (spec a v w).1.1 = Yielded m → follows rep (spec a v w).1.2 l').
Proof.
  intros [Hrest | Hsplice] Hk.
  - eapply rest_loop; [done|lia].
  - eapply splice_loop; done.
Qed.

(** The paused engine, resumed with a value, answers as the plan underneath
    does, its completion value apart, and goes on standing for it. *)
Lemma tracks_resume a E v w k :
  tracks msg_proc rep a E → N + 4 ≤ k →
  ∃ E', resume_gen k E (Send v) w = Some (star (spec a v w).1.1, E', (spec a v w).2) ∧
        (∀ m, (spec a v w).1.1 = Yielded m → tracks msg_proc rep (spec a v w).1.2 E').
Proof.
  intros (l & -> & Hf) Hk.
  destruct (follows_loop a l v w k Hf Hk) as (l' & Hloop & Hnext).
  unfold resume_gen, mutator_Generator, mutator_resume.
  assert (Hl : set_result_stack (v :: result_stack l) l = set_result_stack [v] l).
  { by destruct Hf as [[] | []]. }
  rewrite Hl, Hloop. simpl.
  destruct (spec a v w) as [[o a'] w']. simpl in *.
  destruct o as [m|r|e]; simpl; eexists; (split; [done|]); try done.
  intros m0 Hm. exists l'. split; [done|]. by apply (Hnext m0).
Qed.

(** The same for the first resumption of the engine. *)
Lemma fresh_resume a g w k :
  rep a g → N + 4 ≤ k →
  ∃ E', resume_gen k (plan_mutator g msg_proc) (Send VNone) w
          = Some (star (spec a VNone w).1.1, E', (spec a VNone w).2) ∧
        (∀ m, (spec a VNone w).1.1 = Yielded m →
              tracks msg_proc rep (spec a VNone w).1.2 E').
Proof.
  intros Hrep Hk.
  assert (Hr : at_rest rep a (mkLocals {[plan_id := g]} 1 ∅ [plan_id] [] ∅ ∅)).
  { econstructor; [done| |lia]. apply lookup_singleton_eq. }
  destruct (rest_loop a _ VNone w k Hr ltac:(lia)) as (l' & Hloop & Hnext).
  unfold resume_gen, mutator_Generator, plan_mutator, mutator_resume.
  change (seed g)
    with (set_result_stack [VNone] (mkLocals {[plan_id := g]} 1 ∅ [plan_id] [] ∅ ∅)).
  rewrite Hloop. simpl.
  destruct (spec a VNone w) as [[o a'] w']. simpl in *.
  destruct o as [m|r|e]; simpl; eexists; (split; [done|]); try done.
  intros m0 Hm. exists l'. split; [done|]. by apply (Hnext m0).
Qed.
End Transparent.

Lemma run_cons {W G : Type} `{!Generator W G} k (g : G) r script (w : W) :
  run k g (r :: script) w =
    match resume_gen k g r w with
    | None => None
    | Some (Yielded m, g', w') =>
        match run k g' script w' with
        | None => None
        | Some (tr, g'', w'') => Some (Yielded m :: tr, g'', w'')
        end
    | Some (o, g', w') => Some ([o], g', w')
    end.
Proof. reflexivity. Qed.

Lemma run_gen_cons {W : Type} k (a : gen W) v script (w : W) :
  run k a (Send v :: script) w =
    match spec_gen a v w with
    | (Yielded m, a', w') =>
        match run k a' script w' with
        | None => None
        | Some (tr, a'', w'') => Some (Yielded m :: tr, a'', w'')
        end
    | (o, a', w') => Some ([o], a', w')
    end.
Proof. reflexivity. Qed.

(** A generator that answers each value as a plan does, the completion value
    apart, produces the trace of the plan. *)
Lemma run_tracks {W G : Type} `{!Generator W G} (R : gen W → G → Prop) (K : nat) :
  (∀ a D v w k, R a D → K ≤ k →
     ∃ D', resume_gen k D (Send v) w
             = Some (star (spec_gen a v w).1.1, D', (spec_gen a v w).2) ∧
           (∀ m, (spec_gen a v w).1.1 = Yielded m → R (spec_gen a v w).1.2 D')) →
  ∀ script, Forall is_Send script →
  ∀ a D w k, R a D → K ≤ k →
    ∃ tr a' w' D',
      run k a script w = Some (tr, a', w') ∧
      run k D script w = Some (star <$> tr, D', w') ∧
      (Forall is_Yielded tr → R a' D').
Proof.
  intros Hstep script.
  induction 1 as [|r script [v ->] Hscript IH]; intros a D w k HR Hk.
  - by exists [], a, w, D.
  - destruct (Hstep a D v w k HR Hk) as (D1 & Hres & Hnext).
    simpl. rewrite Hres.
    unfold spec_gen in *.
    destruct (gen_resume a (Send v) w) as [[o a1] w1]. simpl in *.
    destruct o as [m|r|e]; simpl.
    + destruct (IH a1 D1 w1 k (Hnext m eq_refl) Hk)
        as (tr & a' & w' & D' & -> & -> & Hfin).
      exists (Yielded m :: tr), a', w', D'. split; [done|]. split; [done|].
      intros Hall. apply Hfin. by inversion Hall.
    + exists [Returned r], a1, w1, D1. split; [done|]. split; [done|].
      intros Hall. inversion Hall as [|? ? [m Hm]]. done.
    + exists [Raised e], a1, w1, D1. split; [done|]. split; [done|].
      intros Hall. inversion Hall as [|? ? [m Hm]]. done.
Qed.

Lemma plan_simulates {W : Type} :
  simulates (F:=gen W) spec_gen (λ a g, g = a) 0.
Proof.
  intros a g v w k -> _. unfold spec_gen.
  destruct (gen_resume a (Send v) w) as [[o a'] w'] eqn:Hres.
  exists o, a'. simpl. unfold resume_gen, gen_Generator. rewrite Hres. done.
Qed.

Lemma single_gen_reyields {W : Type} (msg : Msg) : reyields (W:=W) msg (single_gen msg).
Proof.
  intros n w. eexists. split; [done|].
  intros n' v w'. by eexists _, _.
Qed.

(** ** [fly_during] without flyers *)

Section FlyDuringFacts.
Context `{!Interpreter}.

Lemma insert_after_open_transparent : transparent (insert_after_open []).
Proof.
  intros msg w. unfold insert_after_open.
  destruct (String.eqb (command msg) "open_run"); [right|by left].
  eexists _, _. split; [done|]. split; [apply single_gen_reyields|].
  intros n w'. by eexists _, _.
Qed.

Lemma insert_before_close_transparent : transparent (insert_before_close []).
Proof.
  intros msg w. unfold insert_before_close.
  destruct (String.eqb (command msg) "close_run"); [right|by left].
  eexists _, _. split; [done|]. split; [|done].
  intros n w'. eexists. split; [done|].
  intros n' v w''. by eexists _, _.
Qed.

(** The inner engine stands for the plan in the deque of the outer one. *)
Lemma plan1_simulates : simulates spec_gen rep1 4.
Proof.
  intros a g v w k Hrep Hk.
  destruct Hrep as [(body & -> & ->) | (E1 & -> & Htr)].
  - assert (Hv : v = VNone ∨ v ≠ VNone) by (destruct v; eauto).
    destruct Hv as [-> | Hv].
    + destruct (fresh_resume (insert_after_open []) spec_gen (λ a g, g = a) 0
                  insert_after_open_transparent plan_simulates
                  (Fresh body) (Fresh body) w k eq_refl ltac:(lia))
        as (E' & Hres & Hnext).
      exists (star (spec_gen (Fresh body) VNone w).1.1), (inl E').
      unfold resume_gen at 1, sum_Generator. rewrite Hres.
      split; [done|]. split; [by destruct (spec_gen _ _ _).1.1|].
      intros m Hm. right. exists E'. split; [done|]. apply (Hnext m).
      by destruct (spec_gen _ _ _).1.1.
    + eexists _, _. split; [|split].
      * unfold resume_gen at 1, sum_Generator. unfold resume_gen, mutator_Generator.
        simpl. by destruct v.
      * simpl. by destruct v.
      * intros m Hm. by destruct v.
  - destruct (tracks_resume (insert_after_open []) spec_gen (λ a g, g = a) 0
                insert_after_open_transparent plan_simulates
                a E1 v w k Htr ltac:(lia))
      as (E' & Hres & Hnext).
    exists (star (spec_gen a v w).1.1), (inl E').
    unfold resume_gen at 1, sum_Generator. rewrite Hres.
    split; [done|]. split; [by destruct (spec_gen _ _ _).1.1|].
    intros m Hm. right. exists E'. split; [done|]. apply (Hnext m).
    by destruct (spec_gen _ _ _).1.1.
Qed.

Lemma fly_step grp a D v w k :
  fly_tracks grp a D → 8 ≤ k →
  ∃ D', resume_gen k D (Send v) w
          = Some (star (spec_gen a v w).1.1, D', (spec_gen a v w).2) ∧
        (∀ m, (spec_gen a v w).1.1 = Yielded m →
              fly_tracks grp (spec_gen a v w).1.2 D' ∧ ∃ E2, D' = DRunning E2).
Proof.
  intros [body | a0 E2 Htr] Hk.
  - assert (Hv : v = VNone ∨ v ≠ VNone) by (destruct v; eauto).
    destruct Hv as [-> | Hv].
    + destruct (fresh_resume (insert_before_close []) spec_gen rep1 4
                  insert_before_close_transparent plan1_simulates
                  (Fresh body) (inl (plan_mutator (Fresh body) (insert_after_open [])))
                  w k ltac:(left; eauto) ltac:(lia))
        as (E' & Hres & Hnext).
      destruct (spec_gen (Fresh body) VNone w) as [[o a'] w'] eqn:Hspec.
      unfold resume_gen at 1, delegating_Generator, fly_during, delegating_resume.
      simpl. unfold delegating_step, yield_from. simpl in Hres. rewrite Hres.
      destruct o as [m|r|e]; simpl; eexists; (split; [done|]); try done.
      intros m0 Hm. split; [|by eexists]. constructor. by apply (Hnext m0).
    + eexists. split; [|by destruct v].
      unfold resume_gen, delegating_Generator, fly_during, delegating_resume.
      by destruct v.
  - destruct (tracks_resume (insert_before_close []) spec_gen rep1 4
                insert_before_close_transparent plan1_simulates
                a0 E2 v w k Htr ltac:(lia))
      as (E' & Hres & Hnext).
    destruct (spec_gen a0 v w) as [[o a'] w'] eqn:Hspec.
    unfold resume_gen at 1, delegating_Generator, delegating_resume.
    unfold delegating_step, yield_from. simpl in Hres. rewrite Hres.
    destruct o as [m|r|e]; simpl; eexists; (split; [done|]); try done.
    intros m0 Hm. split; [|by eexists]. constructor. by apply (Hnext m0).
Qed.

Lemma fly_tracks_underlying grp a D :
  fly_tracks grp a D → (∃ E2, D = DRunning E2) → underlying D = Some a.
Proof.
  intros [body | a0 E2 (l2 & -> & Hf)] [E2' HD]; [done|].
  simpl.
  assert (Hroot : ∃ g, gens l2 !! plan_id = Some g ∧ rep1 a0 g).
  { destruct Hf as [[] | []]; eauto. }
  destruct Hroot as (g & -> & [(body & -> & ->) | (E1 & -> & (l1 & -> & Hf1))]); [done|].
  simpl. destruct Hf1 as [[] | []]; by subst.
Qed.
End FlyDuringFacts.

(** C10.  [fly_during] with no flyers.  Driven by any script of responses,
    the wrapped plan produces the trace of the plan itself: the same
    messages, the same objects, in the same order, and the same fault if the
    plan ends in one (only a completion value is replaced by [None], as
    [star] says).  After every message the plan inside the two engines is
    in the state [a'] in which the same responses, sent to it directly,
    leave it: each response reaches it unchanged. *)
Theorem fly_during_no_flyers {I : Interpreter} body grp script (w : world) k :
  Forall is_Send script →
  8 ≤ k →
  ∃ tr a' w' D',
    run k (Fresh body) script w = Some (tr, a', w') ∧
    run k (fly_during (Fresh body) [] grp) script w = Some (star <$> tr, D', w') ∧
    (tr ≠ [] → Forall is_Yielded tr → underlying D' = Some a').
Proof.
  intros Hscript Hk.
  destruct script as [|r script].
  { by exists [], (Fresh body), w, (fly_during (Fresh body) [] grp). }
  apply Forall_cons in Hscript as [[v ->] Hscript].
  destruct (fly_step grp (Fresh body) _ v w k (fly_fresh grp body) Hk)
    as (D1 & Hres & Hnext).
  rewrite run_gen_cons, run_cons, Hres.
  destruct (spec_gen (Fresh body) v w) as [[o a1] w1]. cbn [fst snd star] in *.
  destruct o as [m|r|e]; cbn [star].
  - destruct (run_tracks (λ a D, fly_tracks grp a D ∧ ∃ E2, D = DRunning E2) 8)
      with (script := script) (a := a1) (D := D1) (w := w1) (k := k)
      as (tr & a' & w' & D' & -> & -> & Hfin); [|done|by apply (Hnext m)|done|].
    { intros a D v' w'' k' [HR _] Hk'. by apply fly_step. }
    exists (Yielded m :: tr), a', w', D'. split; [done|]. split; [done|].
    intros _ Hall. apply Forall_cons in Hall as [_ Hall].
    destruct (Hfin Hall) as [Htr Hrun]. by eapply fly_tracks_underlying.
  - exists [Returned r], a1, w1, D1. split; [done|]. split; [done|].
    intros _ Hall. apply Forall_cons in Hall as [[m Hm] _]. done.
  - exists [Raised e], a1, w1, D1. split; [done|]. split; [done|].
    intros _ Hall. apply Forall_cons in Hall as [[m Hm] _]. done.
Qed.

(** ** [finalize] *)

Section FinalizeFacts.
Context {W A B : Type} `{!Generator W A} `{!Generator W B}.

Lemma yield_from_resume {G : Type} `{!Generator W G} k (g : G) r (w : W) :
  not_GeneratorExit r → yield_from k g r w = resume_gen k g r w.
Proof. intros Hr. by destruct r as [v|[]]. Qed.

Lemma run_last_step {G : Type} `{!Generator W G} k (g : G) r (w : W) o g' w' :
  run k g [r] w = Some ([o], g', w') → resume_gen k g r w = Some (o, g', w').
Proof.
  rewrite run_cons. destruct (resume_gen k g r w) as [[[[m|v|e] g1] w1]|]; simpl; congruence.
Qed.

Lemma run_first_step {G : Type} `{!Generator W G} k (g : G) r r' script (w : W)
    o tr o' g' w' :
  run k g (r :: r' :: script) w = Some (o :: tr ++ [o'], g', w') →
  ∃ m g1 w1, o = Yielded m ∧ resume_gen k g r w = Some (Yielded m, g1, w1) ∧
             run k g1 (r' :: script) w1 = Some (tr ++ [o'], g', w').
Proof.
  rewrite run_cons.
  destruct (resume_gen k g r w) as [[[[m|v|e] g1] w1]|]; try done.
  - destruct (run k g1 (r' :: script) w1) as [[[tr1 g2] w2]|] eqn:Hrun; [|done].
    intros Heq. simplify_eq. by exists m, g1, w1.
  - intros [= _ Htr]. by destruct tr.
  - intros [= _ Htr]. by destruct tr.
Qed.

Lemma final_phase k script2 :
  ∀ (b : B) r (w1 : W) tr2 v b' w2 pending,
    not_GeneratorExit r →
    Forall not_GeneratorExit script2 →
    run k b (r :: script2) w1 = Some (tr2 ++ [Returned v], b', w2) →
    length tr2 = length script2 →
    run k (FinFinally (A:=A) b pending) (r :: script2) w1 =
      Some (tr2 ++ [match pending with inl ret => Returned ret | inr e => Raised e end],
            FinDone, w2).
Proof.
  induction script2 as [|r' script2 IH];
    intros b r w1 tr2 v b' w2 pending Hr Hscript Hrun Hlen.
  - destruct tr2; [|done]. simpl in Hrun. apply run_last_step in Hrun.
    rewrite run_cons. unfold resume_gen at 1, finalize_Generator. simpl.
    unfold finalize_finally. rewrite yield_from_resume, Hrun by done.
    by destruct pending.
  - destruct tr2 as [|o tr2]; [done|]. simpl in Hrun, Hlen.
    apply run_first_step in Hrun as (m & b1 & w1' & -> & Hres & Hrun).
    apply Forall_cons in Hscript as [Hr' Hscript].
    rewrite run_cons.
    change (resume_gen k (FinFinally (A:=A) b pending) r w1)
      with (finalize_finally (A:=A) k b pending r w1).
    unfold finalize_finally. rewrite yield_from_resume, Hres by done.
    cbv beta match.
    erewrite IH; [done|done|done|exact Hrun|lia].
Qed.

Lemma main_phase k script1 :
  ∀ (a : A) r (w : W) tr1 o a' w1 (final : B) rest T f' w',
    not_GeneratorExit r →
    Forall not_GeneratorExit script1 →
    run k a (r :: script1) w = Some (tr1 ++ [o], a', w1) →
    length tr1 = length script1 →
    ¬ is_Yielded o →
    run k (FinFinally (A:=A) final (pending_of o)) (Send VNone :: rest) w1 = Some (T, f', w') →
    run k (FinTry a final) (r :: script1 ++ rest) w = Some (tr1 ++ T, f', w').
Proof.
  induction script1 as [|r' script1 IH];
    intros a r w tr1 o a' w1 final rest T f' w' Hr Hscript Hrun Hlen Ho Hfin.
  - destruct tr1; [|done]. simpl in Hrun. apply run_last_step in Hrun.
    rewrite run_cons in Hfin. rewrite app_nil_l, run_cons.
    change (resume_gen k (FinTry a final) r w)
      with (finalize_try k a final r w).
    unfold finalize_try. rewrite yield_from_resume, Hrun by done.
    destruct o as [m|v|e]; [by destruct Ho; eexists|exact Hfin..].
  - destruct tr1 as [|o1 tr1]; [done|]. simpl in Hrun, Hlen.
    apply run_first_step in Hrun as (m & a1 & w1' & -> & Hres & Hrun).
    apply Forall_cons in Hscript as [Hr' Hscript].
    rewrite <- !app_comm_cons, run_cons.
    change (resume_gen k (FinTry a final) r w)
      with (finalize_try k a final r w).
    unfold finalize_try. rewrite yield_from_resume, Hres by done.
    cbv beta match.
    erewrite IH; [done|done|done|exact Hrun|lia|done|exact Hfin].
Qed.
End FinalizeFacts.

(** C5.  [finalize(plan, final_plan)], started with [next] and driven by a
    script in which the caller does not close the generator.  When the main
    plan, driven by [script1], yields the messages [tr1] and then ends with
    [o] (it raises a fault, or it returns), and the final plan, driven by
    [script2] in the world the main plan left, yields the messages [tr2]
    and returns, then [finalize] yields [tr1], then [tr2], every message of
    the final plan once, and only then ends with [o]: the fault of the main
    plan reaches the caller after the final plan, and when the main plan
    returns [finalize] returns its completion value. *)
Theorem finalize_runs_final_plan
    {W A B : Type} `{!Generator W A} `{!Generator W B}
    k (plan : A) (final_plan : B) script1 script2 (w : W) tr1 o a' w1 tr2 v b' w2 :
  Forall not_GeneratorExit (script1 ++ script2) →
  run k plan (Send VNone :: script1) w = Some (tr1 ++ [o], a', w1) →
  length tr1 = length script1 →
  ¬ is_Yielded o →
  run k final_plan (Send VNone :: script2) w1 = Some (tr2 ++ [Returned v], b', w2) →
  length tr2 = length script2 →
  run k (finalize plan final_plan) (Send VNone :: script1 ++ script2) w
    = Some (tr1 ++ tr2 ++ [o], FinDone, w2).
Proof.
  intros Hscript Hmain Hlen1 Ho Hfinal Hlen2.
  apply Forall_app in Hscript as [Hs1 Hs2].
  assert (Hfin := final_phase (A:=A) k script2 final_plan (Send VNone) w1 tr2 v b' w2
                    (pending_of o) ltac:(done) Hs2 Hfinal Hlen2).
  assert (Hrun := main_phase k script1 plan (Send VNone) w tr1 o a' w1 final_plan
                    script2 _ _ _ ltac:(done) Hs1 Hmain Hlen1 Ho Hfin).
  unfold finalize. rewrite run_cons. rewrite run_cons in Hrun.
  change (resume_gen k (FinTry plan final_plan) (Send VNone) w)
    with (finalize_try k plan final_plan (Send VNone) w) in Hrun.
  change (resume_gen k (FinFresh plan final_plan) (Send VNone) w)
    with (finalize_try k plan final_plan (Send VNone) w).
  rewrite Hrun. destruct o as [m|r|e]; [destruct Ho; by eexists|done..].
Qed.

(** ** [relative_set] *)

Section RelativeSetFacts.
Variable devices : option (list nat).

Lemma reads_of_snoc o x w :
  reads_of o (set_position_reads (position_reads w ++ [x]) w)
  = reads_of o w + (if bool_decide (x = o) then 1 else 0).
Proof.
  unfold reads_of. simpl. rewrite filter_app, length_app. f_equal.
  rewrite filter_cons, filter_nil. case_bool_decide; by case_decide.
Qed.

(** One call of [f]: what it leaves in the cache and in the log of reads. *)
Lemma f_world msg w r w' o :
  f devices msg w = (r, w') →
  initial_positions w' !! o
    = (if is_set_on devices o msg
       then Some (default (position w o) (initial_positions w !! o))
       else initial_positions w !! o) ∧
  reads_of o w'
    = reads_of o w +
      (if is_set_on devices o msg
       then match initial_positions w !! o with Some _ => 0 | None => 1 end
       else 0).
Proof.
  unfold f, is_set_on.
  destruct (String.eqb (command msg) "set"); simpl;
    [|intros [= <- <-]; split; [done|lia]].
  destruct (selected devices (obj msg)); simpl;
    [|intros [= <- <-]; split; [done|lia]].
  destruct (obj msg) as [o'|]; [|intros [= <- <-]; split; [by case_bool_decide|case_bool_decide; [done|lia]]].
  destruct (initial_positions w !! o') as [p|] eqn:Hp.
  - intros Hf.
    assert (Hw : initial_positions w' = initial_positions w ∧ position_reads w' = position_reads w).
    { repeat case_match; simplify_eq; done. }
    destruct Hw as [Hip Hrd]. unfold reads_of. rewrite Hip, Hrd.
    case_bool_decide; simplify_eq; [by rewrite Hp; split; [|lia]|split; [done|lia]].
  - intros Hf.
    assert (Hw : initial_positions w' = <[o' := position w o']> (initial_positions w)
                 ∧ reads_of o w' = reads_of o w + (if bool_decide (o' = o) then 1 else 0)).
    { rewrite <- reads_of_snoc. unfold reads_of. repeat case_match; simplify_eq; done. }
    destruct Hw as [Hip Hrd]. rewrite Hip, Hrd.
    case_bool_decide as Ho; simplify_eq.
    + rewrite bool_decide_eq_true_2 by done. rewrite lookup_insert_eq, Hp. done.
    + rewrite bool_decide_eq_false_2 by congruence.
      rewrite lookup_insert_ne by congruence. done.
Qed.

(** One call of [f] on a ['set'] message it applies to: the message it
    returns. *)
Lemma f_result msg w o rel :
  is_set_on devices o msg = true →
  args msg = [VInt rel] →
  ∃ new_msg w',
    f devices msg w = (inr ([], new_msg, []), w') ∧
    args new_msg
      = [VInt (default (position w o) (initial_positions w !! o) + rel)] ∧
    command new_msg = command msg ∧ obj new_msg = obj msg ∧
    kwargs new_msg = kwargs msg.
Proof.
  unfold is_set_on, f. intros Hset Hargs.
  apply andb_true_iff in Hset as [Hset Hobj].
  apply bool_decide_eq_true in Hobj.
  rewrite Hset, Hobj, Hargs.
  destruct (initial_positions w !! o) as [p|]; simpl; by eexists _, _.
Qed.

Lemma feed_cons pos msg rest w :
  feed devices ((pos, msg) :: rest) w =
    let '(r, w1) := f devices msg (set_position pos w) in
    let '(rs, w2) := feed devices rest w1 in
    (r :: rs, w2).
Proof. reflexivity. Qed.

Lemma cached_cons ip ip1 o pos msg rest :
  ip1 !! o = (if is_set_on devices o msg
              then Some (default (pos o) (ip !! o)) else ip !! o) →
  cached devices ip1 o rest = cached devices ip o ((pos, msg) :: rest).
Proof.
  unfold cached. simpl. intros ->.
  destruct (is_set_on devices o msg), (ip !! o); done.
Qed.

(** After a sequence of calls the cache holds, for each device, the position
    it had at its first ['set'] message, and that position was read once. *)
Lemma feed_world steps :
  ∀ w rs w' o,
    feed devices steps w = (rs, w') →
    initial_positions w' !! o = cached devices (initial_positions w) o steps ∧
    reads_of o w'
      = reads_of o w +
        match initial_positions w !! o, first_position devices o steps with
        | None, Some _ => 1
        | _, _ => 0
        end.
Proof.
  induction steps as [|[pos msg] rest IH]; intros w rs w' o.
  - intros [= <- <-]. unfold cached. simpl.
    split; [by destruct (initial_positions w !! o)|].
    destruct (initial_positions w !! o); lia.
  - rewrite feed_cons.
    destruct (f devices msg (set_position pos w)) as [r w1] eqn:Hf.
    destruct (feed devices rest w1) as [rs' w2] eqn:Hfeed.
    intros [= <- <-].
    destruct (f_world _ _ _ _ o Hf) as [Hip Hrd].
    destruct (IH _ _ _ o Hfeed) as [Hip' Hrd'].
    simpl in Hip, Hrd.
    split.
    + rewrite Hip'. by apply cached_cons.
    + rewrite Hrd', Hrd, Hip. unfold reads_of. simpl.
      destruct (is_set_on devices o msg), (initial_positions w !! o),
        (first_position devices o rest); simpl; lia.
Qed.

Lemma feed_results steps :
  ∀ w rs w' i pos msg o rel,
    feed devices steps w = (rs, w') →
    steps !! i = Some (pos, msg) →
    is_set_on devices o msg = true →
    args msg = [VInt rel] →
    ∃ initial new_msg,
      cached devices (initial_positions w) o steps = Some initial ∧
      rs !! i = Some (inr ([], new_msg, [])) ∧
      args new_msg = [VInt (initial + rel)] ∧
      command new_msg = command msg ∧ obj new_msg = obj msg ∧
      kwargs new_msg = kwargs msg.
Proof.
  induction steps as [|[pos0 msg0] rest IH]; intros w rs w' i pos msg o rel; [done|].
  rewrite feed_cons.
  destruct (f devices msg0 (set_position pos0 w)) as [r w1] eqn:Hf.
  destruct (feed devices rest w1) as [rs' w2] eqn:Hfeed.
  intros [= <- <-] Hi Hset Hargs.
  destruct i as [|i]; simpl in Hi.
  - injection Hi as -> ->.
    destruct (f_result msg (set_position pos w) o rel Hset Hargs)
      as (new_msg & w1' & Hf' & Hnew & Hrest).
    rewrite Hf in Hf'. injection Hf' as -> <-.
    exists (default (pos o) (initial_positions w !! o)), new_msg.
    split; [|done]. unfold cached. simpl. rewrite Hset.
    by destruct (initial_positions w !! o).
  - destruct (IH _ _ _ i pos msg o rel Hfeed Hi Hset Hargs)
      as (initial & new_msg & Hc & Hrs & Hrest).
    exists initial, new_msg. split; [|done].
    rewrite <- Hc. symmetry. apply cached_cons.
    by destruct (f_world _ _ _ _ o Hf) as [-> _].
Qed.
End RelativeSetFacts.

(** C7.  [relative_set]: the calls of its rewrite [f], from an empty cache,
    on any sequence of messages, each arriving with the devices at some
    positions.  The position of a device is read once if a ['set'] message
    on it that the rewrite applies to occurs, and never otherwise; every such
    message with the argument [rel] is replaced by a ['set'] message on the
    same device, with the same keyword arguments, whose argument is
    [initial + rel], [initial] being the position the device had when its
    first such message arrived.  And the scenario: the plan
    [set(M, 5, group=g); wait(g); read(M)], wrapped for [M] at position 10,
    yields a ['set'] message with argument 15. *)
Theorem relative_set_caches_position devices steps w rs w' :
  initial_positions w = ∅ →
  position_reads w = [] →
  feed devices steps w = (rs, w') →
  (∀ o, reads_of o w'
        = match first_position devices o steps with Some _ => 1 | None => 0 end) ∧
  (∀ i pos msg o rel,
     steps !! i = Some (pos, msg) →
     is_set_on devices o msg = true →
     args msg = [VInt rel] →
     ∃ initial new_msg,
       first_position devices o steps = Some initial ∧
       rs !! i = Some (inr ([], new_msg, [])) ∧
       args new_msg = [VInt (initial + rel)] ∧
       command new_msg = "set" ∧ obj new_msg = Some o ∧
       kwargs new_msg = kwargs msg) ∧
  (∀ I : Interpreter,
     (λ x, x.1.1) <$> run 1 (relative_set (Some [M]) relative_move)
                          [Send VNone; Send VNone; Send VNone; Send VNone] w0
     = Some [Yielded (mkMsg 100 "set" (Some M) [VInt 15] [("block_group", VStr "g")]);
             Yielded wait_g; Yielded read_M; Returned VNone]).
Proof.
  intros Hip Hrd Hfeed. split_and!.
  - intros o. destruct (feed_world devices steps w rs w' o Hfeed) as [_ ->].
    unfold reads_of at 1. rewrite Hrd, Hip, lookup_empty. simpl.
    by destruct (first_position devices o steps).
  - intros i pos msg o rel Hi Hset Hargs.
    destruct (feed_results devices steps w rs w' i pos msg o rel Hfeed Hi Hset Hargs)
      as (initial & new_msg & Hc & Hrs & Hnew & Hcmd & Hobj & Hkw).
    exists initial, new_msg. unfold cached in Hc. rewrite Hip, lookup_empty in Hc.
    unfold is_set_on in Hset. apply andb_true_iff in Hset as [Hset Ho].
    apply andb_true_iff in Hset as [Hcommand _].
    apply bool_decide_eq_true in Ho. apply String.eqb_eq in Hcommand.
    split_and!; congruence.
  - intros I. vm_compute. reflexivity.
Qed.

(** ** A rewrite that declines everything *)

Lemma decline_transparent {W F : Type} `{!Generator W F} :
  transparent (decline (W:=W) (F:=F)).
Proof. intros msg w. by left. Qed.

(** A rewrite that declines every message: the engine yields the messages
    of its root, the same objects in the same order, hands every response
    to the root, ends in the fault the root ends in, and completes when the
    root completes -- with [None], whatever the root returned. *)
Lemma decline_run {W : Type} {I : Interpreter} (body : plan W) script (w : W) k :
  Forall is_Send script →
  4 ≤ k →
  ∃ tr a' w' E',
    run k (Fresh body) script w = Some (tr, a', w') ∧
    run k (plan_mutator (Fresh body) decline) script w = Some (star <$> tr, E', w') ∧
    (Forall is_Yielded tr → underlying_mutator E' = Some a').
Proof.
  intros Hscript Hk.
  pose (R := λ (a : gen W) (E : mutator W (gen W)),
          (∃ b, a = Fresh b ∧ E = plan_mutator a decline) ∨
          tracks decline (λ a g, g = a) a E).
  destruct (run_tracks R 4) with (script := script) (a := Fresh body)
    (D := plan_mutator (Fresh body) (decline (W:=W))) (w := w) (k := k)
    as (tr & a' & w' & E' & Hrun & Hrun' & Hfin); [|done|left; eauto|done|].
  - intros a E v w1 k1 [(b & -> & ->) | Htr] Hk1.
    + assert (Hv : v = VNone ∨ v ≠ VNone) by (destruct v; eauto).
      destruct Hv as [-> | Hv].
      * destruct (fresh_resume decline spec_gen (λ a g, g = a) 0
                    decline_transparent plan_simulates
                    (Fresh b) (Fresh b) w1 k1 eq_refl ltac:(lia))
          as (E1 & Hres & Hnext).
        exists E1. split; [done|]. intros m Hm. right. by apply (Hnext m).
      * eexists. split; [|by destruct v].
        unfold resume_gen, mutator_Generator, plan_mutator, mutator_resume.
        by destruct v.
    + destruct (tracks_resume decline spec_gen (λ a g, g = a) 0
                  decline_transparent plan_simulates a E v w1 k1 Htr ltac:(lia))
        as (E1 & Hres & Hnext).
      exists E1. split; [done|]. intros m Hm. right. by apply (Hnext m).
  - exists tr, a', w', E'. split; [done|]. split; [done|].
    intros Hall. destruct (Hfin Hall) as [(b & -> & ->) | (l & -> & Hf)]; [done|].
    simpl. destruct Hf as [[] | []]; by subst.
Qed.

(** ** The engine at two plans *)

(** C2, at the plan [yield checkpoint; return 42] with a rewrite that
    declines every message: the plan run directly completes with 42; the
    engine yields the same message and then completes with [None], the value
    of [plan.close()] on the exhausted root. *)
Theorem plan_mutator_drops_completion_value (I : Interpreter) :
  (λ x, x.1.1) <$> run 2 answer_plan [Send VNone; Send VNone] tt
    = Some [Yielded checkpoint; Returned (VInt 42)] ∧
  (λ x, x.1.1) <$> run 2 (plan_mutator answer_plan decline)
                       [Send VNone; Send VNone] tt
    = Some [Yielded checkpoint; Returned VNone].
Proof. split; vm_compute; reflexivity. Qed.

(** C6, at the plan that yields the single message [Msg('read', M)], [M]
    being its own root: [stage_wrapper] yields no ['stage'] message and not
    the ['read'] message either.  The rewrite [inner] is applied to the
    ['stage'] message it has just built, finds its root in [seen_objs] and
    returns [None]; unpacking that raises [TypeError], which ends the engine;
    the caller receives ['unstage'] for [M] and then the [TypeError]. *)
Theorem stage_wrapper_stages_nothing (I : Interpreter) :
  (λ x, x.1.1) <$> run 3 (stage_wrapper id one_read) [Send VNone; Send VNone] w0
    = Some [Yielded (mkMsg 101 "unstage" (Some M) [] []);
            Raised (TypeError "'NoneType' object is not iterable")].
Proof. vm_compute. reflexivity. Qed.

(** C9, at the plan that yields three new ['checkpoint'] messages, with a
    rewrite that records the messages it is applied to.  The engine keeps
    of a message the number [id(msg)] and no reference to the object.  When
    the third message is given the [id()] of the first, which is dead by
    then, the engine takes it for seen: it yields it, and the rewrite has
    been applied to two of the three new messages.  With three different
    [id()] the rewrite is applied to all three. *)
Theorem reused_id_taken_for_seen (I : Interpreter) :
  (λ x, (x.1.1, x.2)) <$>
    run 2 (plan_mutator (three_checkpoints first_address_again) recording)
        [Send VNone; Send VNone; Send VNone; Send VNone] []
    = Some ([Yielded (nth_checkpoint first_address_again 0);
             Yielded (nth_checkpoint first_address_again 1);
             Yielded (nth_checkpoint first_address_again 2);
             Returned VNone],
            [nth_checkpoint first_address_again 0;
             nth_checkpoint first_address_again 1]) ∧
  (λ x, (x.1.1, x.2)) <$>
    run 2 (plan_mutator (three_checkpoints addresses_apart) recording)
        [Send VNone; Send VNone; Send VNone; Send VNone] []
    = Some ([Yielded (nth_checkpoint addresses_apart 0);
             Yielded (nth_checkpoint addresses_apart 1);
             Yielded (nth_checkpoint addresses_apart 2);
             Returned VNone],
            [nth_checkpoint addresses_apart 0;
             nth_checkpoint addresses_apart 1;
             nth_checkpoint addresses_apart 2]).
Proof. split; vm_compute; reflexivity. Qed.

(** ** Examples *)

Lemma unseen (i : nat) (X : gset nat) : bool_decide (i ∈ X) = false → i ∉ X.
Proof. apply bool_decide_eq_false_1. Qed.

#[local] Existing Instance legacy.

(** C4 as stated fails: the caller throws [KeyboardInterrupt] at the
    [yield] of the engine; the engine raises it to the caller and the root,
    which records what is thrown into it, has recorded nothing.  A
    [UserError] thrown at the same place is recorded by the root. *)
Lemma keyboard_interrupt_bypasses_root :
  (λ x, (x.1.1, x.2)) <$> run 2 (plan_mutator watched_root decline)
                             [Send VNone; Throw KeyboardInterrupt] []
    = Some ([Yielded checkpoint; Raised KeyboardInterrupt], []) ∧
  (λ x, (x.1.1, x.2)) <$> run 2 (plan_mutator watched_root decline)
                             [Send VNone; Throw (UserError 0)] []
    = Some ([Yielded checkpoint; Raised (UserError 0)], [UserError 0]).
Proof. split; vm_compute; reflexivity. Qed.

(** C8 as stated fails: the rewrite answers the first message of the root
    with a tail and no replacement; the [RuntimeError] is thrown into the
    root, which turns it into a [ValueError], and that is what the caller of
    the engine receives. *)
Lemma runtime_error_converted_by_root :
  (λ x, x.1.1) <$> run 2 (plan_mutator converting_root tail_only) [Send VNone] tt
    = Some [Raised (ValueError "converted")].
Proof. vm_compute. reflexivity. Qed.



(** A tail without a replacement over a root that has no handler. *)
Lemma tail_only_example :
  iteration tail_only 0 (seed answer_plan) tt =
    except_Exception 0
      (set_msgs_seen ({[mid checkpoint]} ∪ msgs_seen (seed answer_plan))
         (resumed plan_id answer_plan_paused
                  (seed answer_plan)))
      (RuntimeError "This makes no sense") tt ∧
  (λ x, x.1.1) <$> loop tail_only 1 (seed answer_plan) tt
    = Some (Raised (RuntimeError "This makes no sense")).
Proof.
  destruct (tail_without_replacement (I:=legacy) tail_only 0 (seed answer_plan) tt
              plan_id [] VNone [] answer_plan checkpoint _ tt (single_gen collect1) tt
              eq_refl eq_refl eq_refl eq_refl) as [Hraise Hout].
  - apply unseen. reflexivity.
  - reflexivity.
  - split; [exact Hraise|].
    erewrite Hout; reflexivity.
Defined.

(** A [UserError] thrown by the caller and one raised by a replacement on
    top of the deque: the root records both. *)
Lemma watched_root_example :
  (on_exception 0 paused_on_watched (UserError 0) []
     = Some (Raise_ (UserError 0)
               (set_gens (<[plan_id := Finished]> (gens paused_on_watched))
                         paused_on_watched)
               [UserError 0]) ∧
   resume_gen 0 (MSuspended paused_on_watched decline) (Throw (UserError 0)) []
     = Some (Raised (UserError 0), MFinished, [UserError 0])) ∧
  iteration decline 0 about_to_raise []
    = Some (Raise_ (UserError 0)
              (set_gens (<[plan_id := Finished]>
                           (gens (resumed 1 Finished about_to_raise)))
                        (resumed 1 Finished about_to_raise))
              [UserError 0]).
Proof.
  split.
  - apply (proj1 (fault_goes_to_root (I:=legacy) decline 0 paused_on_watched []
                    (UserError 0) (UserError 0) eq_refl) watched_paused);
      reflexivity.
  - apply (proj2 (fault_goes_to_root (I:=legacy) decline 0 about_to_raise []
                    (UserError 0) (UserError 0) eq_refl)
             1 [plan_id] VNone [] (Fresh (Raise (UserError 0))) Finished []
             watched_paused);
      reflexivity.
Defined.

(** The main plan raises after two messages; the final plan has one. *)
Lemma failing_plan_example :
  run 0 (finalize failing_plan cleanup_plan)
      (Send VNone :: [Send VNone; Send VNone] ++ [Send VNone]) tt
  = Some ([Yielded checkpoint; Yielded open_run] ++ [Yielded close_run]
            ++ [Raised (UserError 0)],
          FinDone, tt).
Proof.
  apply (finalize_runs_final_plan 0 failing_plan cleanup_plan
           [Send VNone; Send VNone] [Send VNone] tt
           [Yielded checkpoint; Yielded open_run] (Raised (UserError 0)) Finished tt
           [Yielded close_run] VNone Finished tt).
  - repeat constructor; discriminate.
  - reflexivity.
  - reflexivity.
  - intros [m Hm]. discriminate.
  - reflexivity.
  - reflexivity.
Defined.

(** Two relative moves of [M]: 5 from position 10 and 3 later. *)
Lemma two_moves_example :
  (∀ o, reads_of o (feed (Some [M]) two_moves w0).2
        = match first_position (Some [M]) o two_moves with Some _ => 1 | None => 0 end) ∧
  (∀ i pos msg o rel,
     two_moves !! i = Some (pos, msg) →
     is_set_on (Some [M]) o msg = true →
     args msg = [VInt rel] →
     ∃ initial new_msg,
       first_position (Some [M]) o two_moves = Some initial ∧
       (feed (Some [M]) two_moves w0).1 !! i = Some (inr ([], new_msg, [])) ∧
       args new_msg = [VInt (initial + rel)] ∧
       command new_msg = "set" ∧ obj new_msg = Some o ∧
       kwargs new_msg = kwargs msg) ∧
  (∀ I : Interpreter,
     (λ x, x.1.1) <$> run 1 (relative_set (Some [M]) relative_move)
                          [Send VNone; Send VNone; Send VNone; Send VNone] w0
     = Some [Yielded (mkMsg 100 "set" (Some M) [VInt 15] [("block_group", VStr "g")]);
             Yielded wait_g; Yielded read_M; Returned VNone]).
Proof.
  apply (relative_set_caches_position (Some [M]) two_moves w0); reflexivity.
Defined.

(** [fly_during] with no flyers at the plan [one_run_body]. *)
Lemma one_run_example :
  ∃ tr a' w' D',
    run 8 (Fresh one_run_body) [Send VNone; Send (VInt 1); Send (VInt 2)] w0
      = Some (tr, a', w') ∧
    run 8 (fly_during (Fresh one_run_body) [] "flyers-1")
        [Send VNone; Send (VInt 1); Send (VInt 2)] w0
      = Some (star <$> tr, D', w') ∧
    (tr ≠ [] → Forall is_Yielded tr → underlying D' = Some a').
Proof.
  apply (fly_during_no_flyers (I:=legacy) one_run_body "flyers-1"
           [Send VNone; Send (VInt 1); Send (VInt 2)] w0 8).
  - repeat constructor; by eexists.
  - lia.
Defined.

(** * Further facts *)

(** ** [_update_lists] *)

(** X1: after [_update_lists(out, inp)] every key of [inp] holds the list
    [out] had for it, the empty list when [out] had none, followed by the
    list of [inp]; every other key of [out] is as it was. *)
Theorem _update_lists_lookup {A : Type} (out inp : gmap string (list A)) k :
  _update_lists out inp !! k =
    match inp !! k with
    | None => out !! k
    | Some v => Some (default [] (out !! k) ++ v)
    end.
Proof.
  unfold _update_lists.
  apply (map_fold_weak_ind
    (λ r m, r !! k = match m !! k with
                     | None => out !! k
                     | Some v => Some (default [] (out !! k) ++ v)
                     end)).
  - by rewrite lookup_empty.
  - intros i x m r Hi IH.
    destruct (decide (i = k)) as [->|Hne].
    + rewrite lookup_insert_eq. rewrite Hi in IH.
      destruct (r !! k) as [l|] eqn:Hr; rewrite lookup_insert_eq, <- IH; done.
    + rewrite lookup_insert_ne by done.
      destruct (r !! i); by rewrite lookup_insert_ne.
Qed.

(** ** [_set_acquire_time] and [_unset_acquire_time] *)

Section AcquireTimeFacts.
Context {T : Type}.
Implicit Types original_times count_time : gmap nat T.

Lemma _unset_acquire_time_lookup original_times count_time d :
  _unset_acquire_time original_times count_time !! d =
    match original_times !! d with
    | Some t => Some t
    | None => count_time !! d
    end.
Proof.
  unfold _unset_acquire_time.
  apply (map_fold_weak_ind
    (λ r m, r !! d = match m !! d with Some t => Some t | None => count_time !! d end)).
  - by rewrite lookup_empty.
  - intros i x m r Hi IH. destruct (decide (i = d)) as [->|Hne].
    + by rewrite !lookup_insert_eq.
    + by rewrite !lookup_insert_ne.
Qed.

Lemma stash_other time l : ∀ (o c : gmap nat T) (d : nat),
  d ∉ l →
  (foldl (stash time) (o, c) l).1 !! d = o !! d ∧
  (foldl (stash time) (o, c) l).2 !! d = c !! d.
Proof.
  induction l as [|det l IH]; intros o c d Hd; [done|].
  apply not_elem_of_cons in Hd as [Hne Hd]. simpl.
  destruct (c !! det) as [t|] eqn:Hc.
  - destruct (IH (<[det := t]> o) (<[det := time]> c) d Hd) as [-> ->].
    by rewrite !lookup_insert_ne.
  - by apply IH.
Qed.

Lemma stash_absent time l : ∀ (o c : gmap nat T) (d : nat),
  c !! d = None →
  (foldl (stash time) (o, c) l).1 !! d = o !! d ∧
  (foldl (stash time) (o, c) l).2 !! d = None.
Proof.
  induction l as [|det l IH]; intros o c d Hd; [done|]. simpl.
  destruct (c !! det) as [t|] eqn:Hc.
  - assert (det ≠ d) by congruence.
    destruct (IH (<[det := t]> o) (<[det := time]> c) d) as [-> ->].
    + by rewrite lookup_insert_ne.
    + by rewrite lookup_insert_ne.
  - by apply IH.
Qed.

Lemma stash_once time l : ∀ (o c : gmap nat T) (d : nat) t,
  NoDup l → d ∈ l → c !! d = Some t →
  (foldl (stash time) (o, c) l).1 !! d = Some t ∧
  (foldl (stash time) (o, c) l).2 !! d = Some time.
Proof.
  induction l as [|det l IH]; intros o c d t Hnd Hd Hc.
  { by apply elem_of_nil in Hd. }
  apply NoDup_cons in Hnd as [Hnotin Hnd]. simpl.
  apply elem_of_cons in Hd as [->|Hd].
  - rewrite Hc.
    destruct (stash_other time l (<[det := t]> o) (<[det := time]> c) det Hnotin)
      as [-> ->].
    by rewrite !lookup_insert_eq.
  - assert (det ≠ d) by (intros ->; done).
    destruct (c !! det) as [t'|] eqn:Hc'.
    + apply IH; [done..|]. by rewrite lookup_insert_ne.
    + by apply IH.
Qed.

Lemma stash_again time l : ∀ (o c : gmap nat T) (d : nat),
  d ∈ l → c !! d = Some time →
  (foldl (stash time) (o, c) l).1 !! d = Some time ∧
  (foldl (stash time) (o, c) l).2 !! d = Some time.
Proof.
  induction l as [|det l IH]; intros o c d Hd Hc.
  { by apply elem_of_nil in Hd. }
  simpl. apply elem_of_cons in Hd as [->|Hd].
  - rewrite Hc. destruct (decide (det ∈ l)) as [Hin|Hnotin].
    + apply IH; [done|]. by rewrite lookup_insert_eq.
    + destruct (stash_other time l (<[det := time]> o) (<[det := time]> c) det Hnotin)
        as [-> ->].
      by rewrite !lookup_insert_eq.
  - destruct (c !! det) as [t'|] eqn:Hc'.
    + apply IH; [done|]. destruct (decide (det = d)) as [->|].
      * by rewrite lookup_insert_eq.
      * by rewrite lookup_insert_ne.
    + by apply IH.
Qed.

Lemma stash_present time l : ∀ (o c : gmap nat T) (d : nat) t,
  d ∈ l → c !! d = Some t →
  (foldl (stash time) (o, c) l).2 !! d = Some time.
Proof.
  induction l as [|det l IH]; intros o c d t Hd Hc.
  { by apply elem_of_nil in Hd. }
  simpl. apply elem_of_cons in Hd as [->|Hd].
  - rewrite Hc. destruct (decide (det ∈ l)) as [Hin|Hnotin].
    + eapply IH; [done|]. by rewrite lookup_insert_eq.
    + destruct (stash_other time l (<[det := t]> o) (<[det := time]> c) det Hnotin)
        as [_ ->].
      by rewrite lookup_insert_eq.
  - destruct (c !! det) as [t'|] eqn:Hc'.
    + destruct (decide (det = d)) as [->|].
      * eapply IH; [done|]. by rewrite lookup_insert_eq.
      * eapply IH; [done|]. rewrite lookup_insert_ne; done.
    + by eapply IH.
Qed.
End AcquireTimeFacts.

(** X2: with no detector listed twice in [gs.DETS], [_set_acquire_time]
    gives every listed detector that has a [count_time] the new time
    ([gs.COUNT_TIME] when [time] is [None]) and [_unset_acquire_time]
    applied to its result restores every attribute. *)
Theorem acquire_time_round_trip {T : Type} (gs : global_state T) time count_time :
  NoDup (DETS gs) →
  (∀ det, det ∈ DETS gs → is_Some (count_time !! det) →
     (_set_acquire_time gs time count_time).2 !! det
       = Some (default (COUNT_TIME gs) time)) ∧
  _unset_acquire_time (_set_acquire_time gs time count_time).1
                      (_set_acquire_time gs time count_time).2
    = count_time.
Proof.
  intros Hnd. unfold _set_acquire_time. split.
  - intros det Hin [t Ht]. by eapply stash_present.
  - apply map_eq. intros d. rewrite _unset_acquire_time_lookup.
    destruct (count_time !! d) as [t|] eqn:Hc.
    + destruct (decide (d ∈ DETS gs)) as [Hin|Hnotin].
      * by destruct (stash_once (default (COUNT_TIME gs) time) (DETS gs) ∅
                       count_time d t Hnd Hin Hc) as [-> _].
      * destruct (stash_other (default (COUNT_TIME gs) time) (DETS gs) ∅
                    count_time d Hnotin) as [-> ->].
        by rewrite lookup_empty.
    + destruct (stash_absent (default (COUNT_TIME gs) time) (DETS gs) ∅
                  count_time d Hc) as [-> ->].
      by rewrite lookup_empty.
Qed.

(** X3: a detector that is listed twice in [gs.DETS] is not restored: after
    [_set_acquire_time] and [_unset_acquire_time] its [count_time] is the
    new time, because the second visit stashes the time just set. *)
Theorem acquire_time_listed_twice {T : Type} (gs : global_state T) time count_time
    l1 l2 l3 det t :
  DETS gs = l1 ++ det :: l2 ++ det :: l3 →
  count_time !! det = Some t →
  _unset_acquire_time (_set_acquire_time gs time count_time).1
                      (_set_acquire_time gs time count_time).2 !! det
    = Some (default (COUNT_TIME gs) time).
Proof.
  intros HD Hc. rewrite _unset_acquire_time_lookup.
  unfold _set_acquire_time. rewrite HD.
  rewrite foldl_app.
  set (time' := default (COUNT_TIME gs) time).
  destruct (foldl (stash time') (∅, count_time) l1) as [o1 c1] eqn:H1.
  assert (is_Some (c1 !! det)) as [t1 Ht1].
  { destruct (decide (det ∈ l1)) as [Hin|Hnotin].
    - exists time'. replace c1 with (foldl (stash time') (∅, count_time) l1).2
        by (by rewrite H1).
      by eapply stash_present.
    - exists t. destruct (stash_other time' l1 ∅ count_time det Hnotin) as [_ Hx].
      rewrite H1 in Hx. simpl in Hx. congruence. }
  simpl. rewrite Ht1.
  destruct (stash_again time' (l2 ++ det :: l3) (<[det := t1]> o1) (<[det := time']> c1) det)
    as [-> _]; [| by rewrite lookup_insert_eq | done].
  apply elem_of_app. right. apply elem_of_cons. by left.
Qed.

(** ** Fuel *)

Lemma gen_Monotone {W : Type} : Monotone W (gen W).
Proof. intros n k g r w x H _. exact H. Qed.

#[export] Existing Instance gen_Monotone.

Lemma close_more_fuel {W G : Type} `{!Generator W G} `{!Monotone W G}
    n k (g : G) (w : W) x :
  close n g w = Some x → n ≤ k → close k g w = Some x.
Proof.
  unfold close. intros H Hk.
  destruct (resume_gen n g (Throw GeneratorExit) w) as [y|] eqn:Hr; [|done].
  by rewrite (more_fuel _ _ _ _ _ _ Hr Hk).
Qed.

Lemma run_more_fuel {W G : Type} `{!Generator W G} `{!Monotone W G}
    n k script : ∀ (g : G) (w : W) x,
  run n g script w = Some x → n ≤ k → run k g script w = Some x.
Proof.
  induction script as [|r script IH]; intros g w x H Hk; [done|].
  rewrite run_cons in H |- *.
  destruct (resume_gen n g r w) as [[[o g1] w1]|] eqn:Hr; [|done].
  rewrite (more_fuel _ _ _ _ _ _ Hr Hk).
  destruct o; try done.
  destruct (run n g1 script w1) as [[[tr g2] w2]|] eqn:Hrun; [|done].
  by rewrite (IH _ _ _ Hrun Hk).
Qed.

(** ** [msg_mutator] *)

Section MsgMutatorFacts.
Context {W G : Type} `{!Generator W G} `{!Monotone W G}.

Lemma msg_mutator_loop_more_fuel msg_proc n : ∀ k (plan : G) ret (w : W) x,
  msg_mutator_loop msg_proc n plan ret w = Some x → n ≤ k →
  msg_mutator_loop msg_proc k plan ret w = Some x.
Proof.
  induction n as [|n IH]; intros k plan ret w x H Hk; [done|].
  destruct k as [|k]; [lia|]. simpl in H |- *.
  destruct (resume_gen n plan (Send ret) w) as [[[o p1] w1]|] eqn:Hr; [|done].
  rewrite (more_fuel n k _ _ _ _ Hr ltac:(lia)).
  assert (∀ p w y, msg_mutator_return n p w = Some y →
                   msg_mutator_return (G:=G) k p w = Some y) as Hret.
  { intros p w0 y. unfold msg_mutator_return.
    destruct (close n p w0) as [z|] eqn:Hc; [|done].
    by rewrite (close_more_fuel n k _ _ _ Hc ltac:(lia)). }
  destruct o; [|by apply Hret|done].
  destruct (msg_proc m w1) as [[[|e]|[m'|]] w2]; try done.
  - by apply Hret.
  - apply IH; [done|lia].
Qed.

Lemma msg_mutator_Monotone : Monotone W (msg_mutator_gen W G).
Proof.
  intros n k g r w x H Hk.
  destruct g as [plan mp|plan mp|]; destruct r as [v|e]; simpl in *; try done.
  - destruct v; try done. by eapply msg_mutator_loop_more_fuel.
  - by eapply msg_mutator_loop_more_fuel.
Qed.
End MsgMutatorFacts.

#[export] Existing Instance msg_mutator_Monotone.

Section MsgMutatorTrace.
Context {W G : Type} `{!Generator W G} `{!Monotone W G} `{!Lawful W G}.
Variable keep : Msg → option Msg.

Lemma msg_mutator_step n (plan : G) v (w : W) o p1 w1 :
  resume_gen n plan (Send v) w = Some (o, p1, w1) →
  resume_gen (S n) (MsgSuspended plan (pure_proc keep)) (Send v) w =
    match o with
    | Yielded m =>
        match keep m with
        | Some m' => Some (Yielded m', MsgSuspended p1 (pure_proc keep), w1)
        | None => resume_gen n (MsgSuspended p1 (pure_proc keep)) (Send VNone) w1
        end
    | Returned _ => Some (Returned VNone, MsgDone, w1)
    | Raised e => Some (Raised e, MsgDone, w1)
    end.
Proof.
  intros Hr.
  change (resume_gen (S n) (MsgSuspended plan (pure_proc keep)) (Send v) w)
    with (msg_mutator_loop (pure_proc keep) (S n) plan v w).
  simpl. rewrite Hr. destruct o as [m|x|e]; [|..|done].
  - unfold pure_proc at 1. by destruct (keep m).
  - unfold msg_mutator_return, close.
    by destruct (finished_throw _ _ _ _ _ _ _ Hr ltac:(done) n GeneratorExit w1)
      as [g'' ->].
Qed.

Lemma msg_mutator_paused rs : ∀ v (plan : G) (w : W) K tr plan' w',
  run K plan (Send v :: (Send <$> rs)) w = Some (tr, plan', w') →
  dropped_get_None keep tr rs →
  (∀ m, last tr = Some (Yielded m) → is_Some (keep m)) →
  ∃ D', run (S (K + length rs)) (MsgSuspended plan (pure_proc keep))
            (Send v :: (Send <$> kept_responses keep tr rs)) w
        = Some (kept_trace keep tr, D', w').
Proof.
  induction rs as [|r rs IH]; intros v plan w K tr plan' w' Hrun Hdrop Hlast;
    rewrite run_cons in Hrun;
    destruct (resume_gen K plan (Send v) w) as [[[o p1] w1]|] eqn:Hr; try done.
  - pose proof (more_fuel K (K + 0) _ _ _ _ Hr ltac:(lia)) as Hr'.
    cbn [length].
    destruct o as [m|x|e]; cbn in Hrun; simplify_eq;
      cbn [kept_trace kept_responses fmap list_fmap];
      rewrite run_cons, (msg_mutator_step _ _ _ _ _ _ _ Hr'); [|by eauto..].
    destruct (Hlast m eq_refl) as [m' ->]. cbn. eauto.
  - pose proof (more_fuel K (K + S (length rs)) _ _ _ _ Hr ltac:(lia)) as Hr'.
    cbn [length].
    destruct o as [m|x|e]; cycle 1.
    { cbn in Hrun. simplify_eq. cbn [kept_trace kept_responses fmap list_fmap].
      rewrite run_cons, (msg_mutator_step _ _ _ _ _ _ _ Hr'). eauto. }
    { cbn in Hrun. simplify_eq. cbn [kept_trace kept_responses fmap list_fmap].
      rewrite run_cons, (msg_mutator_step _ _ _ _ _ _ _ Hr'). eauto. }
    rewrite fmap_cons in Hrun.
    destruct (run K p1 (Send r :: (Send <$> rs)) w1) as [[[tr1 p2] w2]|] eqn:Hrun1;
      [|done].
    simplify_eq. destruct Hdrop as [Hnone Hdrop].
    destruct (IH r p1 w1 K tr1 plan' w' Hrun1 Hdrop) as [D' HD'].
    { intros m0 Hm0. apply Hlast. destruct tr1; [done|]. exact Hm0. }
    cbn [kept_trace kept_responses].
    rewrite run_cons, (msg_mutator_step _ _ _ _ _ _ _ Hr').
    destruct (keep m) as [m'|] eqn:Hm.
    + exists D'. rewrite fmap_cons.
      by rewrite (run_more_fuel _ (S (K + S (length rs))) _ _ _ _ HD' ltac:(lia)).
    + rewrite (Hnone eq_refl) in HD'. exists D'.
      rewrite run_cons in HD'.
      replace (K + S (length rs)) with (S (K + length rs)) by lia.
      destruct (resume_gen (S (K + length rs)) (MsgSuspended p1 (pure_proc keep))
                  (Send VNone) w1) as [[[o D1] w3]|]; [|done].
      destruct o; try done.
      destruct (run (S (K + length rs)) D1 (Send <$> kept_responses keep tr1 rs) w3)
        as [y|] eqn:Hrest; [|done].
      by rewrite (run_more_fuel _ (S (S (K + length rs))) _ _ _ _ Hrest ltac:(lia)).
Qed.
End MsgMutatorTrace.

(** X4: [msg_mutator] shows its caller the messages of the plan that the
    rewrite function keeps, rewritten and in the plan's order, hands the
    response to each of them to the plan, resumes the plan with [None]
    after a message that is dropped, and completes with [None] when the
    plan completes. *)
Theorem msg_mutator_trace {W G : Type} `{!Generator W G} `{!Monotone W G} `{!Lawful W G}
    (keep : Msg → option Msg) (plan : G) rs (w : W) K tr plan' w' :
  run K plan (Send VNone :: (Send <$> rs)) w = Some (tr, plan', w') →
  dropped_get_None keep tr rs →
  (∀ m, last tr = Some (Yielded m) → is_Some (keep m)) →
  ∃ D', run (S (K + length rs)) (msg_mutator plan (pure_proc keep))
            (Send VNone :: (Send <$> kept_responses keep tr rs)) w
        = Some (kept_trace keep tr, D', w').
Proof.
  intros Hrun Hdrop Hlast.
  destruct (msg_mutator_paused keep rs VNone plan w K tr plan' w' Hrun Hdrop Hlast)
    as [D' HD'].
  exists D'. rewrite run_cons in HD' |- *. exact HD'.
Qed.

(** ** Runs of generator functions *)

Section TreeRuns.
Context {W : Type}.
Implicit Types (p : plan W) (w : W) (c : resume → plan W).

Lemma run_resumed k c r script w :
  run k (Suspended c) (r :: script) w = run k (Fresh (c r)) (Send VNone :: script) w.
Proof. rewrite !run_cons. reflexivity. Qed.

Lemma run_body_of k (g : gen W) script w :
  observed (run k g (Send VNone :: script) w)
  = observed (run k (Fresh (body_of g)) (Send VNone :: script) w).
Proof.
  destruct g as [b|c|]; [done| |].
  - by rewrite run_resumed.
  - rewrite !run_cons. reflexivity.
Qed.

Lemma run_Get k (f : W → plan W) script w :
  run k (Fresh (Get f)) (Send VNone :: script) w
  = run k (Fresh (f w)) (Send VNone :: script) w.
Proof. rewrite !run_cons. reflexivity. Qed.

Lemma run_Put k w' p script w :
  run k (Fresh (Put w' p)) (Send VNone :: script) w
  = run k (Fresh p) (Send VNone :: script) w'.
Proof. rewrite !run_cons. reflexivity. Qed.

Lemma run_Return k v w :
  observed (run k (Fresh (Return v)) [Send VNone] w) = Some ([Returned v], w).
Proof. reflexivity. Qed.

Lemma run_Yield k m c r script w :
  observed (run k (Fresh (Yield m c)) (Send VNone :: r :: script) w)
  = prepend [Yielded m] (observed (run k (Fresh (c r)) (Send VNone :: script) w)).
Proof.
  rewrite run_cons.
  change (resume_gen k (Fresh (Yield m c)) (Send VNone) w)
    with (Some (Yielded m, Suspended c, w)).
  cbv beta iota. rewrite run_resumed.
  by destruct (run k (Fresh (c r)) (Send VNone :: script) w) as [[[??]?]|].
Qed.

Lemma run_yield_ k m (kk : value → plan W) v script w :
  observed (run k (Fresh (yield_ m kk)) (Send VNone :: Send v :: script) w)
  = prepend [Yielded m] (observed (run k (Fresh (kk v)) (Send VNone :: script) w)).
Proof. unfold yield_. by rewrite run_Yield. Qed.

Lemma prepend_app (tr1 tr2 : list outcome) (r : option (list outcome * W)) :
  prepend tr1 (prepend tr2 r) = prepend (tr1 ++ tr2) r.
Proof. destruct r as [[??]|]; [|done]. simpl. by rewrite app_assoc. Qed.

Lemma prepend_nil (r : option (list outcome * W)) : prepend [] r = r.
Proof. by destruct r as [[??]|]. Qed.

(** [v = yield from sub]: the messages of the sub-generator, then the code
    after the expression, or the handler. *)
Lemma run_yield_from_body k sub :
  ∀ (kk : value → plan W) (h : exn → plan W) script1 script2 w tr1 o w1,
    observed (run k (Fresh sub) (Send VNone :: script1) w) = Some (tr1 ++ [o], w1) →
    length tr1 = length script1 →
    ¬ is_Yielded o →
    Forall not_GeneratorExit script1 →
    observed (run k (Fresh (yield_from_body sub kk h))
                  (Send VNone :: script1 ++ script2) w)
    = prepend tr1
        (observed (run k (Fresh (match o with
                                 | Returned v => kk v
                                 | Raised e => h e
                                 | Yielded _ => Return VNone
                                 end))
                       (Send VNone :: script2) w1)).
Proof.
  induction sub as [v0|e|m c IH|f IH|w' sub IH];
    intros kk h script1 script2 w tr1 o w1 Hrun Hlen Ho Hscript.
  - cbn in Hrun. destruct tr1 as [|? [|??]]; simplify_eq/=.
    destruct script1; [|done]. by rewrite prepend_nil.
  - cbn in Hrun. destruct tr1 as [|? [|??]]; simplify_eq/=.
    destruct script1; [|done]. by rewrite prepend_nil.
  - destruct script1 as [|r script1].
    { cbn in Hrun. destruct tr1 as [|? [|??]]; simplify_eq/=.
      destruct Ho. by eexists. }
    rewrite run_Yield in Hrun.
    destruct (observed (run k (Fresh (c r)) (Send VNone :: script1) w)) as [[tr' w']|] eqn:Hc;
      [|done].
    cbn in Hrun. injection Hrun as Htr ->.
    destruct tr1 as [|o1 tr1]; cbn in Htr.
    { injection Htr as <- _. destruct Ho. by eexists. }
    injection Htr as <- ->.
    apply Forall_cons in Hscript as [Hr Hscript].
    cbn [app yield_from_body]. rewrite run_Yield.
    assert ((match r with
             | Throw GeneratorExit => close_body (c (Throw GeneratorExit)) h
             | _ => yield_from_body (c r) kk h
             end) = yield_from_body (c r) kk h) as ->.
    { destruct r as [|[]]; try done. }
    rewrite (IH r kk h script1 script2 w tr1 o w1); [|done|by injection Hlen|done..].
    by rewrite prepend_app.
  - rewrite run_Get in Hrun. cbn [yield_from_body]. rewrite run_Get. by eapply IH.
  - rewrite run_Put in Hrun. cbn [yield_from_body]. rewrite run_Put. by eapply IH.
Qed.

Lemma run_yield_from_gen k (g : gen W) (kk : value → plan W) (h : exn → plan W)
    script1 script2 w tr1 o w1 :
  observed (run k g (Send VNone :: script1) w) = Some (tr1 ++ [o], w1) →
  length tr1 = length script1 →
  ¬ is_Yielded o →
  Forall not_GeneratorExit script1 →
  observed (run k (Fresh (yield_from_gen g kk h)) (Send VNone :: script1 ++ script2) w)
  = prepend tr1
      (observed (run k (Fresh (match o with
                               | Returned v => kk v
                               | Raised e => h e
                               | Yielded _ => Return VNone
                               end))
                     (Send VNone :: script2) w1)).
Proof.
  intros Hrun Hlen Ho Hscript. unfold yield_from_gen.
  eapply run_yield_from_body; [|done..].
  by rewrite <- run_body_of.
Qed.
End TreeRuns.

(** ** Plans that build their messages *)

Ltac same_session :=
  cbn; unfold drawn, built, set_next_msg, set_uuids_drawn; cbn;
  first [done | do 2 f_equal; first [done | f_equal; lia]].

Lemma stamped_app n ms1 ms2 :
  stamped n (ms1 ++ ms2) = stamped n ms1 ++ stamped (length ms1 + n) ms2.
Proof.
  revert n. induction ms1 as [|m ms1 IH]; intros n; [done|].
  cbn. rewrite IH. by replace (length ms1 + S n) with (S (length ms1 + n)) by lia.
Qed.

Lemma stamped_length n ms : length (stamped n ms) = length ms.
Proof. revert n. induction ms as [|m ms IH]; intros n; [done|]. cbn. by rewrite IH. Qed.

Lemma built_built n m s : built n (built m s) = built (n + m) s.
Proof. unfold built, set_next_msg. cbn. f_equal. lia. Qed.

Lemma built_0 s : built 0 s = s.
Proof. by destruct s. Qed.

Lemma run_yield_new k command obj args kwargs (kk : value → plan session) v script s :
  observed (run k (Fresh (yield_new command obj args kwargs kk))
                (Send VNone :: Send v :: script) s)
  = prepend [Yielded (mkMsg (next_msg s) command obj args kwargs)]
      (observed (run k (Fresh (kk v)) (Send VNone :: script) (built 1 s))).
Proof. unfold yield_new. rewrite run_Get. cbn [session_Msg]. by rewrite run_Put, run_yield_. Qed.

Lemma broadcast_body_run k command args kwargs objs :
  ∀ return_vals vs s,
    length vs = length objs →
    observed (run k (Fresh (broadcast_body command objs args kwargs return_vals))
                  (Send VNone :: (Send <$> vs)) s)
    = Some ((Yielded <$> stamped (next_msg s)
                           ((λ o, draft command (Some o) args kwargs) <$> objs))
            ++ [Returned (VTuple (return_vals ++ vs))],
            built (length objs) s).
Proof.
  induction objs as [|o objs IH]; intros return_vals vs s Hlen.
  - destruct vs; [|done]. cbn. by rewrite app_nil_r, built_0.
  - destruct vs as [|v vs]; [done|].
    cbn [broadcast_body fmap list_fmap]. rewrite run_yield_new.
    rewrite IH by (by injection Hlen). cbn.
    rewrite built_built, <- (app_assoc return_vals).
    by replace (length objs + 1) with (S (length objs)) by lia.
Qed.

Lemma broadcast_msg_run_aux k command objs vs (s : session) :
  length vs = length objs →
  observed (run k (broadcast_msg command objs [] []) (Send VNone :: (Send <$> vs)) s)
  = Some ((Yielded <$> stamped (next_msg s)
                         ((λ o, draft command (Some o) [] []) <$> objs))
          ++ [Returned (VTuple vs)],
          built (length objs) s).
Proof. intros Hlen. unfold broadcast_msg. by rewrite broadcast_body_run. Qed.

(** X5: [broadcast_msg] yields one message per object, in the order of
    [objs], each a new object with the command, arguments and keyword
    arguments given, and completes with the responses in the same order;
    for no objects it completes at once with the empty list. *)
Theorem broadcast_msg_collects_responses
    (k : nat) command objs args kwargs vs (s : session) :
  length vs = length objs →
  observed (run k (broadcast_msg command objs args kwargs)
                (Send VNone :: (Send <$> vs)) s)
  = Some ((Yielded <$> stamped (next_msg s)
                         ((λ o, draft command (Some o) args kwargs) <$> objs))
          ++ [Returned (VTuple vs)],
          built (length objs) s).
Proof. intros Hlen. unfold broadcast_msg. by rewrite broadcast_body_run. Qed.

(** ** [bschain] *)

Section BschainFacts.
Context {W : Type}.

Lemma bschain_body_run k (args : list (gen W)) w script tr vs w' :
  in_turn k args w script tr vs w' →
  ∀ rets,
    observed (run k (Fresh (bschain_body args rets)) (Send VNone :: script) w)
    = Some (tr ++ [Returned (VTuple (rets ++ vs))], w').
Proof.
  induction 1 as [w|g gs w script tr v w1 script' tr' vs w2 Hrun Hlen Hscript _ IH];
    intros rets.
  - cbn. by rewrite app_nil_r.
  - cbn [bschain_body].
    rewrite (run_yield_from_gen k g _ _ script script' w tr (Returned v) w1 Hrun Hlen);
      [|by intros [??]|done].
    rewrite IH. cbn. by rewrite <- !app_assoc.
Qed.

Lemma bschain_body_raises k (args1 : list (gen W)) w script1 tr1 vs w1 :
  in_turn k args1 w script1 tr1 vs w1 →
  ∀ rets g args2 script tr e w2,
    observed (run k g (Send VNone :: script) w1) = Some (tr ++ [Raised e], w2) →
    length tr = length script →
    Forall not_GeneratorExit script →
    observed (run k (Fresh (bschain_body (args1 ++ g :: args2) rets))
                  (Send VNone :: script1 ++ script) w)
    = Some (tr1 ++ tr ++ [Raised e], w2).
Proof.
  induction 1 as [w|g0 gs w script0 tr0 v w1 script' tr' vs w2 Hrun Hlen Hscript _ IH];
    intros rets g args2 script tr e w3 Hg Hglen Hgscript.
  - cbn [app bschain_body].
    rewrite <- (app_nil_r script).
    rewrite (run_yield_from_gen k g _ _ script [] w tr (Raised e) w3 Hg Hglen);
      [|by intros [??]|done].
    done.
  - cbn [app bschain_body]. rewrite <- app_assoc.
    rewrite (run_yield_from_gen k g0 _ _ script0 _ w tr0 (Returned v) w1 Hrun Hlen);
      [|by intros [??]|done].
    rewrite (IH _ _ _ _ _ _ _ Hg Hglen Hgscript). cbn. by rewrite <- !app_assoc.
Qed.
End BschainFacts.

(** X6: [bschain] runs the plans in turn: its messages are theirs, one plan
    after the other, each plan gets the responses to its own messages,
    and it completes with the tuple of their completion values in order;
    without plans it completes at once with the empty tuple. *)
Theorem bschain_runs_in_turn {W : Type} k (args : list (gen W)) w script tr vs w' :
  in_turn k args w script tr vs w' →
  observed (run k (bschain args) (Send VNone :: script) w)
  = Some (tr ++ [Returned (VTuple vs)], w').
Proof. intros H. unfold bschain. by rewrite (bschain_body_run k args w script tr vs w' H). Qed.

(** X7: when one of the plans raises, [bschain] raises the same exception at
    that point; the plans after it are never started. *)
Theorem bschain_stops_at_exception {W : Type} k (args1 args2 : list (gen W)) g
    w script1 tr1 vs w1 script tr e w2 :
  in_turn k args1 w script1 tr1 vs w1 →
  observed (run k g (Send VNone :: script) w1) = Some (tr ++ [Raised e], w2) →
  length tr = length script →
  Forall not_GeneratorExit script →
  observed (run k (bschain (args1 ++ g :: args2)) (Send VNone :: script1 ++ script) w)
  = Some (tr1 ++ tr ++ [Raised e], w2).
Proof. intros H Hg Hlen Hs. unfold bschain. by eapply bschain_body_raises. Qed.

(** ** [run_wrapper] *)

Lemma single_gen_in_turn {W : Type} k (m : Msg) v (w : W) gs script tr vs w' :
  in_turn k gs w script tr vs w' →
  in_turn k (single_gen m :: gs) w ([Send v] ++ script) ([Yielded m] ++ tr)
          (VNone :: vs) w'.
Proof.
  intros H. eapply in_turn_cons; [|done| |done].
  - reflexivity.
  - by repeat constructor.
Qed.

(** X8: [run_wrapper] yields a new ['open_run'] message carrying the
    metadata, then the messages of the plan, then a new ['close_run']
    message, and completes with the triple [(None, ret, None)], [ret]
    being the completion value of the plan. *)
Theorem run_wrapper_brackets_plan
    k (plan : gen session) md script tr ret (s s1 : session) v0 v1 :
  observed (run k plan (Send VNone :: script) (built 2 s))
    = Some (tr ++ [Returned ret], s1) →
  length tr = length script →
  Forall not_GeneratorExit script →
  observed (run k (run_wrapper plan md)
                (Send VNone :: Send v0 :: script ++ [Send v1]) s)
  = Some ([Yielded (mkMsg (next_msg s) "open_run" None [] (default [] md))]
          ++ tr
          ++ [Yielded (mkMsg (S (next_msg s)) "close_run" None [] []);
              Returned (VTuple [VNone; ret; VNone])],
          s1).
Proof.
  intros Hrun Hlen Hscript. unfold run_wrapper.
  rewrite run_Get. cbn [session_Msg next_msg set_next_msg uuids_drawn devices_staged pos_cache].
  rewrite run_Put.
  set (open := mkMsg (next_msg s) "open_run" None [] (default [] md)).
  set (close := mkMsg (S (next_msg s)) "close_run" None [] []).
  assert (in_turn k [single_gen open; plan; single_gen close] (built 2 s)
            ([Send v0] ++ script ++ [Send v1] ++ [])
            ([Yielded open] ++ tr ++ [Yielded close] ++ [])
            [VNone; ret; VNone] s1) as Hturn.
  { apply single_gen_in_turn. eapply in_turn_cons; [exact Hrun|done..|].
    apply single_gen_in_turn. constructor. }
  pose proof (bschain_body_run k _ _ _ _ _ _ Hturn []) as Hchain.
  rewrite <- (app_nil_r (Send v0 :: script ++ [Send v1])).
  rewrite (run_yield_from_gen k _ Return Raise
             ([Send v0] ++ script ++ [Send v1] ++ []) [] _
             ([Yielded open] ++ tr ++ [Yielded close] ++ [])
             (Returned (VTuple [VNone; ret; VNone])) s1);
    [|exact Hchain| |by intros [??]|].
  - cbn. by rewrite <- !app_assoc.
  - rewrite !length_app. cbn. lia.
  - apply Forall_app. split; [by repeat constructor|].
    apply Forall_app. split; [done|by repeat constructor].
Qed.

(** X9: when the plan raises, [run_wrapper] raises the same exception and
    yields no ['close_run'] message: the run it has opened stays open. *)
Theorem run_wrapper_leaves_run_open
    k (plan : gen session) md script tr e (s s1 : session) v0 :
  observed (run k plan (Send VNone :: script) (built 2 s))
    = Some (tr ++ [Raised e], s1) →
  length tr = length script →
  Forall not_GeneratorExit script →
  observed (run k (run_wrapper plan md) (Send VNone :: Send v0 :: script) s)
  = Some ([Yielded (mkMsg (next_msg s) "open_run" None [] (default [] md))]
          ++ tr ++ [Raised e],
          s1).
Proof.
  intros Hrun Hlen Hscript. unfold run_wrapper.
  rewrite run_Get. cbn [session_Msg next_msg set_next_msg uuids_drawn devices_staged pos_cache].
  rewrite run_Put.
  set (open := mkMsg (next_msg s) "open_run" None [] (default [] md)).
  set (close := mkMsg (S (next_msg s)) "close_run" None [] []).
  assert (in_turn k [single_gen open] (built 2 s) ([Send v0] ++ []) ([Yielded open] ++ [])
            [VNone] (built 2 s)) as Hturn.
  { apply single_gen_in_turn. constructor. }
  pose proof (bschain_body_raises k _ _ _ _ _ _ Hturn [] plan [single_gen close]
                script tr e s1 Hrun Hlen Hscript) as Hchain.
  rewrite <- (app_nil_r (Send v0 :: script)).
  rewrite (run_yield_from_gen k _ Return Raise
             (([Send v0] ++ []) ++ script) [] _
             (([Yielded open] ++ []) ++ tr) (Raised e) s1);
    [| | |by intros [??]|].
  2: { rewrite <- (app_assoc _ tr). exact Hchain. }
  - cbn. by rewrite <- ?app_assoc.
  - rewrite !length_app. cbn. lia.
  - apply Forall_app. split; [by repeat constructor|done].
Qed.

(** ** [trigger_and_read], [_one_step] and [_step_scan_core] *)

Section BuilderFacts.
Variable uuid4 : nat → string.
Variable separate_devices : list nat → list nat.
Variable has_trigger : nat → bool.

Lemma Send_app (vs1 vs2 : list value) :
  Send <$> (vs1 ++ vs2) = (Send <$> vs1) ++ (Send <$> vs2).
Proof. apply fmap_app. Qed.

Lemma trigger_loop_run k grp objs :
  ∀ (kk : plan session) vs script s,
    length vs = length (List.filter has_trigger objs) →
    observed (run k (Fresh (trigger_loop has_trigger grp objs kk))
                  (Send VNone :: (Send <$> vs) ++ script) s)
    = prepend (Yielded <$> stamped (next_msg s)
                 ((λ o, draft "trigger" (Some o) [] [("block_group", VStr grp)])
                    <$> List.filter has_trigger objs))
        (observed (run k (Fresh kk) (Send VNone :: script)
                       (built (length (List.filter has_trigger objs)) s))).
Proof.
  induction objs as [|o objs IH]; intros kk vs script s Hlen.
  - destruct vs; [|done].
    cbn [trigger_loop List.filter length fmap list_fmap stamped app].
    by rewrite prepend_nil, built_0.
  - cbn [trigger_loop List.filter] in Hlen |- *. destruct (has_trigger o).
    + destruct vs as [|v vs]; [done|]. cbn [fmap list_fmap app].
      rewrite run_yield_new, IH by (by injection Hlen).
      rewrite prepend_app, built_built. cbn.
      by replace (length (List.filter has_trigger objs) + 1)
        with (S (length (List.filter has_trigger objs))) by lia.
    + by apply IH.
Qed.

Lemma read_loop_run k objs :
  ∀ (kk : plan session) vs script s,
    length vs = length objs →
    observed (run k (Fresh (read_loop objs kk)) (Send VNone :: (Send <$> vs) ++ script) s)
    = prepend (Yielded <$> stamped (next_msg s)
                 ((λ o, draft "read" (Some o) [] []) <$> objs))
        (observed (run k (Fresh kk) (Send VNone :: script) (built (length objs) s))).
Proof.
  induction objs as [|o objs IH]; intros kk vs script s Hlen.
  - destruct vs; [|done].
    cbn [read_loop length fmap list_fmap stamped app].
    by rewrite prepend_nil, built_0.
  - destruct vs as [|v vs]; [done|]. cbn [read_loop fmap list_fmap app].
    rewrite run_yield_new, IH by (by injection Hlen).
    rewrite prepend_app, built_built. cbn.
    by replace (length objs + 1) with (S (length objs)) by lia.
Qed.

Lemma trigger_and_read_run k devices vs s :
  length vs = length (trigger_and_read_msgs uuid4 separate_devices has_trigger devices
                        (uuids_drawn s)) →
  observed (run k (trigger_and_read uuid4 separate_devices has_trigger devices)
                (Send VNone :: (Send <$> vs)) s)
  = Some ((Yielded <$> stamped (next_msg s)
             (trigger_and_read_msgs uuid4 separate_devices has_trigger devices
                (uuids_drawn s)))
          ++ [Returned VNone],
          built (length (trigger_and_read_msgs uuid4 separate_devices has_trigger devices
                           (uuids_drawn s)))
                (drawn 1 s)).
Proof.
  unfold trigger_and_read, trigger_and_read_msgs.
  set (ds := separate_devices devices).
  set (ts := List.filter has_trigger (separate_devices ds)).
  rewrite !length_app, !length_fmap. cbn [length]. intros Hlen.
  rewrite run_Get. cbn [_short_uid]. rewrite run_Put.
  set (grp := "trigger" +:+ "-" +:+ String.substring 0 6 (uuid4 (uuids_drawn s))).
  assert (∃ vs1 v vs2, vs = vs1 ++ v :: vs2 ∧ length vs1 = length ts
                       ∧ length vs2 = length ds) as (vs1 & v & vs2 & -> & H1 & H2).
  { exists (take (length ts) vs), (default VNone (vs !! length ts)),
      (drop (S (length ts)) vs).
    split_and!.
    - destruct (vs !! length ts) as [v|] eqn:Hv.
      + cbn. by rewrite <- (take_drop_middle _ _ _ Hv) at 1.
      + apply lookup_ge_None in Hv. lia.
    - rewrite length_take. lia.
    - rewrite length_drop. lia. }
  rewrite Send_app. cbn [fmap list_fmap].
  rewrite (trigger_loop_run k grp _ _ vs1 _ _ ltac:(by rewrite H1)).
  rewrite <- (app_nil_r (Send <$> vs2)).
  rewrite run_yield_new, (read_loop_run k ds _ vs2 [] _ H2).
  rewrite !prepend_app. cbn.
  rewrite !stamped_app, !fmap_app, !length_fmap. cbn.
  rewrite <- !app_assoc. cbn.
  rewrite !built_built. unfold drawn, built. cbn.
  subst ts. do 3 f_equal. lia.
Qed.

Lemma split_responses (vs : list value) a b :
  length vs = a + b →
  ∃ vs1 vs2, vs = vs1 ++ vs2 ∧ length vs1 = a ∧ length vs2 = b.
Proof.
  intros H. exists (take a vs), (drop a vs). split_and!.
  - by rewrite take_drop.
  - rewrite length_take. lia.
  - rewrite length_drop. lia.
Qed.

Lemma one_step_run k detectors motor step vs s :
  length vs = length (one_step_msgs uuid4 separate_devices has_trigger detectors motor
                        step (uuids_drawn s)) →
  observed (run k (_one_step uuid4 separate_devices has_trigger detectors motor step)
                (Send VNone :: (Send <$> vs)) s)
  = Some ((Yielded <$> stamped (next_msg s)
             (one_step_msgs uuid4 separate_devices has_trigger detectors motor step
                (uuids_drawn s)))
          ++ [Returned VNone],
          built (length (one_step_msgs uuid4 separate_devices has_trigger detectors
                           motor step (uuids_drawn s)))
                (drawn 2 s)).
Proof.
  unfold _one_step, one_step_msgs.
  set (tmsgs := trigger_and_read_msgs uuid4 separate_devices has_trigger
                  (detectors ++ [motor]) (S (uuids_drawn s))).
  cbn [length app]. intros Hlen.
  destruct vs as [|v1 [|v2 [|v3 vs]]]; try done.
  rewrite run_Get. cbn [_short_uid]. rewrite run_Put.
  cbn [fmap list_fmap]. rewrite !run_yield_new.
  rewrite <- (app_nil_r (Send <$> vs)).
  rewrite (run_yield_from_gen k _ _ _ (Send <$> vs) [] _
             (Yielded <$> stamped (3 + next_msg s) tmsgs) (Returned VNone)
             (built (length tmsgs) (drawn 1 (built 3 (drawn 1 s)))));
    [| | |by intros [??]|].
  - same_session.
  - rewrite (trigger_and_read_run k (detectors ++ [motor]) vs).
    + subst tmsgs. same_session.
    + cbn. subst tmsgs. cbn in Hlen. lia.
  - rewrite !length_fmap, stamped_length. cbn in Hlen. lia.
  - apply Forall_fmap, Forall_forall. by intros ???.
Qed.

Lemma step_scan_loop_run k per_step detectors motor steps :
  ∀ s script tr vs s' ret,
    in_turn k (per_step detectors motor <$> steps) s script tr vs s' →
    observed (run k (Fresh (step_scan_loop per_step detectors motor steps ret))
                  (Send VNone :: script) s)
    = Some (tr ++ [match last vs, ret with
                   | Some v, _ | None, Some v => Returned v
                   | None, None => Raised UnboundLocalError
                   end], s').
Proof.
  induction steps as [|step steps IH]; intros s script tr vs s' ret Hturn.
  - inversion Hturn; subst. by destruct ret.
  - rewrite fmap_cons in Hturn. inversion Hturn as [|? ? ? script1 tr1 v w1 script2 tr2 vs2 ? Hrun Hlen Hscript Hrest]; subst.
    cbn [step_scan_loop].
    rewrite (run_yield_from_gen k _ _ _ script1 script2 s tr1 (Returned v) w1 Hrun Hlen);
      [|by intros [??]|done].
    rewrite (IH _ _ _ _ _ (Some v) Hrest). cbn. rewrite <- app_assoc.
    rewrite last_cons. by destruct (last vs2).
Qed.

Lemma step_scan_default_run k detectors motor steps :
  ∀ ret vs s,
    length vs = length (step_scan_msgs uuid4 separate_devices has_trigger detectors motor
                          steps (uuids_drawn s)) →
    observed (run k (Fresh (step_scan_loop
                              (_one_step uuid4 separate_devices has_trigger)
                              detectors motor steps ret))
                  (Send VNone :: (Send <$> vs)) s)
    = Some ((Yielded <$> stamped (next_msg s)
               (step_scan_msgs uuid4 separate_devices has_trigger detectors motor
                  steps (uuids_drawn s)))
            ++ [match steps, ret with
                | _ :: _, _ => Returned VNone
                | [], Some v => Returned v
                | [], None => Raised UnboundLocalError
                end],
            built (length (step_scan_msgs uuid4 separate_devices has_trigger detectors
                             motor steps (uuids_drawn s)))
                  (drawn (2 * length steps) s)).
Proof.
  induction steps as [|step steps IH]; intros ret vs s Hlen.
  - destruct vs; [|done]. destruct s. by destruct ret.
  - cbn [step_scan_msgs] in Hlen |- *. rewrite length_app in Hlen.
    set (m1 := one_step_msgs uuid4 separate_devices has_trigger detectors motor step
                 (uuids_drawn s)) in *.
    set (m2 := step_scan_msgs uuid4 separate_devices has_trigger detectors motor steps
                 (S (S (uuids_drawn s)))) in *.
    destruct (split_responses _ _ _ Hlen) as (vs1 & vs2 & -> & H1 & H2).
    cbn [step_scan_loop]. rewrite Send_app.
    rewrite (run_yield_from_gen k _ _ _ (Send <$> vs1) (Send <$> vs2) s _ (Returned VNone)
               _ (one_step_run k detectors motor step vs1 s H1));
      [| |by intros [??]|].
    + fold m1. rewrite (IH (Some VNone) vs2 (built (length m1) (drawn 2 s))) by exact H2.
      change (step_scan_msgs uuid4 separate_devices has_trigger detectors motor steps
                (uuids_drawn (built (length m1) (drawn 2 s)))) with m2.
      change (next_msg (built (length m1) (drawn 2 s))) with (length m1 + next_msg s).
      clearbody m1 m2.
      rewrite stamped_app, fmap_app, length_app. cbn.
      rewrite <- !app_assoc. unfold drawn, built, set_next_msg, set_uuids_drawn. cbn.
      do 2 f_equal.
      { do 2 f_equal. by destruct steps. }
      f_equal; lia.
    + by rewrite length_fmap, length_fmap, stamped_length.
    + apply Forall_fmap, Forall_forall. by intros ???.
Qed.
End BuilderFacts.


(** ** [_one_nd_step] *)

Section NdStepFacts.
Variable uuid4 : nat → string.
Variable separate_devices : list nat → list nat.
Variable has_trigger : nat → bool.

Lemma nd_move_loop_run k step :
  ∀ (kk : plan session) vs script s,
    length vs = length (nd_moves uuid4 step (pos_cache s) (uuids_drawn s)) →
    observed (run k (Fresh (nd_move_loop uuid4 step kk))
                  (Send VNone :: (Send <$> vs) ++ script) s)
    = prepend (Yielded <$> stamped (next_msg s)
                 (nd_moves uuid4 step (pos_cache s) (uuids_drawn s)))
        (observed (run k (Fresh kk) (Send VNone :: script)
                       (set_pos_cache (cache_after step (pos_cache s))
                          (built (length (nd_moves uuid4 step (pos_cache s)
                                            (uuids_drawn s)))
                                 (drawn (length step) s))))).
Proof.
  induction step as [|[motor pos] step IH]; intros kk vs script s Hlen.
  - destruct vs; [|done]. destruct s as [n0 u0 ds0 pc0].
    cbn [nd_move_loop nd_moves length fmap list_fmap stamped app cache_after foldl].
    by rewrite prepend_nil.
  - cbn [nd_move_loop nd_moves] in Hlen |- *.
    rewrite run_Get. cbn [_short_uid]. rewrite run_Put.
    cbn [pos_cache set_uuids_drawn].
    destruct (bool_decide (pos_cache s !! motor = Some pos)) eqn:Hcached.
    + cbn [app] in Hlen |- *.
      apply bool_decide_eq_true_1 in Hcached.
      rewrite (insert_id _ _ _ Hcached) in Hlen |- *.
      rewrite (IH kk vs script (set_uuids_drawn (S (uuids_drawn s)) s)) by exact Hlen.
      cbn [cache_after foldl fst snd]. rewrite (insert_id _ _ _ Hcached).
      do 3 f_equal. destruct s as [n0 u0 ds0 pc0].
      unfold drawn, built, set_next_msg, set_uuids_drawn, set_pos_cache.
      cbn [next_msg uuids_drawn devices_staged pos_cache length].
      f_equal. lia.
    + cbn [app length] in Hlen |- *.
      destruct vs as [|v1 [|v2 vs]]; try done.
      cbn [fmap list_fmap app]. rewrite run_yield_new, run_Get, run_Put, run_yield_new.
      rewrite (IH kk vs script
                 (built 1 (set_pos_cache (<[motor := pos]> (pos_cache s))
                             (built 1 (set_uuids_drawn (S (uuids_drawn s)) s)))))
        by (by injection Hlen).
      rewrite !prepend_app. cbn [cache_after foldl fst snd].
      destruct s as [n0 u0 ds0 pc0].
      unfold drawn, built, set_next_msg, set_uuids_drawn, set_pos_cache.
      cbn [next_msg uuids_drawn devices_staged pos_cache app fmap list_fmap stamped
           draft command obj args kwargs Nat.add].
      do 3 f_equal. unfold cache_after. f_equal; lia.
Qed.

Lemma one_nd_step_run k detectors step vs s :
  length vs = length (one_nd_step_msgs uuid4 separate_devices has_trigger detectors step
                        (pos_cache s) (uuids_drawn s)) →
  observed (run k (_one_nd_step uuid4 separate_devices has_trigger detectors step)
                (Send VNone :: (Send <$> vs)) s)
  = Some ((Yielded <$> stamped (next_msg s)
             (one_nd_step_msgs uuid4 separate_devices has_trigger detectors step
                (pos_cache s) (uuids_drawn s)))
          ++ [Returned VNone],
          set_pos_cache (cache_after step (pos_cache s))
            (built (length (one_nd_step_msgs uuid4 separate_devices has_trigger
                              detectors step (pos_cache s) (uuids_drawn s)))
                   (drawn (S (length step)) s))).
Proof.
  unfold _one_nd_step, one_nd_step_msgs.
  set (moves := nd_moves uuid4 step (pos_cache s) (uuids_drawn s)).
  set (tmsgs := trigger_and_read_msgs uuid4 separate_devices has_trigger
                  (detectors ++ (fst <$> step)) (length step + uuids_drawn s)).
  cbn [app length]. rewrite length_app. intros Hlen.
  destruct vs as [|v0 vs]; [done|].
  assert (length vs = length moves + length tmsgs) as Hlen' by (by injection Hlen).
  destruct (split_responses _ _ _ Hlen') as (vs1 & vs2 & -> & H1 & H2).
  cbn [fmap list_fmap]. rewrite run_yield_new, Send_app.
  rewrite (nd_move_loop_run k step _ vs1 (Send <$> vs2) (built 1 s)) by exact H1.
  change (nd_moves uuid4 step (pos_cache (built 1 s)) (uuids_drawn (built 1 s)))
    with moves.
  rewrite <- (app_nil_r (Send <$> vs2)).
  set (s1 := set_pos_cache (cache_after step (pos_cache (built 1 s)))
               (built (length moves) (drawn (length step) (built 1 s)))).
  rewrite (run_yield_from_gen k _ _ _ (Send <$> vs2) [] s1
             (Yielded <$> stamped (next_msg s1) tmsgs) (Returned VNone)
             (built (length tmsgs) (drawn 1 s1)));
    [| | |by intros [??]|].
  - rewrite !prepend_app. clearbody moves tmsgs. subst s1.
    destruct s as [n0 u0 ds0 pc0].
    unfold drawn, built, set_next_msg, set_uuids_drawn, set_pos_cache. cbn.
    rewrite stamped_app, fmap_app. do 2 f_equal. f_equal. lia.
  - rewrite (trigger_and_read_run uuid4 separate_devices has_trigger k
               (detectors ++ (fst <$> step)) vs2 s1); [done|].
    exact H2.
  - by rewrite !length_fmap, stamped_length.
  - apply Forall_fmap, Forall_forall. by intros ???.
Qed.

Lemma nd_moves_cached step :
  ∀ (cache : gmap nat Z) u,
    (∀ motor pos, (motor, pos) ∈ step → cache !! motor = Some pos) →
    nd_moves uuid4 step cache u = [].
Proof.
  induction step as [|[motor pos] step IH]; intros cache u Hc; [done|].
  cbn [nd_moves].
  assert (cache !! motor = Some pos) as Hm by (apply Hc; by left).
  rewrite bool_decide_eq_true_2 by done. rewrite (insert_id _ _ _ Hm).
  cbn [app]. apply IH. intros m p Hin. apply Hc. by right.
Qed.

Lemma cache_after_lookup step :
  ∀ (cache : gmap nat Z) motor pos,
    NoDup (fst <$> step) → (motor, pos) ∈ step →
    cache_after step cache !! motor = Some pos.
Proof.
  assert (∀ (st : list (nat * Z)) (cache : gmap nat Z) motor,
            motor ∉ (fst <$> st) →
            cache_after st cache !! motor = cache !! motor) as Hother.
  { clear. induction st as [|[m p] st IH]; intros cache motor Hnot; [done|].
    cbn in Hnot |- *. apply not_elem_of_cons in Hnot as [Hne Hnot].
    unfold cache_after in IH. rewrite IH by done. by rewrite lookup_insert_ne. }
  induction step as [|[m p] step IH]; intros cache motor pos Hnd Hin.
  { by apply elem_of_nil in Hin. }
  cbn in Hnd. apply NoDup_cons in Hnd as [Hnot Hnd].
  apply elem_of_cons in Hin as [Heq|Hin].
  - injection Heq as -> ->. cbn. fold (cache_after step (<[m := p]> cache)).
    rewrite Hother by done. by rewrite lookup_insert_eq.
  - cbn. by apply IH.
Qed.
End NdStepFacts.

(** X10: [trigger_and_read] triggers, under one new group, the devices that
    have a [trigger], waits for the group, reads every device and completes
    with [None].  The triggers go over [separate_devices] applied twice,
    the reads over [separate_devices] applied once. *)
Theorem trigger_and_read_sequence
    (uuid4 : nat → string) (separate_devices : list nat → list nat)
    (has_trigger : nat → bool) k devices vs s :
  length vs = length (trigger_and_read_msgs uuid4 separate_devices has_trigger devices
                        (uuids_drawn s)) →
  observed (run k (trigger_and_read uuid4 separate_devices has_trigger devices)
                (Send VNone :: (Send <$> vs)) s)
  = Some ((Yielded <$> stamped (next_msg s)
             (trigger_and_read_msgs uuid4 separate_devices has_trigger devices
                (uuids_drawn s)))
          ++ [Returned VNone],
          built (length (trigger_and_read_msgs uuid4 separate_devices has_trigger devices
                           (uuids_drawn s)))
                (drawn 1 s)).
Proof. apply trigger_and_read_run. Qed.

(** X11: [_step_scan_core] runs [per_step] for each step in turn and
    completes with the completion value of the last step; with no steps
    it raises [UnboundLocalError] at once, because [ret] was never
    assigned. *)
Theorem step_scan_core_returns_last
    (uuid4 : nat → string) (separate_devices : list nat → list nat)
    (has_trigger : nat → bool) k per_step detectors motor steps s script tr vs s' :
  in_turn k (per_step detectors motor <$> steps) s script tr vs s' →
  observed (run k (_step_scan_core uuid4 separate_devices has_trigger detectors motor
                     steps (Some per_step))
                (Send VNone :: script) s)
  = Some (tr ++ [match last vs with
                 | Some v => Returned v
                 | None => Raised UnboundLocalError
                 end], s').
Proof.
  intros H.
  pose proof (step_scan_loop_run k per_step detectors motor steps _ _ _ _ _ None H) as Hx.
  etrans; [exact Hx|]. by destruct (last vs).
Qed.

(** X12: with the default [per_step], a scan over [steps] yields for every
    step ['checkpoint'], ['set'] of the motor to the step under a new
    group, ['wait'] for that group, and then the messages of
    [trigger_and_read] for the detectors and the motor; it completes with
    [None], and raises [UnboundLocalError] when [steps] is empty. *)
Theorem step_scan_default_sequence
    (uuid4 : nat → string) (separate_devices : list nat → list nat)
    (has_trigger : nat → bool) k detectors motor steps vs s :
  length vs = length (step_scan_msgs uuid4 separate_devices has_trigger detectors motor
                        steps (uuids_drawn s)) →
  observed (run k (_step_scan_core uuid4 separate_devices has_trigger detectors motor
                     steps None)
                (Send VNone :: (Send <$> vs)) s)
  = Some ((Yielded <$> stamped (next_msg s)
             (step_scan_msgs uuid4 separate_devices has_trigger detectors motor
                steps (uuids_drawn s)))
          ++ [match steps with
              | [] => Raised UnboundLocalError
              | _ :: _ => Returned VNone
              end],
          built (length (step_scan_msgs uuid4 separate_devices has_trigger detectors
                           motor steps (uuids_drawn s)))
                (drawn (2 * length steps) s)).
Proof.
  intros H.
  pose proof (step_scan_default_run uuid4 separate_devices has_trigger k detectors motor
                steps None vs s H) as Hx.
  etrans; [exact Hx|]. by destruct steps.
Qed.

(** X13: [_one_nd_step] yields ['checkpoint'], then for every motor of the
    step whose position differs from the one in [pos_cache] a ['set'] to
    the position under a new group and a ['wait'] for that group, then the
    messages of [trigger_and_read] for the detectors and the motors; it
    completes with [None] and leaves the position of every motor of the
    step in [pos_cache]. *)
Theorem one_nd_step_sequence
    (uuid4 : nat → string) (separate_devices : list nat → list nat)
    (has_trigger : nat → bool) k detectors step vs s :
  length vs = length (one_nd_step_msgs uuid4 separate_devices has_trigger detectors step
                        (pos_cache s) (uuids_drawn s)) →
  observed (run k (_one_nd_step uuid4 separate_devices has_trigger detectors step)
                (Send VNone :: (Send <$> vs)) s)
  = Some ((Yielded <$> stamped (next_msg s)
             (one_nd_step_msgs uuid4 separate_devices has_trigger detectors step
                (pos_cache s) (uuids_drawn s)))
          ++ [Returned VNone],
          set_pos_cache (cache_after step (pos_cache s))
            (built (length (one_nd_step_msgs uuid4 separate_devices has_trigger
                              detectors step (pos_cache s) (uuids_drawn s)))
                   (drawn (S (length step)) s)))
  ∧ (NoDup (fst <$> step) →
     ∀ motor pos, (motor, pos) ∈ step →
       cache_after step (pos_cache s) !! motor = Some pos).
Proof.
  intros Hlen. split; [by apply one_nd_step_run|].
  intros Hnd motor pos Hin. by apply cache_after_lookup.
Qed.

(** X14: a step that asks for the positions [pos_cache] already holds moves
    nothing: [_one_nd_step] yields ['checkpoint'] and the messages of
    [trigger_and_read] only, and [pos_cache] stays as it is. *)
Theorem one_nd_step_skips_cached
    (uuid4 : nat → string) (separate_devices : list nat → list nat)
    (has_trigger : nat → bool) k detectors step vs s :
  (∀ motor pos, (motor, pos) ∈ step → pos_cache s !! motor = Some pos) →
  length vs = S (length (trigger_and_read_msgs uuid4 separate_devices has_trigger
                           (detectors ++ (fst <$> step)) (length step + uuids_drawn s))) →
  (λ x, x.1) <$>
    observed (run k (_one_nd_step uuid4 separate_devices has_trigger detectors step)
                  (Send VNone :: (Send <$> vs)) s)
  = Some ((Yielded <$> stamped (next_msg s)
             (draft "checkpoint" None [] []
              :: trigger_and_read_msgs uuid4 separate_devices has_trigger
                   (detectors ++ (fst <$> step)) (length step + uuids_drawn s)))
          ++ [Returned VNone]).
Proof.
  intros Hcached Hlen.
  rewrite (one_nd_step_run uuid4 separate_devices has_trigger k detectors step vs s).
  - unfold one_nd_step_msgs. by rewrite (nd_moves_cached uuid4 step _ _ Hcached).
  - unfold one_nd_step_msgs. by rewrite (nd_moves_cached uuid4 step _ _ Hcached).
Qed.

(** ** More about the engine *)

(** X15: when the caller throws an exception into the paused engine and the
    root plan answers it with a further message, the caller never gets
    that message: the engine drops it, finds its stack of results empty
    and throws [IndexError] into the root plan, and what the root plan
    raises then reaches the caller. *)
Theorem recovery_message_is_lost
    {W F : Type} `{!Generator W F} {I : Interpreter}
    (msg_proc : Msg → W → proc_result F * W)
    k (l : locals F) (w : W) ex p m' p1 w1 e2 p2 w2 :
  is_Exception ex = true →
  result_stack l = [] →
  gens l !! plan_id = Some p →
  resume_gen (S k) p (Throw ex) w = Some (Yielded m', p1, w1) →
  resume_gen k p1 (Throw (IndexError "pop from an empty deque")) w1
    = Some (Raised e2, p2, w2) →
  resume_gen (S k) (MSuspended l msg_proc) (Throw ex) w
    = Some (Raised e2, MFinished, w2).
Proof.
  intros Hex Hrs Hp Hthrow Hindex.
  change (resume_gen (S k) (MSuspended l msg_proc) (Throw ex) w)
    with (settle msg_proc
            (resume_loop msg_proc (S k) (on_exception (S k) l ex w))).
  unfold on_exception, except_Exception. rewrite Hex, Hp, Hthrow.
  cbn [resume_loop loop]. unfold iteration.
  destruct l as [gs nx seen ps rs tc trc]. cbn in Hrs, Hp. subst rs.
  simpl_locals. cbn [on_exception is_Exception].
  unfold on_exception, except_Exception. cbn [is_Exception]. simpl_locals.
  rewrite lookup_insert_eq, Hindex. reflexivity.
Qed.

(** ** Splices of [lazily_stage] and [fly_during] *)

Section ListPlays.
Context {W F : Type} `{!Generator W F} `{!Interpreter}.
Variable msg_proc : Msg → W → proc_result F * W.
(** How a generator function object sits in the deque. *)
Variable emb : gen W → F.
Hypothesis Hemb :
  ∀ n g r w, resume_gen n (emb g) r w
             = Some ((gen_resume g r w).1.1, emb (gen_resume g r w).1.2,
                     (gen_resume g r w).2).


End ListPlays.






(** ** [planify] *)

Section PlanifyFacts.
Context {W : Type} `{!Interpreter}.

Lemma run_WrRunning k (g : gen W) script (w : W) :
  observed (run k (WrRunning g) script w) = observed (run k g script w).
Proof.
  revert g w. induction script as [|r script IH]; intros g w; [done|].
  rewrite !run_cons.
  change (resume_gen k (WrRunning g) r w)
    with (let '(o, g, w) := gen_resume g r w in Some (o, WrRunning g, w)).
  change (resume_gen k g r w) with (Some (gen_resume g r w)).
  destruct (gen_resume g r w) as [[[m|v|e] g1] w1]; try done.
  specialize (IH g1 w1).
  destruct (run k (WrRunning g1) script w1) as [[[??]?]|],
           (run k g1 script w1) as [[[??]?]|]; cbn in IH |- *; congruence.
Qed.

Lemma run_planify k func gen_stack script (w w1 : W) :
  func k w = Some (inr gen_stack, w1) →
  observed (run k (planify func) (Send VNone :: script) w)
  = observed (run k (Fresh (planify_loop gen_stack)) (Send VNone :: script) w1).
Proof.
  intros Hfunc. rewrite !run_cons.
  change (resume_gen k (planify func) (Send VNone) w)
    with (wrapped_resume k (WrFresh func) (Send VNone) w).
  cbn [wrapped_resume]. rewrite Hfunc.
  change (resume_gen k (Fresh (planify_loop gen_stack)) (Send VNone) w1)
    with (Some (gen_resume (Fresh (planify_loop gen_stack)) (Send VNone) w1)).
  destruct (gen_resume (Fresh (planify_loop gen_stack)) (Send VNone) w1)
    as [[[m|v|e] g1] w2]; try done.
  pose proof (run_WrRunning k g1 script w2) as IH.
  destruct (run k (WrRunning g1) script w2) as [[[??]?]|],
           (run k g1 script w2) as [[[??]?]|]; cbn in IH |- *; congruence.
Qed.

Lemma planify_loop_run k (gen_stack : list (gen W)) w script tr vs w' :
  in_turn k gen_stack w script tr vs w' →
  observed (run k (Fresh (planify_loop gen_stack)) (Send VNone :: script) w)
  = Some (tr ++ [Returned VNone], w').
Proof.
  induction 1 as [w|g gs w script tr v w1 script' tr' vs w2 Hrun Hlen Hscript _ IH].
  - done.
  - cbn [planify_loop].
    rewrite (run_yield_from_gen k g _ _ script script' w tr (Returned v) w1 Hrun Hlen);
      [|by intros [??]|done].
    rewrite IH. cbn. by rewrite <- !app_assoc.
Qed.
End PlanifyFacts.

(** X19: a plan made by [planify] calls the function when it is first
    resumed and then runs the generators the function returned in turn,
    each getting the responses to its own messages; the completion values
    are dropped and the plan completes with [None]. *)
Theorem planify_runs_in_turn {W : Type} {I : Interpreter}
    k func (gen_stack : list (gen W)) (w w1 : W) script tr vs w2 :
  func k w = Some (inr gen_stack, w1) →
  in_turn k gen_stack w1 script tr vs w2 →
  observed (run k (planify func) (Send VNone :: script) w)
  = Some (tr ++ [Returned VNone], w2).
Proof.
  intros Hfunc Hturn.
  rewrite (run_planify k func gen_stack script w w1 Hfunc).
  by eapply planify_loop_run.
Qed.

(** ** [count] *)

Lemma anonymous_stamped n msgs :
  Forall (λ m, mid m = 0) msgs →
  anonymous <$> (Yielded <$> stamped n msgs) = Yielded <$> msgs.
Proof.
  intros H. revert n. induction H as [|m msgs Hm _ IH]; intros n; [done|].
  cbn. rewrite IH. destruct m; cbn in Hm; by subst.
Qed.

Lemma emits_single_gen k (m : Msg) u :
  emits k (single_gen m) u [draft (command m) (obj m) (args m) (kwargs m)] 0.
Proof.
  intros s vs Hu Hlen. destruct vs as [|v [|??]]; try done.
  by exists [Yielded m], VNone, s.
Qed.

Lemma emits_broadcast k command objs u :
  emits k (Fresh (yield_from_gen (broadcast_msg command objs [] [])
                                 (fun _ => Return VNone) Raise))
        u ((λ o, draft command (Some o) [] []) <$> objs) 0.
Proof.
  intros s vs Hu Hlen. rewrite length_fmap in Hlen.
  exists (Yielded <$> stamped (next_msg s) ((λ o, draft command (Some o) [] []) <$> objs)),
    VNone, (built (length objs) s).
  split_and!.
  - rewrite <- (app_nil_r (Send <$> vs)).
    rewrite (run_yield_from_gen k _ _ _ (Send <$> vs) [] s _ (Returned (VTuple vs)) _
               (broadcast_msg_run_aux k command objs vs s Hlen));
      [done| |by intros [??]|].
    + by rewrite !length_fmap, stamped_length, length_fmap.
    + apply Forall_fmap, Forall_forall. by intros ???.
  - apply anonymous_stamped, Forall_fmap, Forall_forall. by intros ??.
  - done.
Qed.

Section CountFacts.
Variable uuid4 : nat → string.
Variable separate_devices : list nat → list nat.
Variable has_trigger : nat → bool.
Variable root_of : nat → nat.
Variable name_of : nat → string.
Variable repr_of : nat → string.
Context `{!Interpreter}.

Lemma emits_trigger_and_read k devices u :
  emits k (trigger_and_read uuid4 separate_devices has_trigger devices) u
        (trigger_and_read_msgs uuid4 separate_devices has_trigger devices u) 1.
Proof.
  intros s vs <- Hlen.
  eexists _, VNone, _. split_and!.
  - by apply trigger_and_read_run.
  - apply anonymous_stamped. unfold trigger_and_read_msgs.
    rewrite !Forall_app, !Forall_fmap. split_and!;
      try (apply Forall_forall; by intros ??). by repeat constructor.
  - done.
Qed.

Lemma emit_in_turn_app k gs1 u msgs1 u1 gs2 msgs2 u2 :
  emit_in_turn k gs1 u msgs1 u1 →
  emit_in_turn k gs2 u1 msgs2 u2 →
  emit_in_turn k (gs1 ++ gs2) u (msgs1 ++ msgs2) u2.
Proof.
  induction 1 as [u|g gs u msgs du msgs' u' Hg _ IH]; intros H2; [done|].
  cbn [app]. rewrite <- app_assoc. econstructor; [exact Hg|]. by apply IH.
Qed.

Lemma emit_in_turn_run k gs u msgs u' :
  emit_in_turn k gs u msgs u' →
  ∀ s vs, uuids_drawn s = u → length vs = length msgs →
    ∃ tr s', observed (run k (Fresh (planify_loop gs)) (Send VNone :: (Send <$> vs)) s)
               = Some (tr ++ [Returned VNone], s')
             ∧ anonymous <$> tr = Yielded <$> msgs.
Proof.
  induction 1 as [u|g gs u msgs du msgs' u' Hg _ IH]; intros s vs Hu Hlen.
  - destruct vs; [|done]. by exists [], s.
  - rewrite length_app in Hlen.
    destruct (split_responses _ _ _ Hlen) as (vs1 & vs2 & -> & H1 & H2).
    destruct (Hg s vs1 Hu H1) as (tr1 & v & s1 & Hrun1 & Htr1 & Hu1).
    destruct (IH s1 vs2 Hu1 H2) as (tr2 & s2 & Hrun2 & Htr2).
    exists (tr1 ++ tr2), s2. split.
    + cbn [planify_loop]. rewrite Send_app.
      rewrite (run_yield_from_gen k g _ _ (Send <$> vs1) (Send <$> vs2) s tr1
                 (Returned v) s1 Hrun1); [|..|by intros [??]|].
      * rewrite Hrun2. cbn. by rewrite <- app_assoc.
      * apply (f_equal length) in Htr1. rewrite !length_fmap in Htr1.
        rewrite length_fmap. lia.
      * apply Forall_fmap, Forall_forall. by intros ???.
    + by rewrite !fmap_app, Htr1, Htr2.
Qed.

Lemma emit_pass_gens k detectors d n :
  ∀ i u, emit_in_turn k (pass_gens uuid4 separate_devices has_trigger detectors d n i) u
           (count_passes uuid4 separate_devices has_trigger detectors d n u) (n + u).
Proof.
  induction n as [|n IH]; intros i u; [constructor|].
  cbn [pass_gens count_passes]. unfold count_pass.
  match goal with
  | |- emit_in_turn _ _ _ ((?x ++ ?t ++ ?sv ++ ?sl) ++ ?r) _ =>
      replace ((x ++ t ++ sv ++ sl) ++ r) with ((x ++ t ++ sv) ++ (sl ++ r))
        by (by rewrite <- !app_assoc)
  end.
  apply emit_in_turn_app with (u1 := S u).
  - apply (emit_cons k _ _ _ [_] 0); [apply emits_single_gen|].
    apply (emit_cons k _ _ _ [_] 0); [apply emits_single_gen|].
    eapply (emit_cons k _ _ _ _ 1); [apply emits_trigger_and_read|].
    rewrite <- (app_nil_r [draft "save" None [] []]).
    apply (emit_cons k _ _ _ [_] 0); [apply emits_single_gen|]. constructor.
  - replace (S n + u) with (n + S u) by lia.
    destruct d; try apply IH;
      (apply (emit_cons k _ _ _ [_] 0); [apply emits_single_gen|apply IH]).
Qed.

Lemma count_loop_builds detectors d n :
  ∀ fuel plan_stack s,
    n < fuel →
    count_loop uuid4 separate_devices has_trigger fuel detectors (Some n) (inl d)
               plan_stack s
    = Some (inr tt,
            plan_stack
            ++ pass_gens uuid4 separate_devices has_trigger detectors d n (next_msg s),
            built (n * built_per_pass d) s).
Proof.
  induction n as [|n IH]; intros fuel plan_stack s Hfuel;
    (destruct fuel as [|fuel]; [lia|]).
  - cbn. by rewrite app_nil_r, built_0.
  - cbn [count_loop event_context session_Msg next_delay fmap option_fmap option_map pred].
    destruct s as [n0 u0 ds0 pc0].
    destruct d; cbn [session_Msg next_msg set_next_msg uuids_drawn devices_staged pos_cache];
      rewrite IH by lia;
      cbn [pass_gens built_per_pass next_msg Nat.add]; rewrite <- ?app_assoc; cbn [app];
      unfold built, set_next_msg; cbn [next_msg uuids_drawn devices_staged pos_cache];
      do 2 f_equal; f_equal; lia.
Qed.

Lemma count_loop_runs_dry detectors ds :
  ∀ fuel counter plan_stack s,
    length ds < fuel →
    match counter with Some n => length ds < n | None => True end →
    ∃ plan_stack' s',
      count_loop uuid4 separate_devices has_trigger fuel detectors counter (inr ds)
                 plan_stack s
      = Some (inl StopIteration, plan_stack', s').
Proof.
  induction ds as [|d ds IH]; intros fuel counter plan_stack s Hfuel Hn;
    (destruct fuel as [|fuel]; [cbn in Hfuel; lia|]).
  - cbn [count_loop event_context session_Msg next_delay].
    destruct counter as [[|n]|]; [cbn in Hn; lia|eauto..].
  - cbn [count_loop event_context session_Msg next_delay].
    assert (∀ ps s0, ∃ ps' s',
              count_loop uuid4 separate_devices has_trigger fuel detectors
                         (pred <$> counter) (inr ds) ps s0
              = Some (inl StopIteration, ps', s')) as Hrest.
    { intros ps s0. apply IH; [cbn in Hfuel; lia|].
      destruct counter as [[|n]|]; cbn in Hn |- *; [lia|lia|done]. }
    destruct counter as [[|n]|]; [cbn in Hn; lia|..];
      destruct d; cbn [session_Msg]; apply Hrest.
Qed.

Lemma count_loop_never_ends detectors d fuel :
  ∀ plan_stack s,
    count_loop uuid4 separate_devices has_trigger fuel detectors None (inl d)
               plan_stack s = None.
Proof.
  induction fuel as [|fuel IH]; intros plan_stack s; [done|].
  cbn [count_loop event_context session_Msg next_delay fmap option_fmap option_map].
  destruct d; cbn [session_Msg]; apply IH.
Qed.
End CountFacts.

(** X20: [count] with [num] readings and a scalar [delay] stages the root of
    every detector, opens a run with the metadata, then [num] times yields
    ['checkpoint'], ['create'], the messages of [trigger_and_read] for the
    detectors, ['save'] and, unless [delay] is [None], ['sleep'] with the
    delay; then it closes the run, unstages the roots in reverse order
    and completes with [None]. *)
Theorem count_sequence
    (uuid4 : nat → string) (separate_devices : list nat → list nat)
    (has_trigger : nat → bool) (root_of : nat → nat) (name_of repr_of : nat → string)
    {I : Interpreter} k detectors n d md vs s :
  n < k →
  length vs = length (count_msgs uuid4 separate_devices has_trigger root_of name_of
                        repr_of detectors n d md (uuids_drawn s)) →
  ∃ tr s',
    observed (run k (count uuid4 separate_devices has_trigger root_of name_of repr_of
                       detectors (Some n) (inl d) md)
                  (Send VNone :: (Send <$> vs)) s)
      = Some (tr ++ [Returned VNone], s')
    ∧ anonymous <$> tr
      = Yielded <$> count_msgs uuid4 separate_devices has_trigger root_of name_of
                      repr_of detectors n d md (uuids_drawn s).
Proof.
  intros Hk Hlen.
  set (md' := count_md name_of repr_of detectors (Some n) md).
  set (open := mkMsg (next_msg s) "open_run" None [] md').
  set (close := mkMsg (n * built_per_pass d + S (next_msg s)) "close_run" None [] []).
  set (stage := Fresh (yield_from_gen (broadcast_msg "stage" (root_of <$> detectors) [] [])
                                      (fun _ => Return VNone) Raise) : gen session).
  set (unstage :=
         Fresh (yield_from_gen
                  (broadcast_msg "unstage" (reverse (root_of <$> detectors)) [] [])
                  (fun _ => Return VNone) Raise) : gen session).
  set (gen_stack :=
         [stage; single_gen open]
         ++ pass_gens uuid4 separate_devices has_trigger detectors d n (S (next_msg s))
         ++ [single_gen close; unstage]).
  assert (emit_in_turn k gen_stack (uuids_drawn s)
            (count_msgs uuid4 separate_devices has_trigger root_of name_of repr_of
               detectors n d md (uuids_drawn s))
            (n + uuids_drawn s)) as Hturn.
  { unfold count_msgs, gen_stack.
    apply (emit_cons k _ _ _ _ 0); [apply emits_broadcast|].
    apply (emit_cons k _ _ _ [_] 0); [apply emits_single_gen|].
    eapply emit_in_turn_app; [apply emit_pass_gens|].
    apply (emit_cons k _ _ _ [_] 0); [apply emits_single_gen|].
    rewrite <- (app_nil_r (_ <$> reverse _)).
    apply (emit_cons k _ _ _ _ 0); [apply emits_broadcast|]. constructor. }
  destruct (emit_in_turn_run k gen_stack _ _ _ Hturn
              (built (S (S (n * built_per_pass d))) s) vs eq_refl Hlen)
    as (tr & s' & Hrun & Htr).
  exists tr, s'. split; [|exact Htr].
  rewrite <- Hrun.
  apply (run_planify k _ gen_stack (Send <$> vs) s
           (built (S (S (n * built_per_pass d))) s)).
  unfold stage_context, run_context. cbn [session_Msg default].
  rewrite (count_loop_builds uuid4 separate_devices has_trigger detectors d n k _ _ Hk).
  cbn [session_Msg]. subst gen_stack stage unstage open close md'.
  destruct s as [n0 u0 ds0 pc0]. unfold built, set_next_msg.
  cbn [next_msg uuids_drawn devices_staged pos_cache default from_option id].
  rewrite <- !app_assoc. cbn [app].
  replace (S (n * built_per_pass d + S n0)) with (S (S (n * built_per_pass d)) + n0)
    by lia.
  done.
Qed.

(** X21: when [delay] is an iterable with fewer entries than readings are
    asked for ([num] larger, or [None]), the [StopIteration] of
    [next(delay)] leaves the function while the deque is being made: the
    plan yields no message at all, and ends at once, with a
    [RuntimeError] under PEP 479 and silently before. *)
Theorem count_delay_runs_out
    (uuid4 : nat → string) (separate_devices : list nat → list nat)
    (has_trigger : nat → bool) (root_of : nat → nat) (name_of repr_of : nat → string)
    {I : Interpreter} k detectors num ds md s :
  length ds < k →
  match num with Some n => length ds < n | None => True end →
  ∃ s',
    resume_gen k (count uuid4 separate_devices has_trigger root_of name_of repr_of
                    detectors num (inr ds) md)
               (Send VNone) s
    = Some (if pep479
            then Raised (RuntimeError "generator raised StopIteration")
            else Returned VNone,
            WrRunning Finished, s').
Proof.
  intros Hk Hnum.
  change (resume_gen k (count uuid4 separate_devices has_trigger root_of name_of repr_of
                          detectors num (inr ds) md) (Send VNone) s)
    with (wrapped_resume k
            (count uuid4 separate_devices has_trigger root_of name_of repr_of
               detectors num (inr ds) md) (Send VNone) s).
  unfold count, planify. cbn [wrapped_resume].
  unfold stage_context, run_context. cbn [session_Msg default].
  match goal with
  | |- context [count_loop _ _ _ k detectors num (inr ds) ?ps ?s0] =>
      destruct (count_loop_runs_dry uuid4 separate_devices has_trigger detectors ds k num
                  ps s0 Hk Hnum) as (ps' & s' & ->)
  end.
  exists s'. by destruct pep479.
Qed.

(** X22: with [num=None] and a scalar [delay] the loop that fills the deque
    never ends: the plan does not get as far as its first message,
    whatever the number of steps allowed. *)
Theorem count_without_num_never_starts
    (uuid4 : nat → string) (separate_devices : list nat → list nat)
    (has_trigger : nat → bool) (root_of : nat → nat) (name_of repr_of : nat → string)
    {I : Interpreter} k detectors d md s :
  resume_gen k (count uuid4 separate_devices has_trigger root_of name_of repr_of
                  detectors None (inl d) md)
             (Send VNone) s
  = None.
Proof.
  change (resume_gen k (count uuid4 separate_devices has_trigger root_of name_of repr_of
                          detectors None (inl d) md) (Send VNone) s)
    with (wrapped_resume k
            (count uuid4 separate_devices has_trigger root_of name_of repr_of
               detectors None (inl d) md) (Send VNone) s).
  unfold count, planify. cbn [wrapped_resume].
  unfold stage_context, run_context. cbn [session_Msg default].
  by rewrite count_loop_never_ends.
Qed.

(** ** [caching_repeater] *)

Section CachingRepeaterFacts.
Context {W G : Type} `{!Generator W G} `{!Monotone W G}.

Lemma list_plan_collects k msgs :
  ∀ (plan : G) (w : W) v plan' w' acc,
    run k plan (replicate (S (length msgs)) (Send VNone)) w
      = Some ((Yielded <$> msgs) ++ [Returned v], plan', w') →
    list_plan (k + S (length msgs)) plan acc w = Some (inr (acc ++ msgs), w').
Proof.
  induction msgs as [|m msgs IH]; intros plan w v plan' w' acc Hrun.
  - cbn [length replicate] in Hrun. rewrite run_cons in Hrun.
    destruct (resume_gen k plan (Send VNone) w) as [[[o p1] w1]|] eqn:Hr; [|done].
    replace (k + S (length [])) with (S k) by (cbn; lia). cbn [list_plan].
    rewrite Hr. destruct o; cbn in Hrun; simplify_eq/=. by rewrite app_nil_r.
  - cbn [length replicate] in Hrun. rewrite run_cons in Hrun.
    destruct (resume_gen k plan (Send VNone) w) as [[[o p1] w1]|] eqn:Hr; [|done].
    replace (k + S (length (m :: msgs))) with (S (k + S (length msgs))) by (cbn; lia).
    cbn [list_plan].
    rewrite (more_fuel k (k + S (length msgs)) _ _ _ _ Hr ltac:(lia)).
    destruct o as [m'|?|?]; cbv beta iota in Hrun; [|by simplify_eq/=..].
    destruct (run k p1 (Send VNone :: replicate (length msgs) (Send VNone)) w1)
      as [[[tr p2] w2]|] eqn:Hrest; [|done].
    rewrite fmap_cons in Hrun. cbn [app] in Hrun. injection Hrun as -> -> -> ->.
    rewrite (IH p1 w1 v plan' w' (acc ++ [m])).
    + by rewrite <- app_assoc.
    + exact Hrest.
Qed.

Lemma next_cached_nothing copies (w : W) :
  next_cached (G:=G) [] [] copies w = (Returned VNone, CrDone, w).
Proof. induction copies as [|copies IH]; [done|]. exact IH. Qed.

Lemma cached_run k lst todo :
  ∀ current copies v vs (w : W),
    current ++ concat (replicate copies lst) = todo →
    length vs = length todo →
    observed (run k (CrRunning (G:=G) current lst copies) (Send v :: (Send <$> vs)) w)
    = Some ((Yielded <$> todo) ++ [Returned VNone], w).
Proof.
  induction todo as [|m todo IH]; intros current copies v vs w Htodo Hlen.
  - destruct vs; [|done]. apply app_eq_nil in Htodo as [-> Hcopies].
    rewrite run_cons.
    change (resume_gen k (CrRunning [] lst copies) (Send v) w)
      with (Some (next_cached (G:=G) [] lst copies w)).
    destruct copies as [|copies]; [done|].
    cbn [replicate concat] in Hcopies. apply app_eq_nil in Hcopies as [-> _].
    by rewrite next_cached_nothing.
  - destruct vs as [|v' vs]; [done|]. rewrite fmap_cons, run_cons.
    change (resume_gen k (CrRunning current lst copies) (Send v) w)
      with (Some (next_cached (G:=G) current lst copies w)).
    assert (∃ current' copies',
              next_cached (G:=G) current lst copies w
                = (Yielded m, CrRunning current' lst copies', w)
              ∧ current' ++ concat (replicate copies' lst) = todo)
      as (current' & copies' & -> & Hrest).
    { destruct current as [|m0 current].
      - cbn [app] in Htodo.
        induction copies as [|copies IHc]; [done|].
        cbn [replicate concat] in Htodo. cbn [next_cached].
        destruct lst as [|m0 rest].
        + apply IHc. exact Htodo.
        + injection Htodo as -> Htodo. by exists rest, copies.
      - injection Htodo as -> Htodo. exists current, copies.
        split; [|done]. by destruct copies. }
    cbv beta iota.
    pose proof (IH current' copies' v' vs w Hrest ltac:(by injection Hlen)) as Hrun.
    destruct (run k (CrRunning current' lst copies') (Send v' :: (Send <$> vs)) w)
      as [[[tr g] w2]|]; [|done].
    cbn in Hrun |- *. by simplify_eq.
Qed.
End CachingRepeaterFacts.

(** X23: [caching_repeater] runs the plan to its end when it is first
    resumed, with [None] as every response, before it yields anything;
    it then yields the messages collected, the same objects, [n] times
    over, whatever the caller responds, and completes with [None]. *)
Theorem caching_repeater_replays {W G : Type} `{!Generator W G} `{!Monotone W G}
    k n (plan : G) (w : W) msgs v plan' w' vs :
  run k plan (replicate (S (length msgs)) (Send VNone)) w
    = Some ((Yielded <$> msgs) ++ [Returned v], plan', w') →
  length vs = n * length msgs →
  observed (run (k + S (length msgs)) (caching_repeater n plan)
                (Send VNone :: (Send <$> vs)) w)
  = Some ((Yielded <$> concat (replicate n msgs)) ++ [Returned VNone], w').
Proof.
  intros Hplan Hlen.
  pose proof (list_plan_collects k msgs plan w v plan' w' [] Hplan) as Hlist.
  rewrite <- (cached_run (G:=G) (k + S (length msgs)) msgs (concat (replicate n msgs))
                [] n VNone vs w' eq_refl).
  - rewrite !run_cons.
    change (resume_gen (k + S (length msgs)) (caching_repeater n plan) (Send VNone) w)
      with (caching_repeater_resume (k + S (length msgs)) (CrFresh n plan)
              (Send VNone) w).
    cbn [caching_repeater_resume]. by rewrite Hlist.
  - rewrite Hlen. clear. induction n as [|n IH]; [done|].
    cbn. rewrite length_app. lia.
Qed.

(** ** [configure_count_time] *)

Section ConfigureCountTimeFacts.
Context {G : Type} `{!Generator session G} `{!Interpreter} `{!CountTimes}.

Lemma restore_run k remaining pending :
  Forall (λ ot, is_Some (count_time_of ot.1)) remaining →
  ∀ v vs s,
    length vs = length remaining →
    observed (run k (CtFinally (G:=G) remaining pending) (Send v :: (Send <$> vs)) s)
    = Some ((Yielded <$> stamped (next_msg s) (restore_msgs remaining))
            ++ [ending pending],
            built (length remaining) s).
Proof.
  induction 1 as [|[o t] remaining [signal Ho] _ IH]; intros v vs s Hlen.
  - destruct vs; [|done]. rewrite run_cons.
    change (resume_gen k (CtFinally [] pending) (Send v) s)
      with (Some (restore (G:=G) [] pending s)).
    cbn [restore]. rewrite built_0. unfold ending.
    destruct pending as [v0|e]; [destruct pep479|]; done.
  - destruct vs as [|v' vs]; [done|]. rewrite fmap_cons, run_cons.
    change (resume_gen k (CtFinally ((o, t) :: remaining) pending) (Send v) s)
      with (Some (restore (G:=G) ((o, t) :: remaining) pending s)).
    cbn [restore fst] in Ho |- *. rewrite Ho. cbn [session_Msg].
    pose proof (IH v' vs (built 1 s) ltac:(by injection Hlen)) as Hrun.
    change (set_next_msg (S (next_msg s)) s) with (built 1 s).
    destruct (run k (CtFinally remaining pending) (Send v' :: (Send <$> vs)) (built 1 s))
      as [[[tr g] s2]|]; [|done].
    cbn in Hrun |- *. injection Hrun as -> ->.
    rewrite Ho, built_built.
    by replace (length remaining + 1) with (S (length remaining)) by lia.
Qed.
End ConfigureCountTimeFacts.

(** X24: when the plan ends, [configure_count_time] yields a ['set'] message
    for every entry of [original_times], in the order the entries were
    made, with the time stashed; after that the [StopIteration] of
    [plan.send] leaves the generator, so that the statement [return ret]
    is never reached: before PEP 479 the generator completes with the
    completion value of the plan, under PEP 479 it raises
    [RuntimeError]. *)
Theorem configure_count_time_restores_at_end
    {G : Type} `{!Generator session G} {I : Interpreter} {D : CountTimes}
    k (plan : G) time devices_seen original_times ret s v plan' s1 vs :
  resume_gen k plan (Send ret) s = Some (Returned v, plan', s1) →
  Forall (λ ot, is_Some (count_time_of ot.1)) original_times →
  length vs = length original_times →
  observed (run k (CtAtMsg plan time devices_seen original_times)
                (Send ret :: (Send <$> vs)) s)
  = Some ((Yielded <$> stamped (next_msg s1) (restore_msgs original_times))
          ++ [if pep479
              then Raised (RuntimeError "generator raised StopIteration")
              else Returned v],
          built (length original_times) s1).
Proof.
  intros Hplan Hsome Hlen.
  change (if pep479 then Raised (RuntimeError "generator raised StopIteration")
          else Returned v) with (ending (ByStopIteration v)).
  rewrite <- (restore_run (G:=G) k original_times (ByStopIteration v)
                Hsome VNone vs s1 Hlen).
  rewrite !run_cons.
  change (resume_gen k (CtAtMsg plan time devices_seen original_times) (Send ret) s)
    with (forward k plan time ret devices_seen original_times s).
  unfold forward. by rewrite Hplan.
Qed.

(** X25: when the caller throws an exception into [configure_count_time]
    paused at a message of the plan, the plan is not told; the generator
    yields the ['set'] messages that restore the stashed times and then
    raises the exception. *)
Theorem configure_count_time_restores_on_exception
    {G : Type} `{!Generator session G} {I : Interpreter} {D : CountTimes}
    k (plan : G) time devices_seen original_times e s vs :
  Forall (λ ot, is_Some (count_time_of ot.1)) original_times →
  length vs = length original_times →
  observed (run k (CtAtMsg plan time devices_seen original_times)
                (Throw e :: (Send <$> vs)) s)
  = Some ((Yielded <$> stamped (next_msg s) (restore_msgs original_times))
          ++ [Raised e],
          built (length original_times) s).
Proof.
  intros Hsome Hlen.
  change (Raised e) with (ending (ByException e)).
  rewrite <- (restore_run (G:=G) k original_times (ByException e)
                Hsome VNone vs s Hlen).
  by rewrite !run_cons.
Qed.

(** ** [plan_mutator] with a rewrite that declines *)

(** X26: with a rewrite function that declines every message,
    [plan_mutator] yields the messages of the root plan, the same objects
    in the same order, hands every response to the root plan and ends
    when the root plan ends, raising what it raises; only the completion
    value is replaced by [None]. *)
Theorem pass_through_keeps_messages
    {W : Type} {I : Interpreter} (body : plan W) script (w : W) k :
  Forall is_Send script →
  4 ≤ k →
  ∃ tr a' w' E',
    run k (Fresh body) script w = Some (tr, a', w') ∧
    run k (plan_mutator (Fresh body) decline) script w = Some (star <$> tr, E', w') ∧
    (Forall is_Yielded tr → underlying_mutator E' = Some a').
Proof. apply decline_run. Qed.

(** ** Examples for the further facts *)

Lemma three_detectors_example :
  (∀ det, det ∈ DETS gs_0 → is_Some (count_time_0 !! det) →
     (_set_acquire_time gs_0 None count_time_0).2 !! det
       = Some (default (COUNT_TIME gs_0) None)) ∧
  _unset_acquire_time (_set_acquire_time gs_0 None count_time_0).1
                      (_set_acquire_time gs_0 None count_time_0).2
    = count_time_0.
Proof.
  apply (acquire_time_round_trip gs_0 None count_time_0).
  cbn. repeat (apply NoDup_cons; split; [rewrite ?elem_of_cons, elem_of_nil; lia|]).
  apply NoDup_nil_2.
Defined.

Lemma detector_twice_example :
  _unset_acquire_time (_set_acquire_time gs_1 (Some 9%Z) count_time_1).1
                      (_set_acquire_time gs_1 (Some 9%Z) count_time_1).2 !! 2
    = Some (default (COUNT_TIME gs_1) (Some 9%Z)).
Proof.
  apply (acquire_time_listed_twice gs_1 (Some 9%Z) count_time_1 [1] [3] [] 2 5%Z).
  - reflexivity.
  - reflexivity.
Defined.

Lemma dropped_open_run_example :
  ∃ D', run (S (0 + length [VNone; VInt 2])) (msg_mutator one_run (pure_proc keep_0))
            (Send VNone ::
             (Send <$> kept_responses keep_0
                         [Yielded open_run; Yielded close_run;
                          Returned (VTuple [VNone; VInt 2])]
                         [VNone; VInt 2])) tt
        = Some (kept_trace keep_0
                  [Yielded open_run; Yielded close_run;
                   Returned (VTuple [VNone; VInt 2])], D', tt).
Proof.
  apply (msg_mutator_trace keep_0 one_run [VNone; VInt 2] tt 0
           [Yielded open_run; Yielded close_run; Returned (VTuple [VNone; VInt 2])]
           Finished tt).
  - reflexivity.
  - simpl. split; [done|]. split; [|done]. intros H. discriminate H.
  - intros m H. discriminate H.
Defined.

Lemma two_devices_example :
  observed (run 0 (broadcast_msg "stage" [7; 8] [] [])
                (Send VNone :: (Send <$> [VInt 1; VInt 2])) s0)
  = Some ((Yielded <$> stamped (next_msg s0)
                         ((λ o, draft "stage" (Some o) [] []) <$> [7; 8]))
          ++ [Returned (VTuple [VInt 1; VInt 2])],
          built (length [7; 8]) s0).
Proof. apply (broadcast_msg_collects_responses 0 "stage" [7; 8] [] []). reflexivity. Defined.

Lemma two_in_turn :
  in_turn 0 [cleanup_plan; answer_plan] tt
          ([Send (VInt 1)] ++ [Send (VInt 2)] ++ [])
          ([Yielded close_run] ++ [Yielded checkpoint] ++ [])
          [VNone; VInt 42] tt.
Proof.
  eapply in_turn_cons; [reflexivity|reflexivity|by repeat constructor|].
  eapply in_turn_cons; [reflexivity|reflexivity|by repeat constructor|].
  constructor.
Defined.

Lemma chain_of_two_example :
  observed (run 0 (bschain [cleanup_plan; answer_plan])
                (Send VNone :: [Send (VInt 1)] ++ [Send (VInt 2)] ++ []) tt)
  = Some (([Yielded close_run] ++ [Yielded checkpoint] ++ [])
          ++ [Returned (VTuple [VNone; VInt 42])], tt).
Proof. apply (bschain_runs_in_turn 0 _ tt _ _ _ tt). exact two_in_turn. Defined.

Lemma chain_broken_example :
  observed (run 0 (bschain ([cleanup_plan; answer_plan] ++ failing_plan :: [cleanup_plan]))
                (Send VNone :: ([Send (VInt 1)] ++ [Send (VInt 2)] ++ [])
                            ++ [Send VNone; Send VNone]) tt)
  = Some (([Yielded close_run] ++ [Yielded checkpoint] ++ [])
          ++ [Yielded checkpoint; Yielded open_run] ++ [Raised (UserError 0)], tt).
Proof.
  apply (bschain_stops_at_exception 0 [cleanup_plan; answer_plan] [cleanup_plan]
           failing_plan tt _ _ [VNone; VInt 42] tt [Send VNone; Send VNone]
           [Yielded checkpoint; Yielded open_run] (UserError 0) tt).
  - exact two_in_turn.
  - reflexivity.
  - reflexivity.
  - by repeat constructor.
Defined.

Lemma read_in_a_run_example :
  observed (run 0 (run_wrapper read_plan (Some [("purpose", VStr "test")]))
                (Send VNone :: Send (VStr "uid") :: [Send (VInt 3)] ++ [Send (VStr "uid")])
                s0)
  = Some ([Yielded (mkMsg (next_msg s0) "open_run" None []
                      (default [] (Some [("purpose", VStr "test")])))]
          ++ [Yielded read_M]
          ++ [Yielded (mkMsg (S (next_msg s0)) "close_run" None [] []);
              Returned (VTuple [VNone; VNone; VNone])],
          built 2 s0).
Proof.
  apply (run_wrapper_brackets_plan 0 read_plan (Some [("purpose", VStr "test")])
           [Send (VInt 3)] [Yielded read_M] VNone s0 (built 2 s0)
           (VStr "uid") (VStr "uid")).
  - reflexivity.
  - reflexivity.
  - by repeat constructor.
Defined.

Lemma broken_in_a_run_example :
  observed (run 0 (run_wrapper broken_plan None)
                (Send VNone :: Send (VStr "uid") :: [Send VNone]) s0)
  = Some ([Yielded (mkMsg (next_msg s0) "open_run" None [] (default [] None))]
          ++ [Yielded checkpoint] ++ [Raised (UserError 0)],
          built 2 s0).
Proof.
  apply (run_wrapper_leaves_run_open 0 broken_plan None [Send VNone]
           [Yielded checkpoint] (UserError 0) s0 (built 2 s0) (VStr "uid")).
  - reflexivity.
  - reflexivity.
  - by repeat constructor.
Defined.

Lemma motor_and_detector_example :
  length (replicate 4 VNone)
    = length (trigger_and_read_msgs uuid4_0 id has_trigger_0 [7; 8] (uuids_drawn s0)) ∧
  observed (run 0 (trigger_and_read uuid4_0 id has_trigger_0 [7; 8])
                (Send VNone :: (Send <$> replicate 4 VNone)) s0)
  = Some ((Yielded <$> stamped (next_msg s0)
             (trigger_and_read_msgs uuid4_0 id has_trigger_0 [7; 8] (uuids_drawn s0)))
          ++ [Returned VNone],
          built (length (trigger_and_read_msgs uuid4_0 id has_trigger_0 [7; 8]
                           (uuids_drawn s0)))
                (drawn 1 s0)).
Proof.
  split; [reflexivity|].
  apply (trigger_and_read_sequence uuid4_0 id has_trigger_0 0 [7; 8] (replicate 4 VNone) s0).
  reflexivity.
Defined.

Lemma two_echo_steps :
  in_turn 0 (echo_step [8] 7 <$> [VInt 1; VInt 2]) s0
          ([Send (VInt 10)] ++ [Send (VInt 20)] ++ [])
          ([Yielded checkpoint] ++ [Yielded checkpoint] ++ [])
          [VInt 10; VInt 20] s0.
Proof.
  eapply in_turn_cons; [reflexivity|reflexivity|by repeat constructor|].
  eapply in_turn_cons; [reflexivity|reflexivity|by repeat constructor|].
  constructor.
Defined.

Lemma last_step_example :
  observed (run 0 (_step_scan_core uuid4_0 id has_trigger_0 [8] 7 [VInt 1; VInt 2]
                     (Some echo_step))
                (Send VNone :: [Send (VInt 10)] ++ [Send (VInt 20)] ++ []) s0)
  = Some (([Yielded checkpoint] ++ [Yielded checkpoint] ++ [])
          ++ [match last [VInt 10; VInt 20] with
              | Some v => Returned v
              | None => Raised UnboundLocalError
              end], s0).
Proof.
  apply (step_scan_core_returns_last uuid4_0 id has_trigger_0 0 echo_step [8] 7
           [VInt 1; VInt 2] s0 _ _ [VInt 10; VInt 20] s0).
  exact two_echo_steps.
Defined.

Lemma one_step_example :
  observed (run 0 (_step_scan_core uuid4_0 id has_trigger_0 [8] 7 [VInt 1] None)
                (Send VNone :: (Send <$> replicate 7 VNone)) s0)
  = Some ((Yielded <$> stamped (next_msg s0)
             (step_scan_msgs uuid4_0 id has_trigger_0 [8] 7 [VInt 1] (uuids_drawn s0)))
          ++ [Returned VNone],
          built (length (step_scan_msgs uuid4_0 id has_trigger_0 [8] 7 [VInt 1]
                           (uuids_drawn s0)))
                (drawn (2 * length [VInt 1]) s0)).
Proof.
  apply (step_scan_default_sequence uuid4_0 id has_trigger_0 0 [8] 7 [VInt 1]
           (replicate 7 VNone) s0).
  reflexivity.
Defined.

Lemma two_motors_example :
  observed (run 0 (_one_nd_step uuid4_0 id has_trigger_0 [8] [(7, 3%Z); (6, 4%Z)])
                (Send VNone :: (Send <$> replicate 10 VNone)) s0)
  = Some ((Yielded <$> stamped (next_msg s0)
             (one_nd_step_msgs uuid4_0 id has_trigger_0 [8] [(7, 3%Z); (6, 4%Z)]
                (pos_cache s0) (uuids_drawn s0)))
          ++ [Returned VNone],
          set_pos_cache (cache_after [(7, 3%Z); (6, 4%Z)] (pos_cache s0))
            (built (length (one_nd_step_msgs uuid4_0 id has_trigger_0
                              [8] [(7, 3%Z); (6, 4%Z)] (pos_cache s0) (uuids_drawn s0)))
                   (drawn (S (length [(7, 3%Z); (6, 4%Z)])) s0)))
  ∧ (NoDup (fst <$> [(7, 3%Z); (6, 4%Z)]) →
     ∀ motor pos, (motor, pos) ∈ [(7, 3%Z); (6, 4%Z)] →
       cache_after [(7, 3%Z); (6, 4%Z)] (pos_cache s0) !! motor = Some pos).
Proof.
  apply (one_nd_step_sequence uuid4_0 id has_trigger_0 0 [8] [(7, 3%Z); (6, 4%Z)]
           (replicate 10 VNone) s0).
  reflexivity.
Defined.
Lemma motor_in_place_example :
  (λ x, x.1) <$>
    observed (run 0 (_one_nd_step uuid4_0 id has_trigger_0 [8] [(7, 3%Z)])
                  (Send VNone :: (Send <$> replicate 5 VNone)) s_cached)
  = Some ((Yielded <$> stamped (next_msg s_cached)
             (draft "checkpoint" None [] []
              :: trigger_and_read_msgs uuid4_0 id has_trigger_0
                   ([8] ++ (fst <$> [(7, 3%Z)]))
                   (length [(7, 3%Z)] + uuids_drawn s_cached)))
          ++ [Returned VNone]).
Proof.
  apply (one_nd_step_skips_cached uuid4_0 id has_trigger_0 0 [8] [(7, 3%Z)]
           (replicate 5 VNone) s_cached).
  - intros motor pos Hin. apply list_elem_of_singleton in Hin.
    injection Hin as -> ->. reflexivity.
  - reflexivity.
Defined.

Lemma recovering_root_example :
  resume_gen 1 (MSuspended paused_on_recovering decline) (Throw (UserError 0)) tt
  = Some (Raised (IndexError "pop from an empty deque"), MFinished, tt).
Proof.
  eapply (recovery_message_is_lost (I:=legacy) decline 0 paused_on_recovering tt
            (UserError 0) (Suspended recovering) close_run _ tt
            (IndexError "pop from an empty deque") _ tt).
  - reflexivity.
  - reflexivity.
  - reflexivity.
  - reflexivity.
  - reflexivity.
Defined.



Lemma two_plans_example :
  observed (run 0 (planify two_plans)
                (Send VNone :: [Send (VInt 1)] ++ [Send (VInt 2)] ++ []) tt)
  = Some (([Yielded close_run] ++ [Yielded checkpoint] ++ []) ++ [Returned VNone], tt).
Proof.
  apply (planify_runs_in_turn (I:=legacy) 0 two_plans [cleanup_plan; answer_plan]
           tt tt _ _ [VNone; VInt 42] tt).
  - reflexivity.
  - eapply in_turn_cons; [reflexivity|reflexivity|by repeat constructor|].
    eapply in_turn_cons; [reflexivity|reflexivity|by repeat constructor|].
    constructor.
Defined.

Lemma two_readings_example :
  ∃ tr s',
    observed (run 3 (count uuid4_0 id has_trigger_0 id name_0 name_0
                       [8] (Some 2) (inl (VInt 1)) None)
                  (Send VNone :: (Send <$> replicate 18 VNone)) s0)
      = Some (tr ++ [Returned VNone], s')
    ∧ anonymous <$> tr
      = Yielded <$> count_msgs uuid4_0 id has_trigger_0 id name_0 name_0
                      [8] 2 (VInt 1) None (uuids_drawn s0).
Proof.
  apply (count_sequence uuid4_0 id has_trigger_0 id name_0 name_0 (I:=legacy)
           3 [8] 2 (VInt 1) None (replicate 18 VNone) s0).
  - lia.
  - reflexivity.
Defined.

Lemma one_delay_example :
  ∃ s',
    resume_gen 2 (count uuid4_0 id has_trigger_0 id name_0 name_0
                    [8] (Some 2) (inr [VInt 1]) None)
               (Send VNone) s0
    = Some (if pep479
            then Raised (RuntimeError "generator raised StopIteration")
            else Returned VNone,
            WrRunning Finished, s').
Proof.
  apply (count_delay_runs_out uuid4_0 id has_trigger_0 id name_0 name_0 (I:=legacy)
           2 [8] (Some 2) [VInt 1] None s0).
  - simpl. lia.
  - simpl. lia.
Defined.

Lemma replay_twice_example :
  observed (run (0 + S (length [open_run; close_run])) (caching_repeater 2 one_run)
                (Send VNone :: (Send <$> replicate 4 (VInt 9))) tt)
  = Some ((Yielded <$> concat (replicate 2 [open_run; close_run])) ++ [Returned VNone], tt).
Proof.
  apply (caching_repeater_replays 0 2 one_run tt [open_run; close_run]
           (VTuple [VNone; VNone]) Finished tt (replicate 4 (VInt 9))).
  - reflexivity.
  - reflexivity.
Defined.

#[local] Existing Instance count_times_0.

Lemma restored_at_end_example :
  observed (run 0 (CtAtMsg paused_plan (VInt 5) {[7]} [(7, VInt 1)])
                (Send (VInt 3) :: (Send <$> [VNone])) s0)
  = Some ((Yielded <$> stamped (next_msg s0)
                         (restore_msgs [(7, VInt 1)]))
          ++ [Returned (VInt 3)],
          built (length [(7, VInt 1)]) s0).
Proof.
  apply (configure_count_time_restores_at_end (I:=legacy) (D:=count_times_0)
           0 paused_plan (VInt 5) {[7]} [(7, VInt 1)] (VInt 3) s0 (VInt 3)
           Finished s0 [VNone]).
  - reflexivity.
  - repeat constructor. by eexists.
  - reflexivity.
Defined.

Lemma restored_on_exception_example :
  observed (run 0 (CtAtMsg paused_plan (VInt 5) {[7]} [(7, VInt 1)])
                (Throw (UserError 0) :: (Send <$> [VNone])) s0)
  = Some ((Yielded <$> stamped (next_msg s0)
                         (restore_msgs [(7, VInt 1)]))
          ++ [Raised (UserError 0)],
          built (length [(7, VInt 1)]) s0).
Proof.
  apply (configure_count_time_restores_on_exception (I:=legacy) (D:=count_times_0)
           0 paused_plan (VInt 5) {[7]} [(7, VInt 1)] (UserError 0) s0 [VNone]).
  - repeat constructor. by eexists.
  - reflexivity.
Defined.

Lemma declined_run_example :
  ∃ tr a' w' E',
    run 4 (Fresh (yield_ open_run (fun v => yield_ close_run (fun v' =>
             Return (VTuple [v; v'])))))
        [Send VNone; Send (VInt 1); Send (VInt 2)] tt = Some (tr, a', w') ∧
    run 4 (plan_mutator
             (Fresh (yield_ open_run (fun v => yield_ close_run (fun v' =>
                Return (VTuple [v; v'])))))
             decline)
        [Send VNone; Send (VInt 1); Send (VInt 2)] tt = Some (star <$> tr, E', w') ∧
    (Forall is_Yielded tr → underlying_mutator E' = Some a').
Proof.
  apply (pass_through_keeps_messages (I:=legacy)
           (yield_ open_run (fun v => yield_ close_run (fun v' =>
              Return (VTuple [v; v']))))
           [Send VNone; Send (VInt 1); Send (VInt 2)] tt 4).
  - repeat constructor; by eexists.
  - lia.
Defined.
